(** * SimpleMovieSync: the room synchronisation engine

    A shallow embedding of the Socket.IO handlers of [src/server.js] and of
    the [SyncService] class (the heartbeat broadcaster), with the properties
    of the playback clock, the transport controls, the viewer roster and the
    chat history.

    Conventions.
    - JavaScript numbers holding a playback position are modelled as exact
      rationals ([Q]); [Date.now()] is an integer count of milliseconds ([Z]).
    - A [playbackState] object is shared by reference between the room kept in
      [rooms] by server.js and the room kept by [SyncService]; the objects
      therefore live in a heap and both rooms hold a location.
    - Every handler runs to completion before the next event is taken (the
      Node.js event loop); a handler is a computation in the monad [M], which
      threads the world, reads the clock and the uuid generator, appends to
      the outbox and may throw. *)

From Stdlib Require Import ZArith QArith Qround Lqa String.
From stdpp Require Import base option gmap strings pretty list fin_maps.

Local Open Scope string_scope.
Local Open Scope Z_scope.

(** ** Data model *)

(** Heap locations of [playbackState] objects. *)
Abbreviation loc := nat.

(** [playbackState: { isPlaying, currentTime, lastUpdate }]. *)
Record PlaybackState : Type := mkPlaybackState {
  isPlaying : bool;
  currentTime : Q;
  lastUpdate : Z
}.

(** [viewer = { id: socket.id, username, joinedAt: new Date() }]. *)
Record Viewer : Type := mkViewer {
  viewer_id : string;
  viewer_username : string;
  joinedAt : Z
}.

(** [chatMessage = { id, username, message, timestamp }]; [socket.username]
    is undefined for a socket that never joined a room. *)
Record ChatMessage : Type := mkChatMessage {
  msg_id : string;
  msg_username : option string;
  msg_message : string;
  msg_timestamp : Z
}.

(** [reaction = { id, username, emoji, timestamp }]. *)
Record Reaction : Type := mkReaction {
  reaction_id : string;
  reaction_username : option string;
  emoji : string;
  reaction_timestamp : Z
}.

(** The part of a movie record the room code reads. *)
Inductive TranscodeStatus : Type := pending | processing | completed | failed.

Record Movie : Type := mkMovie {
  movie_id : string;
  transcodeStatus : TranscodeStatus
}.

(** The room object built by [POST /api/rooms]; [playbackState] is a
    reference. The [movie] field (a reference to the movie record, not read
    by any socket handler) is represented by [movieId]. *)
Record Room : Type := mkRoom {
  room_id : string;
  room_name : string;
  movieId : string;
  createdAt : Z;
  viewers : list Viewer;
  playbackState : loc;
  chat : list ChatMessage;
  reactions : list Reaction
}.

(** The room object [SyncService.createRoom] stores. *)
Record SyncRoom : Type := mkSyncRoom {
  sync_id : string;
  sync_playbackState : loc;
  syncTolerance : Q;
  lastSyncBroadcast : Z
}.

(** Expando properties the handlers put on a socket. *)
Record SocketProps : Type := mkSocketProps {
  socket_roomId : option string;
  socket_username : option string
}.

(** ** Outbound messages *)

(** [{ ...room, viewerCount }] as serialised in [roomState]: every own
    property of the room, the playback state by value. *)
Record RoomSnapshot : Type := mkRoomSnapshot {
  snap_id : string;
  snap_name : string;
  snap_movieId : string;
  snap_createdAt : Z;
  snap_viewers : list Viewer;
  snap_playbackState : PlaybackState;
  snap_chat : list ChatMessage;
  snap_reactions : list Reaction;
  snap_viewerCount : nat
}.

(** The object returned by [SyncService.getPlaybackState]. *)
Record PlaybackReport : Type := mkPlaybackReport {
  report_isPlaying : bool;
  report_currentTime : Q;
  report_serverTime : Z
}.

Inductive ServerEvent : Type :=
  | error_event (message : string)
  | roomState (room : RoomSnapshot) (state : PlaybackState)
              (chat_tail : list ChatMessage) (roster : list Viewer)
  | viewerJoined (viewer : Viewer)
  | viewerCount (count : nat)
  | viewerLeft (viewerId : string) (username : option string)
  | syncPlay (position : Q) (serverTime : Z)
  | syncPause (position : Q) (serverTime : Z)
  | syncSeek (position : Q) (serverTime : Z)
  | syncState (playing : bool) (position : Q) (serverTime : Z)
  | syncHeartbeat (state : option PlaybackReport)
  | newMessage (m : ChatMessage)
  | newReaction (r : Reaction).

(** Who an emit is addressed to. *)
Inductive Target : Type :=
  | to_socket (sid : string)                  (* socket.emit *)
  | to_room_except (room : string) (sid : string)  (* socket.to(room).emit *)
  | to_room (room : string).                  (* io.to(room).emit *)

(** ** The world *)

(** The clock and the uuid generator: the k-th call returns the k-th value. *)
Record Env : Type := mkEnv {
  now_at : nat -> Z;
  uuid_at : nat -> string
}.

Record World : Type := mkWorld {
  heap : gmap loc PlaybackState;
  rooms : gmap string Room;               (* server.js: rooms *)
  movies : gmap string Movie;             (* server.js: movies *)
  sync_rooms : list (string * SyncRoom);  (* SyncService.rooms, insertion order *)
  sockets : gmap string SocketProps;
  adapter : gmap string (gset string);    (* Socket.IO rooms: name -> socket ids *)
  outbox : list (Target * ServerEvent);
  clock_reads : nat;
  uuid_reads : nat
}.

Definition with_heap (f : gmap loc PlaybackState -> gmap loc PlaybackState) (w : World) : World :=
  mkWorld (f (heap w)) (rooms w) (movies w) (sync_rooms w) (sockets w)
          (adapter w) (outbox w) (clock_reads w) (uuid_reads w).

Definition with_rooms (f : gmap string Room -> gmap string Room) (w : World) : World :=
  mkWorld (heap w) (f (rooms w)) (movies w) (sync_rooms w) (sockets w)
          (adapter w) (outbox w) (clock_reads w) (uuid_reads w).

Definition with_sync_rooms (f : list (string * SyncRoom) -> list (string * SyncRoom))
    (w : World) : World :=
  mkWorld (heap w) (rooms w) (movies w) (f (sync_rooms w)) (sockets w)
          (adapter w) (outbox w) (clock_reads w) (uuid_reads w).

Definition with_sockets (f : gmap string SocketProps -> gmap string SocketProps)
    (w : World) : World :=
  mkWorld (heap w) (rooms w) (movies w) (sync_rooms w) (f (sockets w))
          (adapter w) (outbox w) (clock_reads w) (uuid_reads w).

Definition with_adapter (f : gmap string (gset string) -> gmap string (gset string))
    (w : World) : World :=
  mkWorld (heap w) (rooms w) (movies w) (sync_rooms w) (sockets w)
          (f (adapter w)) (outbox w) (clock_reads w) (uuid_reads w).

Definition with_outbox (f : list (Target * ServerEvent) -> list (Target * ServerEvent))
    (w : World) : World :=
  mkWorld (heap w) (rooms w) (movies w) (sync_rooms w) (sockets w)
          (adapter w) (f (outbox w)) (clock_reads w) (uuid_reads w).

Definition tick_clock (w : World) : World :=
  mkWorld (heap w) (rooms w) (movies w) (sync_rooms w) (sockets w)
          (adapter w) (outbox w) (S (clock_reads w)) (uuid_reads w).

Definition tick_uuid (w : World) : World :=
  mkWorld (heap w) (rooms w) (movies w) (sync_rooms w) (sockets w)
          (adapter w) (outbox w) (clock_reads w) (S (uuid_reads w)).

(** ** The handler monad *)

Inductive Outcome (A : Type) : Type :=
  | Returned (a : A)
  | Thrown (e : string).
Arguments Returned {A} a.
Arguments Thrown {A} e.

Definition M (A : Type) : Type := Env -> World -> Outcome A * World.

#[global] Instance M_ret : MRet M := fun A a _ w => (Returned a, w).

#[global] Instance M_bind : MBind M := fun A B f m env w =>
  match m env w with
  | (Returned a, w') => f a env w'
  | (Thrown e, w') => (Thrown e, w')
  end.

Definition throw {A : Type} (e : string) : M A := fun _ w => (Thrown e, w).
Definition get_world : M World := fun _ w => (Returned w, w).
Definition modify (f : World -> World) : M unit := fun _ w => (Returned tt, f w).

(** [Date.now()], and the instant of [new Date()]. *)
Definition Date_now : M Z := fun env w => (Returned (now_at env (clock_reads w)), tick_clock w).
Definition new_Date : M Z := Date_now.

(** [uuidv4()]. *)
Definition uuidv4 : M string := fun env w => (Returned (uuid_at env (uuid_reads w)), tick_uuid w).

(** *** JavaScript values *)

(** A string is falsy exactly when it is empty. *)
Definition truthy (s : string) : bool :=
  match s with EmptyString => false | String _ _ => true end.

(** [x || d] for a possibly undefined string [x]. *)
Definition js_or (x : option string) (d : string) : string :=
  match x with
  | Some s => if truthy s then s else d
  | None => d
  end.

(** [l.slice(-n)]: the last [n] elements, the whole array when it is shorter. *)
Definition slice_last {A : Type} (n : nat) (l : list A) : list A :=
  drop (length l - n) l.

(** *** A JavaScript [Map] with string keys, in insertion order *)

Module JsMap.
Section JsMap.
Context {V : Type}.

Fixpoint get (k : string) (m : list (string * V)) : option V :=
  match m with
  | [] => None
  | (k', v) :: m' => if decide (k = k') then Some v else get k m'
  end.

(** [set] on a present key keeps the key's position. *)
Fixpoint set (k : string) (v : V) (m : list (string * V)) : list (string * V) :=
  match m with
  | [] => [(k, v)]
  | (k', v') :: m' =>
      if decide (k = k') then (k, v) :: m' else (k', v') :: set k v m'
  end.

Fixpoint delete (k : string) (m : list (string * V)) : list (string * V) :=
  match m with
  | [] => []
  | (k', v) :: m' =>
      if decide (k = k') then delete k m' else (k', v) :: delete k m'
  end.

Definition keys (m : list (string * V)) : list string := m.*1.
End JsMap.
End JsMap.

(** *** The heap of playback-state objects *)

(** A new object. *)
Definition alloc (ps : PlaybackState) : M loc := fun _ w =>
  let l := fresh (dom (heap w)) in
  (Returned l, with_heap (insert l ps) w).

(** Reading through a reference. References held by rooms always point to an
    allocated object; the failure branch is the model's, not JavaScript's. *)
Definition load (l : loc) : M PlaybackState := fun _ w =>
  match heap w !! l with
  | Some ps => (Returned ps, w)
  | None => (Thrown "dangling reference", w)
  end.

(** An assignment to one property of the object at [l]. *)
Definition assign (l : loc) (f : PlaybackState -> PlaybackState) : M unit :=
  ps ← load l; modify (with_heap (insert l (f ps))).

Definition set_isPlaying (b : bool) (ps : PlaybackState) : PlaybackState :=
  mkPlaybackState b (currentTime ps) (lastUpdate ps).
Definition set_currentTime (t : Q) (ps : PlaybackState) : PlaybackState :=
  mkPlaybackState (isPlaying ps) t (lastUpdate ps).
Definition set_lastUpdate (t : Z) (ps : PlaybackState) : PlaybackState :=
  mkPlaybackState (isPlaying ps) (currentTime ps) t.

(** *** Registry, sockets and Socket.IO rooms *)

Definition rooms_get (roomId : string) : M (option Room) :=
  w ← get_world; mret (rooms w !! roomId).

(** Writes back the room object reached through [rooms.get(roomId)]. *)
Definition rooms_put (roomId : string) (room : Room) : M unit :=
  modify (with_rooms (insert roomId room)).

Definition props_of (w : World) (sid : string) : SocketProps :=
  default (mkSocketProps None None) (sockets w !! sid).

Definition get_socket_roomId (sid : string) : M (option string) :=
  w ← get_world; mret (socket_roomId (props_of w sid)).
Definition get_socket_username (sid : string) : M (option string) :=
  w ← get_world; mret (socket_username (props_of w sid)).

Definition set_socket_roomId (sid roomId : string) : M unit :=
  modify (fun w => with_sockets
    (insert sid (mkSocketProps (Some roomId) (socket_username (props_of w sid)))) w).
Definition set_socket_username (sid username : string) : M unit :=
  modify (fun w => with_sockets
    (insert sid (mkSocketProps (socket_roomId (props_of w sid)) (Some username))) w).

(** The sockets currently in Socket.IO room [r]. *)
Definition members (a : gmap string (gset string)) (r : string) : gset string :=
  default ∅ (a !! r).

Definition socket_join (sid r : string) : M unit :=
  modify (with_adapter (fun a => <[r := {[sid]} ∪ members a r]> a)).
Definition socket_leave (sid r : string) : M unit :=
  modify (with_adapter (fun a => <[r := members a r ∖ {[sid]}]> a)).
(** What Socket.IO does to a socket's rooms when the connection closes. *)
Definition socket_leaveAll (sid : string) : M unit :=
  modify (with_adapter (fmap (fun s => s ∖ {[sid]}))).

Definition emit (t : Target) (ev : ServerEvent) : M unit :=
  modify (with_outbox (fun o => (o ++ [(t, ev)])%list)).
Definition socket_emit (sid : string) (ev : ServerEvent) : M unit :=
  emit (to_socket sid) ev.
Definition socket_to_emit (sid r : string) (ev : ServerEvent) : M unit :=
  emit (to_room_except r sid) ev.
Definition io_to_emit (r : string) (ev : ServerEvent) : M unit :=
  emit (to_room r) ev.

(** The sockets an emit reaches, given the Socket.IO rooms at that moment. *)
Definition recipients (a : gmap string (gset string)) (t : Target) : gset string :=
  match t with
  | to_socket sid => {[sid]}
  | to_room_except r sid => members a r ∖ {[sid]}
  | to_room r => members a r
  end.

(** ** SyncService (the heartbeat broadcaster's registry) *)

(** The fields a caller of [updatePlaybackState] may supply. *)
Record PlaybackPatch : Type := mkPlaybackPatch {
  patch_isPlaying : option bool;
  patch_currentTime : option Q
}.

Module SyncService.

Definition rooms_get (roomId : string) : M (option SyncRoom) :=
  w ← get_world; mret (JsMap.get roomId (sync_rooms w)).

(** [createRoom(roomId, roomData)]: keeps the caller's [playbackState]
    object when there is one. *)
Definition createRoom (roomId : string) (roomData_playbackState : option loc) : M unit :=
  ps ← match roomData_playbackState with
       | Some l => mret l
       | None => now ← Date_now; alloc (mkPlaybackState false 0%Q now)
       end;
  lastSync ← Date_now;
  modify (with_sync_rooms (JsMap.set roomId (mkSyncRoom roomId ps 2%Q lastSync))).

Definition deleteRoom (roomId : string) : M unit :=
  modify (with_sync_rooms (JsMap.delete roomId)).

(** [{ ...room.playbackState, ...state, lastUpdate: Date.now() }], a new
    object that replaces the room's reference. *)
Definition updatePlaybackState (roomId : string) (state : PlaybackPatch) : M unit :=
  room ← rooms_get roomId;
  match room with
  | None => mret tt
  | Some room =>
      old ← load (sync_playbackState room);
      now ← Date_now;
      l ← alloc (mkPlaybackState
                   (default (isPlaying old) (patch_isPlaying state))
                   (default (currentTime old) (patch_currentTime state))
                   now);
      modify (with_sync_rooms (JsMap.set roomId
        (mkSyncRoom (sync_id room) l (syncTolerance room) (lastSyncBroadcast room))))
  end.

Definition getCurrentTime (roomId : string) : M Q :=
  room ← rooms_get roomId;
  match room with
  | None => mret 0%Q
  | Some room =>
      ps ← load (sync_playbackState room);
      let currentTime := currentTime ps in
      if isPlaying ps then
        now ← Date_now;
        let elapsed := (inject_Z (now - lastUpdate ps) / 1000)%Q in
        mret (currentTime + elapsed)%Q
      else mret currentTime
  end.

Definition getPlaybackState (roomId : string) : M (option PlaybackReport) :=
  room ← rooms_get roomId;
  match room with
  | None => mret None
  | Some room =>
      ps ← load (sync_playbackState room);
      currentTime ← getCurrentTime roomId;
      serverTime ← Date_now;
      mret (Some (mkPlaybackReport (isPlaying ps) currentTime serverTime))
  end.

(** [this.rooms.forEach(cb)]. *)
Fixpoint forEach (cb : SyncRoom -> string -> M unit) (entries : list (string * SyncRoom))
    : M unit :=
  match entries with
  | [] => mret tt
  | (roomId, room) :: rest => cb room roomId;; forEach cb rest
  end.

(** The arrow function [startSyncBroadcasts] gives to [forEach]. *)
Definition heartbeat_callback (room : SyncRoom) (roomId : string) : M unit :=
  ps ← load (sync_playbackState room);
  if isPlaying ps then
    state ← getPlaybackState roomId;
    io_to_emit roomId (syncHeartbeat state)
  else mret tt.

(** The function [startSyncBroadcasts] gives to [setInterval]: one tick. *)
Definition heartbeat : M unit :=
  w ← get_world;
  forEach heartbeat_callback (sync_rooms w).

(** [calculateTimeAdjustment(clientTime, serverTime, networkLatency)]. *)
Definition calculateTimeAdjustment (clientTime serverTime networkLatency : Q) : Q :=
  let halfLatency := (networkLatency / 2)%Q in
  (serverTime - clientTime + halfLatency)%Q.

End SyncService.

(** ** server.js: the room routes *)

Inductive Response : Type :=
  | json_success
  | status_error (code : Z) (error : string).

(** [POST /api/rooms] with body [{ movieId, name }]. *)
Definition api_createRoom (movieId : string) (name : option string) : M Response :=
  w ← get_world;
  match movies w !! movieId with
  | None => mret (status_error 404 "Movie not found")
  | Some movie =>
      match transcodeStatus movie with
      | completed =>
          uuid ← uuidv4;
          let roomId := substring 0 8 uuid in
          created ← new_Date;
          now ← Date_now;
          ps ← alloc (mkPlaybackState false 0%Q now);
          let room := mkRoom roomId (js_or name ("Room " ++ roomId)) movieId
                             created [] ps [] [] in
          modify (with_rooms (insert roomId room));;
          SyncService.createRoom roomId (Some (playbackState room));;
          mret json_success
      | _ => mret (status_error 400 "Movie transcoding not completed")
      end
  end.

(** [DELETE /api/rooms/:roomId]. *)
Definition api_deleteRoom (roomId : string) : M Response :=
  w ← get_world;
  match rooms w !! roomId with
  | None => mret (status_error 404 "Room not found")
  | Some _ =>
      SyncService.deleteRoom roomId;;
      modify (with_rooms (delete roomId));;
      mret json_success
  end.

(** ** server.js: the Socket.IO handlers *)

Definition with_viewers (vs : list Viewer) (room : Room) : Room :=
  mkRoom (room_id room) (room_name room) (movieId room) (createdAt room)
         vs (playbackState room) (chat room) (reactions room).

Definition with_chat (c : list ChatMessage) (room : Room) : Room :=
  mkRoom (room_id room) (room_name room) (movieId room) (createdAt room)
         (viewers room) (playbackState room) c (reactions room).

(** [{ ...room, viewerCount: room.viewers.length }]. *)
Definition snapshot (room : Room) (ps : PlaybackState) : RoomSnapshot :=
  mkRoomSnapshot (room_id room) (room_name room) (movieId room) (createdAt room)
                 (viewers room) ps (chat room) (reactions room)
                 (length (viewers room)).

Definition on_joinAdmin (sid : string) : M unit :=
  socket_join sid "admin".

Definition on_joinRoom (sid roomId : string) (username : option string) : M unit :=
  room ← rooms_get roomId;
  match room with
  | None => socket_emit sid (error_event "Room not found")
  | Some room =>
      socket_join sid roomId;;
      set_socket_roomId sid roomId;;
      let username := js_or username ("Viewer " ++ substring 0 4 sid) in
      set_socket_username sid username;;
      joined ← new_Date;
      let viewer := mkViewer sid username joined in
      let room := with_viewers (viewers room ++ [viewer])%list room in
      rooms_put roomId room;;
      ps ← load (playbackState room);
      socket_emit sid (roomState (snapshot room ps) ps
                                 (slice_last 50 (chat room)) (viewers room));;
      socket_to_emit sid roomId (viewerJoined viewer);;
      io_to_emit roomId (viewerCount (length (viewers room)))
  end.

Definition handleLeaveRoom (sid : string) : M unit :=
  roomId ← get_socket_roomId sid;
  match roomId with
  | None => mret tt
  | Some roomId =>
      if truthy roomId then
        room ← rooms_get roomId;
        match room with
        | None => mret tt
        | Some room =>
            let room := with_viewers
              (filter (fun v => viewer_id v ≠ sid) (viewers room)) room in
            rooms_put roomId room;;
            username ← get_socket_username sid;
            socket_to_emit sid roomId (viewerLeft sid username);;
            io_to_emit roomId (viewerCount (length (viewers room)))
        end;;
        socket_leave sid roomId
      else mret tt
  end.

Definition on_play (sid roomId : string) (currentTime : Q) : M unit :=
  room ← rooms_get roomId;
  match room with
  | None => mret tt
  | Some room =>
      assign (playbackState room) (set_isPlaying true);;
      assign (playbackState room) (set_currentTime currentTime);;
      now ← Date_now;
      assign (playbackState room) (set_lastUpdate now);;
      serverTime ← Date_now;
      socket_to_emit sid roomId (syncPlay currentTime serverTime)
  end.

Definition on_pause (sid roomId : string) (currentTime : Q) : M unit :=
  room ← rooms_get roomId;
  match room with
  | None => mret tt
  | Some room =>
      assign (playbackState room) (set_isPlaying false);;
      assign (playbackState room) (set_currentTime currentTime);;
      now ← Date_now;
      assign (playbackState room) (set_lastUpdate now);;
      serverTime ← Date_now;
      socket_to_emit sid roomId (syncPause currentTime serverTime)
  end.

Definition on_seek (sid roomId : string) (currentTime : Q) : M unit :=
  room ← rooms_get roomId;
  match room with
  | None => mret tt
  | Some room =>
      assign (playbackState room) (set_currentTime currentTime);;
      now ← Date_now;
      assign (playbackState room) (set_lastUpdate now);;
      serverTime ← Date_now;
      socket_to_emit sid roomId (syncSeek currentTime serverTime)
  end.

Definition on_requestSync (sid roomId : string) : M unit :=
  room ← rooms_get roomId;
  match room with
  | None => mret tt
  | Some room =>
      ps ← load (playbackState room);
      let currentTime := currentTime ps in
      currentTime ←
        (if isPlaying ps then
           now ← Date_now;
           let elapsed := (inject_Z (now - lastUpdate ps) / 1000)%Q in
           mret (currentTime + elapsed)%Q
         else mret currentTime);
      serverTime ← Date_now;
      socket_emit sid (syncState (isPlaying ps) currentTime serverTime)
  end.

(** [message] is [None] when the payload carries no string there: the call
    of [message.substring] then throws. *)
Definition on_chatMessage (sid roomId : string) (message : option string) : M unit :=
  room ← rooms_get roomId;
  match room with
  | None => mret tt
  | Some room =>
      id ← uuidv4;
      username ← get_socket_username sid;
      text ← match message with
             | Some m => mret (substring 0 500 m)
             | None => throw "TypeError"
             end;
      timestamp ← new_Date;
      let chatMessage := mkChatMessage id username text timestamp in
      let pushed := (chat room ++ [chatMessage])%list in
      let room :=
        if decide (200 < length pushed)%nat
        then with_chat (slice_last 200 pushed) room
        else with_chat pushed room in
      rooms_put roomId room;;
      io_to_emit roomId (newMessage chatMessage)
  end.

Definition on_reaction (sid roomId : string) (emoji : string) : M unit :=
  room ← rooms_get roomId;
  match room with
  | None => mret tt
  | Some room =>
      id ← uuidv4;
      username ← get_socket_username sid;
      timestamp ← Date_now;
      io_to_emit roomId (newReaction (mkReaction id username emoji timestamp))
  end.

(** Socket.IO empties the socket's rooms before the handler runs. *)
Definition on_disconnect (sid : string) : M unit :=
  socket_leaveAll sid;; handleLeaveRoom sid.

(** The events a client may send, and the dispatch [socket.on] sets up.
    Payload fields have the types the client of this repository sends: ids
    and names are strings, positions are numbers; [username] and [message]
    may be missing. A payload of another type, such as an array for
    [username], is outside the model. *)
Inductive ClientEvent : Type :=
  | joinAdmin
  | joinRoom (roomId : string) (username : option string)
  | leaveRoom
  | play (roomId : string) (currentTime : Q)
  | pause (roomId : string) (currentTime : Q)
  | seek (roomId : string) (currentTime : Q)
  | requestSync (roomId : string)
  | chatMessage (roomId : string) (message : option string)
  | reaction (roomId : string) (emoji : string)
  | disconnect.

Definition handle (sid : string) (e : ClientEvent) : M unit :=
  match e with
  | joinAdmin => on_joinAdmin sid
  | joinRoom roomId username => on_joinRoom sid roomId username
  | leaveRoom => handleLeaveRoom sid
  | play roomId t => on_play sid roomId t
  | pause roomId t => on_pause sid roomId t
  | seek roomId t => on_seek sid roomId t
  | requestSync roomId => on_requestSync sid roomId
  | chatMessage roomId message => on_chatMessage sid roomId message
  | reaction roomId emoji => on_reaction sid roomId emoji
  | disconnect => on_disconnect sid
  end.

(** The event's room id, for the events that carry one. *)
Definition event_roomId (e : ClientEvent) : option string :=
  match e with
  | joinRoom r _ | play r _ | pause r _ | seek r _ | requestSync r
  | chatMessage r _ | reaction r _ => Some r
  | joinAdmin | leaveRoom | disconnect => None
  end.

(** A sequence of client events, each with the socket it arrives on, handled
    in order; an uncaught exception ends the run. *)
Fixpoint handle_all (evs : list (string * ClientEvent)) : M unit :=
  match evs with
  | [] => mret tt
  | (sid, e) :: rest => handle sid e;; handle_all rest
  end.

(** ** The clock model *)

(** The position that [SyncService.getCurrentTime] and the [requestSync]
    handler both compute from the playback state and one clock reading.
    The sum is the exact rational where the code adds doubles; what is
    proved of it below are equalities with this expression and order facts
    with [<=], which rounding to the nearest double preserves. *)
Definition position_at (ps : PlaybackState) (now : Z) : Q :=
  let currentTime := currentTime ps in
  if isPlaying ps then (currentTime + inject_Z (now - lastUpdate ps) / 1000)%Q
  else currentTime.

(** The reference contract [extrapolate(anchor, now)] of the specification,
    written from its words: the position unchanged when paused, and
    [position + max(0, now - lastUpdate)], in seconds, when playing. *)
Definition extrapolate_spec (anchor : PlaybackState) (now : Z) : Q :=
  if isPlaying anchor
  then (currentTime anchor + inject_Z (Z.max 0 (now - lastUpdate anchor)) / 1000)%Q
  else currentTime anchor.

(** ** Sample worlds *)

Definition empty_world : World := mkWorld ∅ ∅ ∅ [] ∅ ∅ [] 0 0.

(** A process holding one transcoded movie. *)
Definition movie_world : World :=
  mkWorld ∅ ∅ {[ "m1" := mkMovie "m1" completed ]} [] ∅ ∅ [] 0 0.

(** A clock that starts at [t0] and advances [step] ms per reading, and a
    uuid generator that answers [u] followed by the number of the call. *)
Definition linear_env (t0 step : Z) (u : string) : Env :=
  mkEnv (fun k => t0 + step * Z.of_nat k) (fun k => u ++ pretty k).

(** A clock stuck at [t]. *)
Definition frozen_env (t : Z) (u : string) : Env := linear_env t 0 u.

(** A world with one paused or playing room ["r"], known to both registries. *)
Definition room_world (a : PlaybackState) : World :=
  mkWorld {[ 0%nat := a ]}
          {[ "r" := mkRoom "r" "Room r" "m1" 0 [] 0%nat [] [] ]}
          {[ "m1" := mkMovie "m1" completed ]}
          [("r", mkSyncRoom "r" 0%nat 2%Q 0)]
          ∅ ∅ [] 0 0.

(** The same room after two viewers joined: socket ["s1"] under the default
    name and socket ["s2"] as "bob". *)
Definition watch_world : World :=
  (handle_all [("s1", joinRoom "r" None); ("s2", joinRoom "r" (Some "bob"))]
              (frozen_env 0 "u") (room_world (mkPlaybackState false 0 0))).2.

(** The room object of [watch_world]. *)
Definition watch_room : Room :=
  mkRoom "r" "Room r" "m1" 0
         [mkViewer "s1" "Viewer s1" 0; mkViewer "s2" "bob" 0] 0%nat [] [].

(** A clock for four events handled at 0 s, 1 s, 2 s and 3 s: each handler
    reads it at most twice. *)
Definition seconds_env : Env :=
  mkEnv (fun k => 1000 * Z.of_nat (k / 2)) (fun _ => "u").

(** ** Chat traffic *)

(** [chatMessage] events for one room, given as (socket, text) pairs. *)
Definition chat_events (roomId : string) (evs : list (string * string))
    : list (string * ClientEvent) :=
  map (fun p => (p.1, chatMessage roomId (Some p.2))) evs.

(** The chat records those events produce, in arrival order, when the first
    of them is handled in world [w] after [k] earlier ones. *)
Fixpoint sent_messages (env : Env) (w : World) (k : nat) (evs : list (string * string))
    : list ChatMessage :=
  match evs with
  | [] => []
  | (sid, text) :: rest =>
      mkChatMessage (uuid_at env (k + uuid_reads w))
                    (socket_username (props_of w sid))
                    (substring 0 500 text)
                    (now_at env (k + clock_reads w))
      :: sent_messages env w (S k) rest
  end.

(** The messages a computation appends to the outbox. *)
Definition emitted_by {A : Type} (h : M A) (env : Env) (w : World)
    : list (Target * ServerEvent) :=
  drop (length (outbox w)) (outbox (h env w).2).

(** [watch_world] after 51 chat messages from socket ["s1"]. *)
Definition chatty_world : World :=
  (handle_all (chat_events "r" (replicate 51 ("s1", "hi")))
              (linear_env 1000 1 "id") watch_world).2.

(** ** Heartbeats *)

#[global] Instance Target_eq_dec : EqDecision Target.
Proof. solve_decision. Defined.

(** Whether a message with target [t] is addressed to the Socket.IO room
    [r], to all of it or to all but one socket. *)
Definition addressed_to (r : string) (t : Target) : bool :=
  match t with
  | to_room r' | to_room_except r' _ => bool_decide (r' = r)
  | to_socket _ => false
  end.

(** ** Well-formed worlds *)

(** What server.js maintains between events: [SyncService.rooms] has one
    entry per key, every entry's playback state is allocated, and every room
    of [rooms] has an entry in [SyncService.rooms] holding the same
    [playbackState] object. *)
Definition wf_world (w : World) : Prop :=
  NoDup (JsMap.keys (sync_rooms w)) /\
  (forall (roomId : string) (sr : SyncRoom),
      JsMap.get roomId (sync_rooms w) = Some sr ->
      is_Some (heap w !! sync_playbackState sr)) /\
  (forall (roomId : string) (room : Room),
      rooms w !! roomId = Some room ->
      exists sr, JsMap.get roomId (sync_rooms w) = Some sr /\
                 sync_playbackState sr = playbackState room).

(** [frame w0 w]: from [w0] to [w] the sync registry is the same, no playback
    state was deallocated, and every room still holds the [playbackState]
    object it held. *)
Definition frame (w0 w : World) : Prop :=
  sync_rooms w = sync_rooms w0 /\
  (forall l : loc, is_Some (heap w0 !! l) -> is_Some (heap w !! l)) /\
  (forall (roomId : string) (room' : Room),
      rooms w !! roomId = Some room' ->
      exists room, rooms w0 !! roomId = Some room /\
                   playbackState room' = playbackState room).

(** What is known of a room read from the registry while the frame of [w0]
    holds: it carries the [playbackState] object the room had in [w0]. *)
Definition same_object (w0 : World) (roomId : string) (o : option Room) : Prop :=
  forall room, o = Some room ->
    exists room0, rooms w0 !! roomId = Some room0 /\
                  playbackState room = playbackState room0.

(** A computation that keeps the frame of [w0], whether it returns or throws. *)
Definition keeps {A : Type} (w0 : World) (m : M A) : Prop :=
  forall (env : Env) (w : World), frame w0 w -> frame w0 (m env w).2.

(** The operations server.js performs on the world. *)
Inductive Operation : Type :=
  | op_event (sid : string) (e : ClientEvent)
  | op_createRoom (movieId : string) (name : option string)
  | op_deleteRoom (roomId : string)
  | op_heartbeat.

Definition perform (o : Operation) (env : Env) (w : World) : World :=
  match o with
  | op_event sid e => (handle sid e env w).2
  | op_createRoom movieId name => (api_createRoom movieId name env w).2
  | op_deleteRoom roomId => (api_deleteRoom roomId env w).2
  | op_heartbeat => (SyncService.heartbeat env w).2
  end.

(** A room created through the API, joined by two viewers and set playing
    at position 10 when the clock showed 2000 ms. *)
Definition playing_world : World :=
  fold_left (fun w o => perform o (frozen_env 2000 "abcdefghij") w)
    [op_createRoom "m1" (Some "Friday");
     op_event "s1" (joinRoom "abcdefgh" None);
     op_event "s2" (joinRoom "abcdefgh" (Some "bob"));
     op_event "s1" (play "abcdefgh" 10)]
    movie_world.

(** The room object of [playing_world]. *)
Definition playing_room : Room :=
  mkRoom "abcdefgh" "Friday" "m1" 2000
         [mkViewer "s1" "Viewer s1" 2000; mkViewer "s2" "bob" 2000] 0%nat [] [].

(** Two rooms, ["roomid-0"] and ["roomid-1"], created through the API for
    the same movie. *)
Definition two_room_world : World :=
  fold_left (fun w o => perform o (frozen_env 100 "roomid-") w)
    [op_createRoom "m1" None; op_createRoom "m1" None]
    movie_world.

(** ** Heartbeats under a running clock *)

(** Whether an entry of [SyncService.rooms] is playing in heap [h]. *)
Definition is_playing_entry (h : gmap loc PlaybackState) (e : string * SyncRoom) : bool :=
  match h !! sync_playbackState e.2 with
  | Some a => isPlaying a
  | None => false
  end.

(** The ids of the playing rooms, in the order of the registry. *)
Definition playing_ids (h : gmap loc PlaybackState) (entries : list (string * SyncRoom))
    : list string :=
  (filter (fun e => is_playing_entry h e = true) entries).*1.

(** The heartbeats of one tick that starts at clock reading number [k]: a
    playing room takes two readings, a paused room none. *)
Fixpoint heartbeats_from (env : Env) (h : gmap loc PlaybackState) (k : nat)
    (entries : list (string * SyncRoom)) : list (Target * ServerEvent) :=
  match entries with
  | [] => []
  | (roomId, room) :: rest =>
      match h !! sync_playbackState room with
      | Some a =>
          if isPlaying a
          then (to_room roomId,
                syncHeartbeat (Some (mkPlaybackReport true
                                       (position_at a (now_at env k))
                                       (now_at env (S k)))))
               :: heartbeats_from env h (S (S k)) rest
          else heartbeats_from env h k rest
      | None => heartbeats_from env h k rest
      end
  end.

(** ** Runs of the server *)

(** The process right after start, holding the movies [mv] and no room. *)
Definition boot_world (mv : gmap string Movie) : World :=
  mkWorld ∅ ∅ mv [] ∅ ∅ [] 0 0.

Definition run_ops (env : Env) (ops : list Operation) (w : World) : World :=
  fold_left (fun w o => perform o env w) ops w.

(** What every room object satisfies: at most 200 chat records, each with a
    text of at most 500 characters, no stored reaction, and no viewer with an
    empty name. *)
Definition room_ok (room : Room) : Prop :=
  (length (chat room) <= 200)%nat /\
  Forall (fun m => (String.length (msg_message m) <= 500)%nat) (chat room) /\
  reactions room = [] /\
  Forall (fun v => truthy (viewer_username v) = true) (viewers room).

Definition rooms_ok (w : World) : Prop :=
  forall (roomId : string) (room : Room), rooms w !! roomId = Some room -> room_ok room.

(** A computation that keeps an invariant of the world, whether it returns or
    throws. *)
Definition preserves {A : Type} (I : World -> Prop) (m : M A) : Prop :=
  forall (env : Env) (w : World), I w -> I (m env w).2.

(** ** scripts/add-user.js: the htpasswd tool *)

(** JavaScript strings are modelled by strings whose characters are the code
    units below 256; a hash context is the list of the bytes it was fed; the
    htpasswd file is its text, or [None] when the file does not exist. *)
Module AddUser.

Definition ITOA64 : string :=
  "./0123456789ABCDEFGHIJKLMNOPQRSTUVWXYZabcdefghijklmnopqrstuvwxyz".

(** [ToInt32], the conversion every bitwise operator applies to its operands. *)
Definition ToInt32 (v : Z) : Z := (v + 2 ^ 31) mod 2 ^ 32 - 2 ^ 31.

(** [s[i]] appended to a string: the character, or the text "undefined" when
    the index is out of range. *)
Definition char_at (s : string) (i : Z) : string :=
  match (if (0 <=? i)%Z then String.get (Z.to_nat i) s else None) with
  | Some c => String c ""
  | None => "undefined"
  end.

(** [to64(v, n)], for a count [n] that is a non-negative integer. *)
Fixpoint to64 (v : Z) (n : nat) : string :=
  match n with
  | O => ""
  | S n' =>
      char_at ITOA64 (Z.land (ToInt32 v) 63) ++ to64 (Z.shiftr (ToInt32 v) 6) n'
  end.

(** The UTF-8 bytes [ctx.update] hashes for a string. *)
Definition utf8_char (c : Ascii.ascii) : list Z :=
  let n := Z.of_nat (Ascii.nat_of_ascii c) in
  if (n <? 128)%Z then [n] else [Z.lor 192 (Z.shiftr n 6); Z.lor 128 (Z.land n 63)].

Fixpoint utf8 (s : string) : list Z :=
  match s with
  | EmptyString => []
  | String c s' => (utf8_char c ++ utf8 s')%list
  end.

(** [final[i]] inside a bitwise expression: an index past the end gives
    [undefined], which counts as 0 there. *)
Definition byte_at (final : list Z) (i : nat) : Z := nth i final 0.

Section Crypt.
(** [crypto.createHash('md5')]: the digest of the bytes fed to the context;
    and [Math.random()], the k-th call giving the k-th value. *)
Variable md5 : list Z -> list Z.
Variable random : nat -> Q.

(** [generateSalt()], drawing from the [k]-th random number on. *)
Fixpoint generateSalt_from (k n : nat) : string :=
  match n with
  | O => ""
  | S n' =>
      char_at ITOA64 (Qfloor (random k * inject_Z (Z.of_nat (String.length ITOA64))))
      ++ generateSalt_from (S k) n'
  end.

Definition generateSalt : string := generateSalt_from 0 8.

(** [for (let pl = password.length; pl > 0; pl -= 16)
      ctx.update(final.slice(0, pl > 16 ? 16 : pl))];
    [fuel] bounds the number of rounds. *)
Fixpoint feed_final (fuel : nat) (pl : Z) (final ctx : list Z) : list Z :=
  match fuel with
  | O => ctx
  | S fuel' =>
      if (0 <? pl)%Z
      then feed_final fuel' (pl - 16) final
             (ctx ++ take (Z.to_nat (if (16 <? pl)%Z then 16 else pl)) final)%list
      else ctx
  end.

(** [for (let i = password.length; i; i >>= 1)
      if (i & 1) ctx.update(Buffer.from([0])); else ctx.update(password[0])]. *)
Fixpoint feed_bits (fuel : nat) (i : Z) (password : string) (ctx : list Z) : list Z :=
  match fuel with
  | O => ctx
  | S fuel' =>
      if (i =? 0)%Z then ctx
      else feed_bits fuel' (Z.shiftr (ToInt32 i) 1) password
             (if (Z.land (ToInt32 i) 1 =? 0)%Z
              then (ctx ++ utf8 (substring 0 1 password))%list
              else (ctx ++ [0])%list)
  end.

(** One of the 1000 rounds. *)
Definition round (password salt : string) (final : list Z) (i : Z) : list Z :=
  let odd := negb (Z.land i 1 =? 0)%Z in
  let ctx1 := if odd then utf8 password else final in
  let ctx1 := if negb (i mod 3 =? 0)%Z then (ctx1 ++ utf8 salt)%list else ctx1 in
  let ctx1 := if negb (i mod 7 =? 0)%Z then (ctx1 ++ utf8 password)%list else ctx1 in
  let ctx1 := if odd then (ctx1 ++ final)%list else (ctx1 ++ utf8 password)%list in
  md5 ctx1.

(** The digest after the initial mixing and the 1000 rounds. *)
Definition apr1_digest (password salt : string) : list Z :=
  let len := Z.of_nat (String.length password) in
  let ctx := (utf8 password ++ utf8 "$apr1$" ++ utf8 salt)%list in
  let final := md5 (utf8 password ++ utf8 salt ++ utf8 password)%list in
  let ctx := feed_final (String.length password) len final ctx in
  let ctx := feed_bits (String.length password) len password ctx in
  let final := md5 ctx in
  fold_left (round password salt) (map Z.of_nat (seq 0 1000)) final.

(** The final encoding of a digest. *)
Definition encode_final (final : list Z) : string :=
  let b := byte_at final in
  let group (x y z : nat) :=
    to64 (Z.lor (Z.lor (Z.shiftl (b x) 16) (Z.shiftl (b y) 8)) (b z)) 4 in
  group 0%nat 6%nat 12%nat ++ group 1%nat 7%nat 13%nat ++ group 2%nat 8%nat 14%nat
  ++ group 3%nat 9%nat 15%nat ++ group 4%nat 10%nat 5%nat ++ to64 (b 11%nat) 2.

(** [apr1Crypt(password, salt)]; [salt] is [None] when the caller gives none. *)
Definition apr1Crypt (password : string) (salt : option string) : string :=
  let salt := js_or salt generateSalt in
  "$apr1$" ++ salt ++ "$" ++ encode_final (apr1_digest password salt).
End Crypt.

(** *** Strings *)

(** [s.split(sep)] for a separator of one character. *)
Fixpoint split_on (sep : Ascii.ascii) (s : string) : list string :=
  match s with
  | EmptyString => [""]
  | String c s' =>
      if Ascii.eqb c sep then "" :: split_on sep s'
      else match split_on sep s' with
           | p :: ps => String c p :: ps
           | [] => [String c ""]
           end
  end.

(** [lines.join(sep)]. *)
Fixpoint join (sep : string) (l : list string) : string :=
  match l with
  | [] => ""
  | [x] => x
  | x :: rest => x ++ sep ++ join sep rest
  end.

(** White space and line terminators below code unit 256. *)
Definition is_space (c : Ascii.ascii) : bool :=
  let n := Ascii.nat_of_ascii c in
  ((9 <=? n) && (n <=? 13) || (n =? 32) || (n =? 160))%nat.

Fixpoint trim_start (s : string) : string :=
  match s with
  | EmptyString => ""
  | String c s' => if is_space c then trim_start s' else s
  end.

Fixpoint trim_end (s : string) : string :=
  match s with
  | EmptyString => ""
  | String c s' =>
      match trim_end s' with
      | EmptyString => if is_space c then "" else String c ""
      | r => String c r
      end
  end.

(** [s.trim()]. *)
Definition trim (s : string) : string := trim_end (trim_start s).

Definition newline : Ascii.ascii := Ascii.ascii_of_nat 10.
Definition colon : Ascii.ascii := Ascii.ascii_of_nat 58.
Definition dollar : Ascii.ascii := Ascii.ascii_of_nat 36.

(** *** The file *)

(** One line of [parseHtpasswd]'s loop. *)
Definition parse_line (users : list (string * string)) (line : string)
    : list (string * string) :=
  match split_on colon line with
  | username :: hash :: _ =>
      if truthy username && truthy hash
      then JsMap.set (trim username) (trim hash) users
      else users
  | _ => users
  end.

(** [parseHtpasswd()], from the state of the file. *)
Definition parseHtpasswd (file : option string) : list (string * string) :=
  match file with
  | Some content =>
      let lines := filter (fun line => truthy (trim line) = true)
                          (split_on newline content) in
      fold_left parse_line lines []
  | None => []
  end.

(** [saveHtpasswd(users)]: the text written. *)
Definition saveHtpasswd (users : list (string * string)) : string :=
  join (String newline "") (map (fun e => e.1 ++ ":" ++ e.2) users)
  ++ String newline "".

(** [addUser(username, password)]: the answer and the file afterwards. *)
Definition addUser (md5 : list Z -> list Z) (random : nat -> Q)
    (file : option string) (username password : string) : bool * option string :=
  let users := parseHtpasswd file in
  let hash := apr1Crypt md5 random password None in
  let isUpdate := bool_decide (is_Some (JsMap.get username users)) in
  let users := JsMap.set username hash users in
  (isUpdate, Some (saveHtpasswd users)).

(** [deleteUser(username)]. *)
Definition deleteUser (file : option string) (username : string)
    : bool * option string :=
  let users := parseHtpasswd file in
  if bool_decide (is_Some (JsMap.get username users))
  then (true, Some (saveHtpasswd (JsMap.delete username users)))
  else (false, file).

(** [listUsers()]. *)
Definition listUsers (file : option string) : list string :=
  JsMap.keys (parseHtpasswd file).

(** *** Vocabulary of the properties *)

Fixpoint contains (c : Ascii.ascii) (s : string) : bool :=
  match s with
  | EmptyString => false
  | String c' s' => Ascii.eqb c c' || contains c s'
  end.

Fixpoint all_chars (P : Ascii.ascii -> bool) (s : string) : bool :=
  match s with
  | EmptyString => true
  | String c s' => P c && all_chars P s'
  end.

(** Text over the 64 characters of [ITOA64]. *)
Definition crypt_text (s : string) : bool :=
  all_chars (fun c => contains c ITOA64) s.

(** A 16-byte digest. *)
Definition digest (final : list Z) : Prop :=
  length final = 16%nat /\ Forall (fun b => 0 <= b < 256) final.

(** A name or a hash that a line of the file carries unchanged: not empty,
    free of colons and line feeds, with no white space at either end. *)
Definition clean (s : string) : Prop :=
  s ≠ "" /\ trim s = s /\ contains colon s = false /\ contains newline s = false.

(** What [parseHtpasswd] can store: as [clean], but possibly empty. *)
Definition stored (s : string) : Prop :=
  trim s = s /\ contains colon s = false /\ contains newline s = false.

(** Stand-ins for the two library functions, for worked examples: a digest of
    16 equal bytes, and a random source that steps through eighths. *)
Definition sample_md5 (bytes : list Z) : list Z :=
  replicate 16 (fold_right Z.add 0 bytes mod 256).

Definition sample_random (k : nat) : Q := Z.of_nat (k mod 8) # 8.

End AddUser.

(* ================================================================= *)
(** * Properties *)

(** ** Running the monad *)

Lemma bind_run {A B : Type} (m : M A) (f : A -> M B) (env : Env) (w : World) :
  (m ≫= f) env w =
  match m env w with
  | (Returned a, w') => f a env w'
  | (Thrown e, w') => (Thrown e, w')
  end.
Proof. reflexivity. Qed.

Lemma load_run (env : Env) (w : World) (l : loc) (ps : PlaybackState) :
  heap w !! l = Some ps -> load l env w = (Returned ps, w).
Proof. intros H. unfold load. by rewrite H. Qed.

Lemma assign_run (env : Env) (w : World) (l : loc) f (ps : PlaybackState) :
  heap w !! l = Some ps ->
  assign l f env w = (Returned tt, with_heap (insert l (f ps)) w).
Proof.
  intros H. unfold assign. rewrite bind_run, (load_run _ _ _ _ H). reflexivity.
Qed.

(** ** The clock model *)

Lemma position_at_paused (a : PlaybackState) (now : Z) :
  isPlaying a = false -> position_at a now = currentTime a.
Proof. unfold position_at. by intros ->. Qed.

Lemma position_at_playing (a : PlaybackState) (now : Z) :
  isPlaying a = true ->
  position_at a now = (currentTime a + inject_Z (now - lastUpdate a) / 1000)%Q.
Proof. unfold position_at. by intros ->. Qed.

Lemma elapsed_mono (x y : Z) : x <= y -> (inject_Z x / 1000 <= inject_Z y / 1000)%Q.
Proof.
  intros H. unfold Qdiv. apply Qmult_le_compat_r.
  - by rewrite <- Zle_Qle.
  - discriminate.
Qed.

Lemma elapsed_nonneg_iff (x : Z) : 0 <= x <-> (0 <= inject_Z x / 1000)%Q.
Proof.
  unfold Qle, Qdiv. simpl. lia.
Qed.

Lemma position_at_mono (a : PlaybackState) (now1 now2 : Z) :
  now1 <= now2 -> (position_at a now1 <= position_at a now2)%Q.
Proof.
  intros H. unfold position_at. destruct (isPlaying a); [|apply Qle_refl].
  apply Qplus_le_r, elapsed_mono. lia.
Qed.

Lemma getCurrentTime_run (env : Env) (w : World) (roomId : string)
    (sr : SyncRoom) (a : PlaybackState) :
  JsMap.get roomId (sync_rooms w) = Some sr ->
  heap w !! sync_playbackState sr = Some a ->
  SyncService.getCurrentTime roomId env w =
    (Returned (position_at a (now_at env (clock_reads w))),
     if isPlaying a then tick_clock w else w).
Proof.
  intros Hr Ha. unfold SyncService.getCurrentTime, SyncService.rooms_get.
  rewrite !bind_run. cbn. rewrite Hr, bind_run, (load_run _ _ _ _ Ha).
  unfold position_at. destruct (isPlaying a); reflexivity.
Qed.

Lemma on_requestSync_run (env : Env) (w : World) (sid roomId : string)
    (room : Room) (a : PlaybackState) :
  rooms w !! roomId = Some room ->
  heap w !! playbackState room = Some a ->
  let w1 := if isPlaying a then tick_clock w else w in
  on_requestSync sid roomId env w =
    (Returned tt,
     with_outbox (fun o => (o ++ [(to_socket sid,
        syncState (isPlaying a) (position_at a (now_at env (clock_reads w)))
                  (now_at env (clock_reads w1)))])%list) (tick_clock w1)).
Proof.
  intros Hr Ha. unfold on_requestSync, rooms_get.
  rewrite !bind_run. cbn. rewrite Hr, bind_run, (load_run _ _ _ _ Ha).
  unfold position_at. destruct (isPlaying a); reflexivity.
Qed.

Lemma extrapolate_spec_agrees (a : PlaybackState) (now : Z) :
  isPlaying a = false \/ lastUpdate a <= now ->
  position_at a now = extrapolate_spec a now.
Proof.
  unfold position_at, extrapolate_spec. intros [-> | H]; [done|].
  destruct (isPlaying a); [|done]. by rewrite Z.max_r by lia.
Qed.

(** C1. The position computed by [SyncService.getCurrentTime] and by the
    [requestSync] handler is [position_at] of the stored playback state and
    the clock reading. For a paused state it is the stored position whatever
    the clock reads; for a playing state read at [now >= lastUpdate] it is the
    stored position plus the [now - lastUpdate] milliseconds in seconds; in
    both cases it agrees with the reference contract, and it never decreases
    when the clock reading grows. *)
Theorem clock_model_matches_reference :
  (forall (env : Env) (w : World) (roomId : string) (sr : SyncRoom) (a : PlaybackState),
      JsMap.get roomId (sync_rooms w) = Some sr ->
      heap w !! sync_playbackState sr = Some a ->
      (SyncService.getCurrentTime roomId env w).1
        = Returned (position_at a (now_at env (clock_reads w)))) /\
  (forall (env : Env) (w : World) (sid roomId : string) (room : Room) (a : PlaybackState),
      rooms w !! roomId = Some room ->
      heap w !! playbackState room = Some a ->
      exists serverTime,
        outbox (on_requestSync sid roomId env w).2
          = (outbox w ++ [(to_socket sid,
               syncState (isPlaying a) (position_at a (now_at env (clock_reads w)))
                         serverTime)])%list) /\
  (forall (a : PlaybackState) (now : Z),
      isPlaying a = false ->
      position_at a now = currentTime a /\
      position_at a now = extrapolate_spec a now) /\
  (forall (a : PlaybackState) (now : Z),
      isPlaying a = true -> lastUpdate a <= now ->
      position_at a now = (currentTime a + inject_Z (now - lastUpdate a) / 1000)%Q /\
      position_at a now = extrapolate_spec a now) /\
  (forall (a : PlaybackState) (now1 now2 : Z),
      now1 <= now2 -> (position_at a now1 <= position_at a now2)%Q).
Proof.
  split; [|split; [|split; [|split]]].
  - intros env w roomId sr a Hr Ha. by rewrite (getCurrentTime_run _ _ _ _ _ Hr Ha).
  - intros env w sid roomId room a Hr Ha.
    rewrite (on_requestSync_run _ _ sid _ _ _ Hr Ha).
    destruct (isPlaying a); eexists; reflexivity.
  - intros a now Hp. split.
    + by apply position_at_paused.
    + apply extrapolate_spec_agrees. by left.
  - intros a now Hp Hle. split.
    + by apply position_at_playing.
    + apply extrapolate_spec_agrees. by right.
  - intros a now1 now2. apply position_at_mono.
Qed.

Lemma clock_model_matches_reference_witness :
  let playing := mkPlaybackState true 10 2000 in
  let paused := mkPlaybackState false 10 2000 in
  (SyncService.getCurrentTime "r" (frozen_env 7000 "u") (room_world playing)).1
    = Returned (position_at playing 7000) /\
  (exists serverTime,
      outbox (on_requestSync "s1" "r" (frozen_env 7000 "u") (room_world playing)).2
        = [(to_socket "s1", syncState true (position_at playing 7000) serverTime)]) /\
  position_at paused 7000 = 10%Q /\
  position_at playing 7000 = (10 + inject_Z (7000 - 2000) / 1000)%Q /\
  (position_at playing 7000 == 15)%Q /\
  (position_at playing 7000 <= position_at playing 9000)%Q.
Proof.
  destruct clock_model_matches_reference as (Hget & Hreq & Hpaused & Hplaying & Hmono).
  intros playing paused. split; [|split; [|split; [|split; [|split]]]].
  - exact (Hget (frozen_env 7000 "u") (room_world playing) "r"
                (mkSyncRoom "r" 0%nat 2%Q 0) playing eq_refl eq_refl).
  - exact (Hreq (frozen_env 7000 "u") (room_world playing) "s1" "r"
                (mkRoom "r" "Room r" "m1" 0 [] 0%nat [] []) playing eq_refl eq_refl).
  - exact (proj1 (Hpaused paused 7000 eq_refl)).
  - refine (proj1 (Hplaying playing 7000 eq_refl _)). simpl. lia.
  - reflexivity.
  - apply (Hmono playing 7000 9000). lia.
Defined.

(** C2, counterexample. A playing room whose state was stamped at 10000 ms
    and is read when the clock shows 0 ms: the code returns (and replies with)
    a position 10 s below the stored one, here negative, where the reference
    contract clamps the elapsed time at zero. *)
Lemma extrapolation_clamp_counterexample :
  let a := mkPlaybackState true 5 10000 in
  isPlaying a = true /\ (0 <= currentTime a)%Q /\
  (SyncService.getCurrentTime "r" (frozen_env 0 "u") (room_world a)).1
    = Returned (position_at a 0) /\
  outbox (on_requestSync "s1" "r" (frozen_env 0 "u") (room_world a)).2
    = [(to_socket "s1", syncState true (position_at a 0) 0)] /\
  (position_at a 0 == -5)%Q /\
  ~ (position_at a 0 == extrapolate_spec a 0)%Q /\
  (position_at a 0 < currentTime a)%Q /\
  (position_at a 0 < 0)%Q.
Proof.
  intros a. repeat split; try reflexivity; try discriminate.
Qed.

(** C2, amended. For a playing state and every clock reading [now], also one
    before [lastUpdate], both code paths return the stored position plus
    [(now - lastUpdate) / 1000], with no clamp. For [now >= lastUpdate] the
    result is at least the stored position, and non-negative for a
    non-negative stored position; for [now <= lastUpdate] it is at most the
    stored position. *)
Theorem extrapolation_while_playing (env : Env) (w : World) (sid roomId : string)
    (room : Room) (sr : SyncRoom) (a : PlaybackState) :
  rooms w !! roomId = Some room ->
  JsMap.get roomId (sync_rooms w) = Some sr ->
  heap w !! playbackState room = Some a ->
  heap w !! sync_playbackState sr = Some a ->
  isPlaying a = true ->
  let now := now_at env (clock_reads w) in
  let q := (currentTime a + inject_Z (now - lastUpdate a) / 1000)%Q in
  (SyncService.getCurrentTime roomId env w).1 = Returned q /\
  (exists serverTime,
      outbox (on_requestSync sid roomId env w).2
        = (outbox w ++ [(to_socket sid, syncState true q serverTime)])%list) /\
  (lastUpdate a <= now -> (currentTime a <= q)%Q) /\
  (now <= lastUpdate a -> (q <= currentTime a)%Q) /\
  (lastUpdate a <= now -> (0 <= currentTime a)%Q -> (0 <= q)%Q).
Proof.
  intros Hr Hs Ha Ha' Hp now q.
  assert (Hq : position_at a now = q) by by apply position_at_playing.
  assert (Hup : lastUpdate a <= now -> (currentTime a <= q)%Q).
  { intros Hle. unfold q. rewrite <- (Qplus_0_r (currentTime a)) at 1.
    rewrite Qplus_le_r, <- elapsed_nonneg_iff. lia. }
  split; [|split; [|split; [|split]]].
  - by rewrite (getCurrentTime_run _ _ _ _ _ Hs Ha'), <- Hq.
  - rewrite (on_requestSync_run _ _ sid _ _ _ Hr Ha), Hp. fold now. rewrite Hq.
    eexists. reflexivity.
  - exact Hup.
  - intros Hle. unfold q. rewrite <- (Qplus_0_r (currentTime a)) at 2.
    rewrite Qplus_le_r. unfold Qle, Qdiv. simpl. lia.
  - intros Hle Hpos. by apply (Qle_trans _ (currentTime a)); [|apply Hup].
Qed.

Lemma extrapolation_while_playing_witness :
  let a := mkPlaybackState true 5 10000 in
  let env := frozen_env 0 "u" in
  let q := (5 + inject_Z (0 - 10000) / 1000)%Q in
  (SyncService.getCurrentTime "r" env (room_world a)).1 = Returned q /\
  (exists serverTime,
      outbox (on_requestSync "s1" "r" env (room_world a)).2
        = [(to_socket "s1", syncState true q serverTime)]) /\
  (10000 <= 0 -> (5 <= q)%Q) /\
  (0 <= 10000 -> (q <= 5)%Q) /\
  (10000 <= 0 -> (0 <= 5)%Q -> (0 <= q)%Q).
Proof.
  exact (extrapolation_while_playing (frozen_env 0 "u")
           (room_world (mkPlaybackState true 5 10000)) "s1" "r"
           (mkRoom "r" "Room r" "m1" 0 [] 0%nat [] [])
           (mkSyncRoom "r" 0%nat 2%Q 0) (mkPlaybackState true 5 10000)
           eq_refl eq_refl eq_refl eq_refl eq_refl).
Defined.

(** ** Transport controls *)

Lemma with_heap_insert_insert (l : loc) (x y : PlaybackState) (w : World) :
  with_heap (insert l y) (with_heap (insert l x) w) = with_heap (insert l y) w.
Proof. unfold with_heap. cbn. by rewrite insert_insert_eq. Qed.

Lemma with_heap_lookup (l : loc) (x : PlaybackState) (w : World) :
  heap (with_heap (insert l x) w) !! l = Some x.
Proof. cbn. apply lookup_insert_eq. Qed.

(** The three assignments of a handler, run one after the other. *)
Ltac run_assign H :=
  rewrite ?bind_run;
  erewrite assign_run by first [ exact H | cbn; apply lookup_insert_eq ];
  rewrite ?with_heap_insert_insert.

Lemma on_play_run (env : Env) (w : World) (sid roomId : string) (position : Q)
    (room : Room) (old : PlaybackState) :
  rooms w !! roomId = Some room ->
  heap w !! playbackState room = Some old ->
  on_play sid roomId position env w =
    (Returned tt,
     with_outbox (fun o => (o ++ [(to_room_except roomId sid,
                     syncPlay position (now_at env (S (clock_reads w))))])%list)
       (tick_clock (tick_clock (with_heap (insert (playbackState room)
          (mkPlaybackState true position (now_at env (clock_reads w)))) w)))).
Proof.
  intros Hr Ha. unfold on_play, rooms_get. rewrite !bind_run. cbn. rewrite Hr.
  run_assign Ha. run_assign Ha. rewrite bind_run. cbn. run_assign Ha.
  unfold with_outbox, tick_clock, with_heap. cbn. by rewrite insert_insert_eq.
Qed.

Lemma on_pause_run (env : Env) (w : World) (sid roomId : string) (position : Q)
    (room : Room) (old : PlaybackState) :
  rooms w !! roomId = Some room ->
  heap w !! playbackState room = Some old ->
  on_pause sid roomId position env w =
    (Returned tt,
     with_outbox (fun o => (o ++ [(to_room_except roomId sid,
                     syncPause position (now_at env (S (clock_reads w))))])%list)
       (tick_clock (tick_clock (with_heap (insert (playbackState room)
          (mkPlaybackState false position (now_at env (clock_reads w)))) w)))).
Proof.
  intros Hr Ha. unfold on_pause, rooms_get. rewrite !bind_run. cbn. rewrite Hr.
  run_assign Ha. run_assign Ha. rewrite bind_run. cbn. run_assign Ha.
  unfold with_outbox, tick_clock, with_heap. cbn. by rewrite insert_insert_eq.
Qed.

Lemma on_seek_run (env : Env) (w : World) (sid roomId : string) (position : Q)
    (room : Room) (old : PlaybackState) :
  rooms w !! roomId = Some room ->
  heap w !! playbackState room = Some old ->
  on_seek sid roomId position env w =
    (Returned tt,
     with_outbox (fun o => (o ++ [(to_room_except roomId sid,
                     syncSeek position (now_at env (S (clock_reads w))))])%list)
       (tick_clock (tick_clock (with_heap (insert (playbackState room)
          (mkPlaybackState (isPlaying old) position (now_at env (clock_reads w)))) w)))).
Proof.
  intros Hr Ha. unfold on_seek, rooms_get. rewrite !bind_run. cbn. rewrite Hr.
  run_assign Ha. rewrite bind_run. cbn. run_assign Ha.
  unfold with_outbox, tick_clock, with_heap. cbn. by rewrite insert_insert_eq.
Qed.

(** C6, counterexample. Under a clock that advances by one millisecond at
    every reading, [play] stores the reading 4002 as [lastUpdate] and sends
    the next reading, 4003, as [serverTime]: no [now] is both the time stamp
    of the stored state and the [serverTime] of the broadcast. *)
Lemma play_clock_readings_counterexample :
  let env := linear_env 4000 1 "u" in
  let w' := (on_play "s1" "r" 12 env watch_world).2 in
  rooms watch_world !! "r" = Some watch_room /\
  (on_play "s1" "r" 12 env watch_world).1 = Returned tt /\
  heap w' !! playbackState watch_room = Some (mkPlaybackState true 12 4002) /\
  outbox w'
    = (outbox watch_world ++ [(to_room_except "r" "s1", syncPlay 12 4003)])%list /\
  ~ exists now : Z,
      heap w' !! playbackState watch_room = Some (mkPlaybackState true 12 now) /\
      outbox w'
        = (outbox watch_world ++ [(to_room_except "r" "s1", syncPlay 12 now)])%list.
Proof.
  intros env w'.
  assert (Hheap : heap w' !! playbackState watch_room
                  = Some (mkPlaybackState true 12 4002)) by (vm_compute; reflexivity).
  assert (Hout : outbox w'
                 = (outbox watch_world
                    ++ [(to_room_except "r" "s1", syncPlay 12 4003)])%list)
    by (vm_compute; reflexivity).
  split_and!; [vm_compute; reflexivity | vm_compute; reflexivity
              | exact Hheap | exact Hout |].
  intros (now & H1 & H2). rewrite Hheap in H1. rewrite Hout in H2.
  apply app_inv_head in H2. injection H1 as H1. injection H2 as H2. lia.
Qed.

(** C6, amended. On an existing room, [play] with position [position] returns
    normally and leaves the room's playback state equal to
    [{isPlaying: true, currentTime: position, lastUpdate: t0}] whatever it was
    before, [t0] being the first clock reading of the handler: the handler is
    one step of the event loop, so no state with only some of the three
    fields replaced is ever seen by another handler. It emits exactly one
    message, [syncPlay{currentTime: position, serverTime: t1}], [t1] being
    the handler's second clock reading, which reaches every socket in the
    Socket.IO room other than the originator. *)
Theorem play_sets_anchor_and_broadcasts (env : Env) (w : World) (sid roomId : string)
    (position : Q) (room : Room) (old : PlaybackState) :
  rooms w !! roomId = Some room ->
  heap w !! playbackState room = Some old ->
  let t0 := now_at env (clock_reads w) in
  let t1 := now_at env (S (clock_reads w)) in
  exists w',
    on_play sid roomId position env w = (Returned tt, w') /\
    heap w' = <[playbackState room := mkPlaybackState true position t0]> (heap w) /\
    heap w' !! playbackState room = Some (mkPlaybackState true position t0) /\
    rooms w' = rooms w /\ sync_rooms w' = sync_rooms w /\
    sockets w' = sockets w /\ adapter w' = adapter w /\
    clock_reads w' = S (S (clock_reads w)) /\
    outbox w' = (outbox w ++ [(to_room_except roomId sid, syncPlay position t1)])%list /\
    forall s : string,
      s ∈ recipients (adapter w') (to_room_except roomId sid)
      <-> s ∈ members (adapter w) roomId /\ s ≠ sid.
Proof.
  intros Hr Ha t0 t1. eexists. split; [apply (on_play_run _ _ _ _ _ _ _ Hr Ha)|].
  cbn. split_and!; try reflexivity.
  - apply lookup_insert_eq.
  - intros s. rewrite elem_of_difference, elem_of_singleton. done.
Qed.

Lemma play_sets_anchor_and_broadcasts_witness :
  exists w',
    on_play "s1" "r" 12 (linear_env 4000 1 "u") watch_world = (Returned tt, w') /\
    heap w' !! 0%nat = Some (mkPlaybackState true 12 4002) /\
    outbox w' = (outbox watch_world
                 ++ [(to_room_except "r" "s1", syncPlay 12 4003)])%list /\
    "s2" ∈ recipients (adapter w') (to_room_except "r" "s1") /\
    "s1" ∉ recipients (adapter w') (to_room_except "r" "s1").
Proof.
  edestruct (play_sets_anchor_and_broadcasts (linear_env 4000 1 "u") watch_world
               "s1" "r" 12)
    as (w' & Hrun & _ & Hheap & _ & _ & _ & _ & _ & Hout & Hto);
    [vm_compute; reflexivity .. |].
  exists w'. split_and!; [exact Hrun | exact Hheap | exact Hout | |].
  - apply Hto. split; [by vm_compute | discriminate].
  - intros H. apply Hto in H. by destruct H.
Defined.

(** ** The insertion-ordered map *)

Section JsMapFacts.
Context {V : Type}.
Implicit Types (m : list (string * V)) (k : string) (v : V).

Lemma jsmap_get_set_eq k v m : JsMap.get k (JsMap.set k v m) = Some v.
Proof.
  induction m as [|[k' v'] m IH]; simpl.
  - by rewrite decide_True.
  - destruct (decide (k = k')) as [->|Hne]; simpl.
    + by rewrite decide_True.
    + by rewrite decide_False.
Qed.

Lemma jsmap_get_set_ne k k' v m :
  k ≠ k' -> JsMap.get k' (JsMap.set k v m) = JsMap.get k' m.
Proof.
  intros Hne. induction m as [|[k0 v0] m IH]; simpl.
  - by rewrite decide_False.
  - destruct (decide (k = k0)) as [->|Hne0]; simpl.
    + by rewrite !decide_False.
    + by rewrite IH.
Qed.

Lemma jsmap_get_delete_eq k m : JsMap.get k (JsMap.delete k m) = None.
Proof.
  induction m as [|[k' v'] m IH]; simpl; [done|].
  destruct (decide (k = k')) as [->|Hne]; simpl; [done|].
  by rewrite decide_False.
Qed.

Lemma jsmap_get_delete_ne k k' m :
  k ≠ k' -> JsMap.get k' (JsMap.delete k m) = JsMap.get k' m.
Proof.
  intros Hne. induction m as [|[k0 v0] m IH]; simpl; [done|].
  destruct (decide (k = k0)) as [->|Hne0]; simpl.
  - by rewrite decide_False.
  - by rewrite IH.
Qed.

Lemma jsmap_get_None k m : JsMap.get k m = None <-> k ∉ JsMap.keys m.
Proof.
  unfold JsMap.keys. induction m as [|[k' v'] m IH]; simpl.
  - split; [intros _; apply not_elem_of_nil | done].
  - rewrite not_elem_of_cons. destruct (decide (k = k')) as [->|Hne].
    + split; [done | by intros [? _]].
    + rewrite IH. tauto.
Qed.

Lemma jsmap_keys_set k v m :
  JsMap.keys (JsMap.set k v m)
  = if decide (k ∈ JsMap.keys m) then JsMap.keys m else (JsMap.keys m ++ [k])%list.
Proof.
  unfold JsMap.keys. induction m as [|[k' v'] m IH]; cbn [JsMap.set].
  - rewrite decide_False; [done | apply not_elem_of_nil].
  - destruct (decide (k = k')) as [->|Hne]; rewrite !fmap_cons; cbn [fst].
    + rewrite decide_True; [done | left].
    + rewrite IH. destruct (decide (k ∈ m.*1)) as [Hin|Hnin].
      * rewrite decide_True; [done | by right].
      * rewrite decide_False; [done | by rewrite not_elem_of_cons].
Qed.

Lemma jsmap_set_NoDup k v m :
  NoDup (JsMap.keys m) -> NoDup (JsMap.keys (JsMap.set k v m)).
Proof.
  intros Hnd. rewrite jsmap_keys_set. case_decide; [done|].
  apply NoDup_app. split_and!; [done | | apply NoDup_singleton].
  intros x Hx Hk. apply list_elem_of_singleton in Hk. by subst.
Qed.

Lemma jsmap_keys_delete k m :
  JsMap.keys (JsMap.delete k m) = filter (fun k' => k ≠ k') (JsMap.keys m).
Proof.
  unfold JsMap.keys. induction m as [|[k' v'] m IH]; [done|].
  cbn [JsMap.delete]. rewrite fmap_cons. cbn [fst].
  destruct (decide (k = k')) as [->|Hne].
  - rewrite filter_cons_False by (intros H; by apply H). done.
  - rewrite filter_cons_True by done. by rewrite fmap_cons, IH.
Qed.

Lemma jsmap_delete_NoDup k m :
  NoDup (JsMap.keys m) -> NoDup (JsMap.keys (JsMap.delete k m)).
Proof. rewrite jsmap_keys_delete. apply NoDup_filter. Qed.

(** With distinct keys, the entry met while iterating is the one [get]
    finds. *)
Lemma jsmap_get_elem_of k v m :
  NoDup (JsMap.keys m) -> (k, v) ∈ m -> JsMap.get k m = Some v.
Proof.
  unfold JsMap.keys. induction m as [|[k' v'] m IH]; simpl.
  - intros _ Hin. by apply not_elem_of_nil in Hin.
  - intros Hnd Hin. apply NoDup_cons in Hnd as [Hk' Hnd].
    apply elem_of_cons in Hin as [Heq|Hin].
    + injection Heq as -> ->. by rewrite decide_True.
    + rewrite decide_False; [by apply IH|].
      intros ->. apply Hk'. apply list_elem_of_fmap. by exists (k', v).
Qed.
End JsMapFacts.

Lemma updatePlaybackState_run (env : Env) (w : World) (roomId : string)
    (state : PlaybackPatch) (sr : SyncRoom) (a : PlaybackState) :
  JsMap.get roomId (sync_rooms w) = Some sr ->
  heap w !! sync_playbackState sr = Some a ->
  let l := fresh (dom (heap w)) in
  SyncService.updatePlaybackState roomId state env w =
    (Returned tt,
     with_sync_rooms (JsMap.set roomId
         (mkSyncRoom (sync_id sr) l (syncTolerance sr) (lastSyncBroadcast sr)))
       (with_heap (insert l (mkPlaybackState
                     (default (isPlaying a) (patch_isPlaying state))
                     (default (currentTime a) (patch_currentTime state))
                     (now_at env (clock_reads w))))
          (tick_clock w))).
Proof.
  intros Hr Ha. unfold SyncService.updatePlaybackState, SyncService.rooms_get.
  rewrite !bind_run. cbn. rewrite Hr, bind_run, (load_run _ _ _ _ Ha). reflexivity.
Qed.

(** C3, counterexample. The room's state was stamped at 1000 ms; a [play]
    and a [seek] handled while the clock reads 5 ms, and an
    [updatePlaybackState] at the same reading, are all applied. *)
Lemma stale_update_counterexample :
  let stored := mkPlaybackState false 0 1000 in
  let w := room_world stored in
  let env := frozen_env 5 "u" in
  heap w !! 0%nat = Some stored /\
  now_at env (clock_reads w) < lastUpdate stored /\
  heap (on_play "s1" "r" 7 env w).2 !! 0%nat = Some (mkPlaybackState true 7 5) /\
  heap (on_seek "s1" "r" 7 env w).2 !! 0%nat = Some (mkPlaybackState false 7 5) /\
  (let w' := (SyncService.updatePlaybackState "r" (mkPlaybackPatch (Some true) None) env w).2 in
   exists sr, JsMap.get "r" (sync_rooms w') = Some sr /\
     heap w' !! sync_playbackState sr = Some (mkPlaybackState true 0 5)).
Proof.
  cbv beta iota zeta. split_and!; try (vm_compute; reflexivity).
  eexists. split; vm_compute; reflexivity.
Qed.

(** C3, amended. An anchor update is applied whatever its timestamp. On an
    existing room, [play], [pause] and [seek] handled while the clock reads
    [now] leave the stored playback state equal to
    [{isPlaying: true / false / as before, currentTime: position,
    lastUpdate: now}], and [updatePlaybackState] stores the merge of the
    supplied fields with [lastUpdate: now]; when [now] is strictly earlier
    than the stored [lastUpdate] the stored state therefore always changes. *)
Theorem anchor_updates_always_applied (env : Env) (w : World) (sid roomId : string)
    (position : Q) (room : Room) (sr : SyncRoom) (old : PlaybackState) :
  rooms w !! roomId = Some room ->
  heap w !! playbackState room = Some old ->
  JsMap.get roomId (sync_rooms w) = Some sr ->
  sync_playbackState sr = playbackState room ->
  let now := now_at env (clock_reads w) in
  let after (h : M unit) := heap (h env w).2 !! playbackState room in
  after (on_play sid roomId position) = Some (mkPlaybackState true position now) /\
  after (on_pause sid roomId position) = Some (mkPlaybackState false position now) /\
  after (on_seek sid roomId position)
    = Some (mkPlaybackState (isPlaying old) position now) /\
  (forall state : PlaybackPatch,
      let w' := (SyncService.updatePlaybackState roomId state env w).2 in
      exists sr', JsMap.get roomId (sync_rooms w') = Some sr' /\
        heap w' !! sync_playbackState sr'
        = Some (mkPlaybackState (default (isPlaying old) (patch_isPlaying state))
                                (default (currentTime old) (patch_currentTime state))
                                now)) /\
  (now < lastUpdate old ->
   after (on_play sid roomId position) ≠ Some old /\
   after (on_pause sid roomId position) ≠ Some old /\
   after (on_seek sid roomId position) ≠ Some old).
Proof.
  intros Hr Ha Hs Hl now after.
  assert (Hplay : after (on_play sid roomId position)
                  = Some (mkPlaybackState true position now)).
  { unfold after. rewrite (on_play_run _ _ sid _ position _ _ Hr Ha).
    apply lookup_insert_eq. }
  assert (Hpause : after (on_pause sid roomId position)
                   = Some (mkPlaybackState false position now)).
  { unfold after. rewrite (on_pause_run _ _ sid _ position _ _ Hr Ha).
    apply lookup_insert_eq. }
  assert (Hseek : after (on_seek sid roomId position)
                  = Some (mkPlaybackState (isPlaying old) position now)).
  { unfold after. rewrite (on_seek_run _ _ sid _ position _ _ Hr Ha).
    apply lookup_insert_eq. }
  split_and!; [exact Hplay | exact Hpause | exact Hseek | |].
  - intros state. rewrite <- Hl in Ha.
    rewrite (updatePlaybackState_run _ _ _ state _ _ Hs Ha). cbn.
    eexists. split; [apply jsmap_get_set_eq|]. cbn. apply lookup_insert_eq.
  - intros Hlt. rewrite Hplay, Hpause, Hseek.
    split_and!; intros [= Heq]; rewrite <- Heq in Hlt; cbn in Hlt; lia.
Qed.

Lemma anchor_updates_always_applied_witness :
  let stored := mkPlaybackState false 0 1000 in
  let w := room_world stored in
  let env := frozen_env 5 "u" in
  heap (on_play "s1" "r" 7 env w).2 !! 0%nat = Some (mkPlaybackState true 7 5) /\
  heap (on_pause "s1" "r" 7 env w).2 !! 0%nat = Some (mkPlaybackState false 7 5) /\
  heap (on_seek "s1" "r" 7 env w).2 !! 0%nat = Some (mkPlaybackState false 7 5) /\
  heap (on_play "s1" "r" 7 env w).2 !! 0%nat ≠ Some stored.
Proof.
  intros stored w env.
  destruct (anchor_updates_always_applied env w "s1" "r" 7
              (mkRoom "r" "Room r" "m1" 0 [] 0%nat [] [])
              (mkSyncRoom "r" 0%nat 2%Q 0) stored eq_refl eq_refl eq_refl eq_refl)
    as (Hplay & Hpause & Hseek & _ & Hstale).
  split_and!; [exact Hplay | exact Hpause | exact Hseek |].
  apply Hstale. reflexivity.
Defined.

(** C4. On any existing room, the events [play] at position 0, [seek] to 50,
    [pause] at 52 and [requestSync], handled in this order whatever the clock
    reads at each of them (so also at t = 0, 1, 2, 3), all return normally;
    the room is left paused at 52 and the last event sends one message, to
    the requester alone: [syncState] with [isPlaying: false] and
    [currentTime: 52]. *)
Theorem ordering_play_seek_pause_sync (env : Env) (w : World)
    (s0 s1 s2 s3 roomId : string) (room : Room) (old : PlaybackState) :
  rooms w !! roomId = Some room ->
  heap w !! playbackState room = Some old ->
  let t (k : nat) := now_at env (k + clock_reads w) in
  exists w' : World,
    handle_all [(s0, play roomId 0); (s1, seek roomId 50);
                (s2, pause roomId 52); (s3, requestSync roomId)] env w
      = (Returned tt, w') /\
    heap w' !! playbackState room = Some (mkPlaybackState false 52 (t 4%nat)) /\
    outbox w' = (outbox w ++
      [(to_room_except roomId s0, syncPlay 0 (t 1%nat));
       (to_room_except roomId s1, syncSeek 50 (t 3%nat));
       (to_room_except roomId s2, syncPause 52 (t 5%nat));
       (to_socket s3, syncState false 52 (t 6%nat))])%list /\
    recipients (adapter w') (to_socket s3) = {[ s3 ]}.
Proof.
  intros Hr Ha t. unfold handle_all, handle.
  rewrite bind_run, (on_play_run _ _ _ _ _ _ _ Hr Ha).
  rewrite bind_run.
  erewrite on_seek_run by (cbn; first [exact Hr | apply lookup_insert_eq]).
  rewrite bind_run.
  erewrite on_pause_run by (cbn; first [exact Hr | apply lookup_insert_eq]).
  rewrite bind_run.
  erewrite on_requestSync_run by (cbn; first [exact Hr | apply lookup_insert_eq]).
  cbn. eexists. split; [reflexivity|]. cbn. split_and!.
  - rewrite !insert_insert_eq. apply lookup_insert_eq.
  - rewrite <- !app_assoc. reflexivity.
  - reflexivity.
Qed.

Lemma ordering_play_seek_pause_sync_witness :
  exists w' : World,
    handle_all [("s1", play "r" 0); ("s1", seek "r" 50);
                ("s1", pause "r" 52); ("s2", requestSync "r")]
               seconds_env (room_world (mkPlaybackState false 0 0))
      = (Returned tt, w') /\
    heap w' !! 0%nat = Some (mkPlaybackState false 52 2000) /\
    outbox w' =
      [(to_room_except "r" "s1", syncPlay 0 0);
       (to_room_except "r" "s1", syncSeek 50 1000);
       (to_room_except "r" "s1", syncPause 52 2000);
       (to_socket "s2", syncState false 52 3000)] /\
    recipients (adapter w') (to_socket "s2") = {[ "s2" ]}.
Proof.
  exact (ordering_play_seek_pause_sync seconds_env
           (room_world (mkPlaybackState false 0 0)) "s1" "s1" "s1" "s2" "r"
           (mkRoom "r" "Room r" "m1" 0 [] 0%nat [] [])
           (mkPlaybackState false 0 0) eq_refl eq_refl).
Defined.

(** ** Events for a room that does not exist *)

(** C9, counterexample. No room ["nope"] exists; [play], [pause], [seek],
    [requestSync], [chatMessage] and [reaction] for it return without sending
    anything, so the originator gets no "room not found" notice. *)
Lemma unknown_room_notice_counterexample :
  let env := frozen_env 0 "u" in
  rooms empty_world !! "nope" = None /\
  outbox empty_world = [] /\
  handle "s1" (play "nope" 0) env empty_world = (Returned tt, empty_world) /\
  handle "s1" (pause "nope" 0) env empty_world = (Returned tt, empty_world) /\
  handle "s1" (seek "nope" 0) env empty_world = (Returned tt, empty_world) /\
  handle "s1" (requestSync "nope") env empty_world = (Returned tt, empty_world) /\
  handle "s1" (chatMessage "nope" (Some "hi")) env empty_world
    = (Returned tt, empty_world) /\
  handle "s1" (reaction "nope" "+1") env empty_world = (Returned tt, empty_world).
Proof. cbv beta iota zeta. split_and!; reflexivity. Qed.

(** C9, amended. An event that names a room absent from the registry returns
    normally and changes no room, playback state, socket property or
    Socket.IO room. For [joinRoom] one message is emitted, the error
    "Room not found", addressed to the originator's socket alone; for [play],
    [pause], [seek], [requestSync], [chatMessage] and [reaction] nothing is
    emitted to anyone. *)
Theorem unknown_room_event_ignored (env : Env) (w : World) (sid roomId : string)
    (e : ClientEvent) :
  event_roomId e = Some roomId ->
  rooms w !! roomId = None ->
  exists w',
    handle sid e env w = (Returned tt, w') /\
    heap w' = heap w /\ rooms w' = rooms w /\ sync_rooms w' = sync_rooms w /\
    sockets w' = sockets w /\ adapter w' = adapter w /\
    outbox w' = (outbox w ++
      match e with
      | joinRoom _ _ => [(to_socket sid, error_event "Room not found")]
      | _ => []
      end)%list /\
    recipients (adapter w') (to_socket sid) = {[ sid ]}.
Proof.
  intros He Hr.
  destruct e; simplify_eq/=;
    [ unfold on_joinRoom | unfold on_play | unfold on_pause | unfold on_seek
    | unfold on_requestSync | unfold on_chatMessage | unfold on_reaction ];
    unfold rooms_get; rewrite !bind_run; cbn; rewrite Hr;
    eexists; (split; [reflexivity|]); cbn; rewrite ?app_nil_r; done.
Qed.

Lemma unknown_room_event_ignored_witness :
  exists w',
    handle "s1" (joinRoom "nope" (Some "ann")) (frozen_env 0 "u") watch_world
      = (Returned tt, w') /\
    rooms w' = rooms watch_world /\
    outbox w' = (outbox watch_world
                 ++ [(to_socket "s1", error_event "Room not found")])%list.
Proof.
  destruct (unknown_room_event_ignored (frozen_env 0 "u") watch_world "s1" "nope"
              (joinRoom "nope" (Some "ann")) eq_refl eq_refl)
    as (w' & Hrun & _ & Hrooms & _ & _ & _ & Hout & _).
  exists w'. split_and!; [exact Hrun | exact Hrooms | exact Hout].
Defined.

(** ** Leaving a room *)

Lemma filter_filter_same {A : Type} (P : A -> Prop) `{!forall x, Decision (P x)}
    (l : list A) :
  filter P (filter P l) = filter P l.
Proof.
  induction l as [|x l IH]; [done|].
  destruct (decide (P x)) as [HP|HP].
  - rewrite (filter_cons_True _ _ _ HP), (filter_cons_True _ _ _ HP). by rewrite IH.
  - by rewrite (filter_cons_False _ _ _ HP).
Qed.

Lemma adapter_leave_twice (a : gmap string (gset string)) (r sid : string) :
  let a1 := <[r := members a r ∖ {[sid]}]> a in
  <[r := members a1 r ∖ {[sid]}]> a1 = a1.
Proof.
  intros a1. apply insert_id. unfold a1, members.
  rewrite !lookup_insert_eq. simpl. f_equal.
  apply set_eq. intros x. rewrite !elem_of_difference. tauto.
Qed.

(** C7. [handleLeaveRoom] always returns normally. Run a second time right
    after the first, it leaves every room (hence every roster and every
    viewer count, which is the roster's length), every socket property and
    every Socket.IO room as the first run left them; the roster of the
    socket's room is the old roster without the entries of this socket. For a
    socket that never joined, the first run already changes nothing and emits
    nothing. *)
Theorem leave_idempotent (env : Env) (w : World) (sid : string) :
  exists w1 w2,
    handleLeaveRoom sid env w = (Returned tt, w1) /\
    handleLeaveRoom sid env w1 = (Returned tt, w2) /\
    rooms w2 = rooms w1 /\ heap w2 = heap w1 /\ sync_rooms w2 = sync_rooms w1 /\
    sockets w2 = sockets w1 /\ adapter w2 = adapter w1 /\
    (forall (roomId : string) (room : Room),
        socket_roomId (props_of w sid) = Some roomId -> truthy roomId = true ->
        rooms w !! roomId = Some room ->
        viewers <$> rooms w2 !! roomId
        = Some (filter (fun v => viewer_id v ≠ sid) (viewers room))) /\
    (socket_roomId (props_of w sid) = None -> w1 = w /\ w2 = w).
Proof.
  unfold handleLeaveRoom, get_socket_roomId, get_socket_username, rooms_get.
  rewrite !bind_run. cbn.
  destruct (socket_roomId (props_of w sid)) as [r|] eqn:Hsock; cbn.
  2:{ exists w, w. rewrite ?bind_run. cbn. rewrite ?Hsock. by split_and!. }
  destruct (truthy r) eqn:Ht; cbn.
  2:{ exists w, w. rewrite ?bind_run. cbn. rewrite ?Hsock, ?Ht. split_and!; try done.
      intros roomId room [= <-]. congruence. }
  rewrite !bind_run. cbn.
  destruct (rooms w !! r) as [room|] eqn:Hroom; cbn.
  - eexists. eexists. split; [reflexivity|].
    rewrite !bind_run. cbn. unfold props_of at 1. cbn. fold (props_of w sid).
    rewrite Hsock. cbn. rewrite Ht. rewrite !bind_run. cbn.
    rewrite lookup_insert_eq. cbn.
    split; [reflexivity|]. cbn. rewrite filter_filter_same.
    split_and!; try done.
    + by rewrite insert_insert_eq.
    + apply adapter_leave_twice.
    + intros roomId room' [= <-] _ Hr'. rewrite lookup_insert_eq. cbn. congruence.
  - eexists. eexists. split; [reflexivity|].
    rewrite !bind_run. cbn. unfold props_of at 1. cbn. fold (props_of w sid).
    rewrite Hsock. cbn. rewrite Ht. rewrite !bind_run. cbn. rewrite Hroom. cbn.
    split; [reflexivity|]. cbn. split_and!; try done.
    + apply adapter_leave_twice.
    + intros roomId room' [= <-] _ Hr'. congruence.
Qed.

Lemma leave_idempotent_witness :
  let env := frozen_env 0 "u" in
  exists w1 w2,
    handleLeaveRoom "s1" env watch_world = (Returned tt, w1) /\
    handleLeaveRoom "s1" env w1 = (Returned tt, w2) /\
    rooms w2 = rooms w1 /\
    viewers <$> rooms w2 !! "r" = Some [mkViewer "s2" "bob" 0] /\
    (exists v1 v2, handleLeaveRoom "s9" env watch_world = (Returned tt, v1) /\
                   handleLeaveRoom "s9" env v1 = (Returned tt, v2) /\
                   v1 = watch_world /\ v2 = watch_world).
Proof.
  intros env.
  destruct (leave_idempotent env watch_world "s1")
    as (w1 & w2 & H1 & H2 & Hrooms & _ & _ & _ & _ & Hroster & _).
  destruct (leave_idempotent env watch_world "s9")
    as (v1 & v2 & G1 & G2 & _ & _ & _ & _ & _ & _ & Hnone).
  exists w1, w2. split_and!; [exact H1 | exact H2 | exact Hrooms | |].
  - exact (Hroster "r" watch_room eq_refl eq_refl eq_refl).
  - exists v1, v2. destruct (Hnone eq_refl) as [E1 E2].
    split_and!; [exact G1 | exact G2 | exact E1 | exact E2].
Defined.

(** ** Chat history *)

Section SliceLast.
Context {A : Type}.
Implicit Types (l k : list A) (n : nat).

Lemma slice_last_short n l : (length l <= n)%nat -> slice_last n l = l.
Proof.
  intros H. unfold slice_last. by replace (length l - n)%nat with 0%nat by lia.
Qed.

Lemma slice_last_length n l : length (slice_last n l) = (length l `min` n)%nat.
Proof. unfold slice_last. rewrite length_drop. lia. Qed.

Lemma slice_last_suffix n l : slice_last n l `suffix_of` l.
Proof. apply suffix_drop. Qed.

(** Trimming after every append keeps what one trim at the end keeps. *)
Lemma slice_last_app_slice n l k :
  slice_last n (slice_last n l ++ k) = slice_last n (l ++ k).
Proof.
  unfold slice_last.
  rewrite <- (drop_app_le l k) by lia.
  rewrite drop_drop. f_equal. rewrite length_drop, !length_app. lia.
Qed.

(** Once [n] or more items were appended, only appended items remain. *)
Lemma slice_last_app_long n l k :
  (n <= length k)%nat -> slice_last n (l ++ k) = slice_last n k.
Proof.
  intros H. unfold slice_last. rewrite drop_app_ge by (rewrite length_app; lia).
  f_equal. rewrite length_app. lia.
Qed.
End SliceLast.

Lemma on_chatMessage_run (env : Env) (w : World) (sid roomId text : string)
    (room : Room) :
  rooms w !! roomId = Some room ->
  let m := mkChatMessage (uuid_at env (uuid_reads w)) (socket_username (props_of w sid))
                         (substring 0 500 text) (now_at env (clock_reads w)) in
  on_chatMessage sid roomId (Some text) env w =
    (Returned tt,
     with_outbox (fun o => (o ++ [(to_room roomId, newMessage m)])%list)
       (with_rooms (insert roomId
            (with_chat (slice_last 200 (chat room ++ [m])) room))
          (tick_clock (tick_uuid w)))).
Proof.
  intros Hr m. subst m. unfold on_chatMessage, rooms_get, get_socket_username.
  rewrite !bind_run. cbn. rewrite Hr. repeat (rewrite bind_run; cbn).
  change (props_of (tick_uuid w) sid) with (props_of w sid). case_decide as Hlen.
  - reflexivity.
  - rewrite slice_last_short by lia. reflexivity.
Qed.

Lemma sent_messages_shift (env : Env) (w w1 : World) (k : nat)
    (evs : list (string * string)) :
  sockets w1 = sockets w ->
  clock_reads w1 = S (clock_reads w) ->
  uuid_reads w1 = S (uuid_reads w) ->
  sent_messages env w1 k evs = sent_messages env w (S k) evs.
Proof.
  intros Hs Hc Hu. revert k. induction evs as [|[sid text] evs IH]; intros k; [done|].
  cbn. rewrite IH. unfold props_of. rewrite Hs, Hc, Hu.
  by rewrite !Nat.add_succ_r.
Qed.

Lemma sent_messages_length (env : Env) (w : World) (k : nat)
    (evs : list (string * string)) :
  length (sent_messages env w k evs) = length evs.
Proof.
  revert k. induction evs as [|[sid text] evs IH]; intros k; [done|].
  cbn. by rewrite IH.
Qed.

Lemma with_chat_same (room : Room) : with_chat (chat room) room = room.
Proof. by destruct room. Qed.

Lemma with_chat_with_chat (c c1 : list ChatMessage) (room : Room) :
  with_chat c (with_chat c1 room) = with_chat c room.
Proof. reflexivity. Qed.

Lemma chat_with_chat (c : list ChatMessage) (room : Room) :
  chat (with_chat c room) = c.
Proof. reflexivity. Qed.

Lemma chat_events_run (env : Env) (roomId : string) (evs : list (string * string)) :
  forall (w : World) (room : Room),
    rooms w !! roomId = Some room ->
    (length (chat room) <= 200)%nat ->
    exists w',
      handle_all (chat_events roomId evs) env w = (Returned tt, w') /\
      rooms w' !! roomId
      = Some (with_chat (slice_last 200 (chat room ++ sent_messages env w 0 evs)) room).
Proof.
  induction evs as [|[sid text] rest IH]; intros w room Hr Hlen.
  - exists w. split; [reflexivity|]. cbn.
    by rewrite app_nil_r, slice_last_short, with_chat_same.
  - cbn [chat_events map handle_all fst snd handle]. rewrite bind_run.
    rewrite (on_chatMessage_run _ _ _ _ _ _ Hr).
    set (m := mkChatMessage _ _ _ _). set (w1 := with_outbox _ _).
    set (room1 := with_chat (slice_last 200 (chat room ++ [m])) room).
    destruct (IH w1 room1) as (w' & Hrun & Hroom).
    { cbn. apply lookup_insert_eq. }
    { cbn. rewrite slice_last_length. lia. }
    exists w'. split; [exact Hrun|]. rewrite Hroom.
    rewrite (sent_messages_shift env w w1) by reflexivity.
    unfold room1. rewrite with_chat_with_chat, chat_with_chat.
    rewrite slice_last_app_slice, <- app_assoc. reflexivity.
Qed.

(** C8. On an existing room, after one or more [chatMessage] events the
    room's chat is the last 200 items of the old chat followed by the new
    records in arrival order, so it holds at most 200 records after every
    single event; after more than 200 events it is exactly the 200 most
    recent of the new records, the older ones having been dropped from the
    front. *)
Theorem chat_history_bounded (env : Env) (w : World) (roomId : string)
    (room : Room) (evs : list (string * string)) :
  rooms w !! roomId = Some room ->
  evs ≠ [] ->
  let sent := sent_messages env w 0 evs in
  exists (w' : World) (room' : Room),
    handle_all (chat_events roomId evs) env w = (Returned tt, w') /\
    rooms w' !! roomId = Some room' /\
    chat room' = slice_last 200 (chat room ++ sent) /\
    chat room' `suffix_of` (chat room ++ sent)%list /\
    (length (chat room') <= 200)%nat /\
    ((200 < length evs)%nat ->
       chat room' = slice_last 200 sent /\ length (chat room') = 200%nat /\
       chat room' = drop (length evs - 200) sent).
Proof.
  intros Hr Hne sent. destruct evs as [|[sid text] rest]; [done|].
  cbn [chat_events map handle_all fst snd handle]. rewrite bind_run.
  rewrite (on_chatMessage_run _ _ _ _ _ _ Hr).
  set (m := mkChatMessage _ _ _ _). set (w1 := with_outbox _ _).
  set (room1 := with_chat (slice_last 200 (chat room ++ [m])) room).
  destruct (chat_events_run env roomId rest w1 room1) as (w' & Hrun & Hroom).
  { cbn. apply lookup_insert_eq. }
  { cbn. rewrite slice_last_length. lia. }
  assert (Hchat : slice_last 200 (chat room1 ++ sent_messages env w1 0 rest)
                  = slice_last 200 (chat room ++ sent)).
  { rewrite (sent_messages_shift env w w1) by reflexivity.
    unfold room1. rewrite chat_with_chat.
    rewrite slice_last_app_slice, <- app_assoc. reflexivity. }
  eexists w', _. split; [exact Hrun|]. split; [exact Hroom|].
  cbn [chat with_chat]. rewrite Hchat.
  assert (Hsent : length sent = length ((sid, text) :: rest))
    by apply sent_messages_length.
  split_and!.
  - reflexivity.
  - apply slice_last_suffix.
  - rewrite slice_last_length. lia.
  - intros Hlong. rewrite slice_last_app_long by lia. split_and!.
    + reflexivity.
    + rewrite slice_last_length. lia.
    + unfold slice_last. by rewrite Hsent.
Qed.

Lemma chat_history_bounded_witness :
  let env := linear_env 1000 1 "id" in
  let evs := replicate 201 ("s1", "hello") in
  exists (w' : World) (room' : Room),
    handle_all (chat_events "r" evs) env watch_world = (Returned tt, w') /\
    rooms w' !! "r" = Some room' /\
    length (chat room') = 200%nat /\
    chat room' = drop 1 (sent_messages env watch_world 0 evs).
Proof.
  intros env evs.
  destruct (chat_history_bounded env watch_world "r" watch_room evs)
    as (w' & room' & Hrun & Hroom & _ & _ & _ & Hlong);
    [reflexivity | discriminate |].
  exists w', room'. destruct Hlong as (_ & Hlen & Hdrop); [vm_compute; lia|].
  split_and!; [exact Hrun | exact Hroom | exact Hlen | exact Hdrop].
Defined.

(** ** Joining a room *)

Lemma on_joinRoom_run (env : Env) (w : World) (sid roomId : string)
    (username : option string) (room : Room) (ps : PlaybackState) :
  rooms w !! roomId = Some room ->
  heap w !! playbackState room = Some ps ->
  let viewer := mkViewer sid (js_or username ("Viewer " ++ substring 0 4 sid))
                         (now_at env (clock_reads w)) in
  let room' := with_viewers (viewers room ++ [viewer])%list room in
  exists w',
    on_joinRoom sid roomId username env w = (Returned tt, w') /\
    heap w' = heap w /\
    rooms w' = <[roomId := room']> (rooms w) /\
    sync_rooms w' = sync_rooms w /\
    outbox w' = (outbox w ++
      [(to_socket sid, roomState (snapshot room' ps) ps
                                 (slice_last 50 (chat room)) (viewers room'));
       (to_room_except roomId sid, viewerJoined viewer);
       (to_room roomId, viewerCount (length (viewers room')))])%list.
Proof.
  intros Hr Ha viewer room'. unfold on_joinRoom, rooms_get.
  rewrite !bind_run. cbn. rewrite Hr. repeat (rewrite bind_run; cbn).
  erewrite load_run by (cbn; exact Ha). cbn.
  eexists. split; [reflexivity|]. cbn. split_and!; try reflexivity.
  by rewrite <- !app_assoc.
Qed.

(** C10, counterexample. The room holds 51 chat records when socket ["s3"]
    joins. The [chat] field of the [roomState] reply carries 50 of them, but
    the reply's [room] field, a copy of the room object, carries the room's
    [chat] array whole: the joiner receives all 51 retained records. *)
Lemma join_reply_history_counterexample :
  exists (room : Room) (snap : RoomSnapshot) (ps : PlaybackState)
         (tail : list ChatMessage) (roster : list Viewer) (rest : list (Target * ServerEvent)),
    rooms chatty_world !! "r" = Some room /\
    length (chat room) = 51%nat /\
    emitted_by (on_joinRoom "s3" "r" None) (frozen_env 5000 "u") chatty_world
      = (to_socket "s3", roomState snap ps tail roster) :: rest /\
    length tail = 50%nat /\
    snap_chat snap = chat room /\
    length (snap_chat snap) = 51%nat.
Proof.
  do 6 eexists. split_and!; vm_compute; reflexivity.
Qed.

(** C10, amended. The [chat] field of the [roomState] reply sent to a joining
    viewer is the tail of the room's retained chat holding its 50 most recent
    records, or all of them when there are at most 50; the room itself keeps
    its whole chat. *)
Theorem join_reply_chat_tail (env : Env) (w : World) (sid roomId : string)
    (username : option string) (room : Room) (ps : PlaybackState) :
  rooms w !! roomId = Some room ->
  heap w !! playbackState room = Some ps ->
  exists (w' : World) (snap : RoomSnapshot) (roster : list Viewer)
         (rest : list (Target * ServerEvent)),
    on_joinRoom sid roomId username env w = (Returned tt, w') /\
    emitted_by (on_joinRoom sid roomId username) env w
      = (to_socket sid, roomState snap ps (slice_last 50 (chat room)) roster) :: rest /\
    (forall t ev, (t, ev) ∈ rest -> t ≠ to_socket sid) /\
    slice_last 50 (chat room) = drop (length (chat room) - 50) (chat room) /\
    slice_last 50 (chat room) `suffix_of` chat room /\
    length (slice_last 50 (chat room)) = (length (chat room) `min` 50)%nat /\
    chat <$> rooms w' !! roomId = Some (chat room).
Proof.
  intros Hr Ha.
  destruct (on_joinRoom_run env w sid roomId username room ps Hr Ha)
    as (w' & Hrun & _ & Hrooms & _ & Hout).
  eexists w', _, _, _. split; [exact Hrun|]. split_and!.
  - unfold emitted_by. rewrite Hrun. cbn [snd]. rewrite Hout.
    rewrite drop_app_length. reflexivity.
  - intros t ev Hin. apply elem_of_cons in Hin as [[= -> _]|Hin]; [done|].
    apply list_elem_of_singleton in Hin as [= -> _]. done.
  - reflexivity.
  - apply slice_last_suffix.
  - apply slice_last_length.
  - rewrite Hrooms, lookup_insert_eq. reflexivity.
Qed.

Lemma join_reply_chat_tail_witness :
  exists (w' : World) (snap : RoomSnapshot) (ps : PlaybackState)
         (roster : list Viewer) (rest : list (Target * ServerEvent)),
    on_joinRoom "s3" "r" None (frozen_env 5000 "u") chatty_world = (Returned tt, w') /\
    emitted_by (on_joinRoom "s3" "r" None) (frozen_env 5000 "u") chatty_world
      = (to_socket "s3",
         roomState snap ps
           (slice_last 50 (chat (default watch_room (rooms chatty_world !! "r")))) roster)
        :: rest /\
    length (slice_last 50 (chat (default watch_room (rooms chatty_world !! "r"))))
      = 50%nat.
Proof.
  edestruct (join_reply_chat_tail (frozen_env 5000 "u") chatty_world "s3" "r" None
               (default watch_room (rooms chatty_world !! "r")))
    as (w' & snap & roster & rest & Hrun & Hout & _ & _ & _ & Hlen & _);
    [vm_compute; reflexivity .. |].
  eexists w', snap, _, roster, rest. split_and!; [exact Hrun | exact Hout |].
  rewrite Hlen. vm_compute. reflexivity.
Defined.

(** ** The heartbeat *)

Lemma getPlaybackState_run (env : Env) (w : World) (roomId : string)
    (sr : SyncRoom) (a : PlaybackState) :
  JsMap.get roomId (sync_rooms w) = Some sr ->
  heap w !! sync_playbackState sr = Some a ->
  let w1 := if isPlaying a then tick_clock w else w in
  SyncService.getPlaybackState roomId env w =
    (Returned (Some (mkPlaybackReport (isPlaying a)
                       (position_at a (now_at env (clock_reads w)))
                       (now_at env (clock_reads w1)))),
     tick_clock w1).
Proof.
  intros Hr Ha. unfold SyncService.getPlaybackState, SyncService.rooms_get.
  rewrite !bind_run. cbn. rewrite Hr, bind_run, (load_run _ _ _ _ Ha).
  rewrite bind_run, (getCurrentTime_run _ _ _ _ _ Hr Ha).
  destruct (isPlaying a); reflexivity.
Qed.

(** ** Well-formedness is maintained *)

Section Frame.
Context (w0 : World).

Lemma frame_refl : frame w0 w0.
Proof. unfold frame. split_and!; [done | done | eauto]. Qed.

Lemma keeps_ret {A : Type} (a : A) : keeps w0 (mret a).
Proof. by intros env w H. Qed.

Lemma keeps_throw {A : Type} (e : string) : keeps w0 (@throw A e).
Proof. by intros env w H. Qed.

Lemma keeps_bind {A B : Type} (m : M A) (f : A -> M B) :
  keeps w0 m -> (forall a, keeps w0 (f a)) -> keeps w0 (m ≫= f).
Proof.
  intros Hm Hf env w H. rewrite bind_run. specialize (Hm env w H).
  destruct (m env w) as [[a|e] w']; [by apply Hf | exact Hm].
Qed.

Lemma keeps_get_world : keeps w0 get_world.
Proof. by intros env w H. Qed.

(** A change that touches neither the heap nor the registries. *)
Lemma keeps_modify (f : World -> World) :
  (forall w, heap (f w) = heap w /\ rooms (f w) = rooms w /\
             sync_rooms (f w) = sync_rooms w) ->
  keeps w0 (modify f).
Proof.
  intros Hf env w H. destruct (Hf w) as (Hh & Hr & Hs).
  unfold frame, modify in *. cbn. by rewrite Hh, Hr, Hs.
Qed.

Lemma keeps_Date_now : keeps w0 Date_now.
Proof. by intros env w H. Qed.

Lemma keeps_uuidv4 : keeps w0 uuidv4.
Proof. by intros env w H. Qed.

Lemma keeps_load (l : loc) : keeps w0 (load l).
Proof. intros env w H. unfold load. by destruct (heap w !! l). Qed.

Lemma keeps_assign (l : loc) (f : PlaybackState -> PlaybackState) :
  keeps w0 (assign l f).
Proof.
  intros env w (Hs & Hh & Hr). unfold assign, load. rewrite bind_run.
  destruct (heap w !! l) as [ps|] eqn:E; [|done]. cbn.
  split_and!; [done | | done].
  intros l' Hl'. apply lookup_insert_is_Some. destruct (decide (l = l')); eauto.
Qed.

Lemma keeps_rooms_get_bind {B : Type} (roomId : string) (f : option Room -> M B) :
  (forall o, same_object w0 roomId o -> keeps w0 (f o)) ->
  keeps w0 (rooms_get roomId ≫= f).
Proof.
  intros Hf env w H. unfold rooms_get. rewrite !bind_run. cbn.
  apply Hf; [|exact H]. intros room Hroom. by apply H.
Qed.

Lemma keeps_rooms_put (roomId : string) (room room' : Room) :
  same_object w0 roomId (Some room) ->
  playbackState room' = playbackState room ->
  keeps w0 (rooms_put roomId room').
Proof.
  intros Hobj Hps env w (Hs & Hh & Hr). unfold rooms_put, modify. cbn.
  split_and!; [done | done |]. cbn. intros rid r.
  destruct (decide (roomId = rid)) as [<-|Hne].
  - rewrite lookup_insert_eq. intros [= <-].
    destruct (Hobj room eq_refl) as (room0 & H0 & Heq). exists room0.
    split; [done | congruence].
  - rewrite lookup_insert_ne by done. apply Hr.
Qed.
End Frame.

Create HintDb keeps.

#[local] Hint Resolve keeps_ret keeps_throw keeps_get_world keeps_Date_now
  keeps_uuidv4 keeps_load keeps_assign : keeps.

Lemma keeps_untouched (w0 : World) (f : World -> World) :
  (forall w, heap (f w) = heap w) -> (forall w, rooms (f w) = rooms w) ->
  (forall w, sync_rooms (f w) = sync_rooms w) ->
  keeps w0 (modify f).
Proof. intros Hh Hr Hs. apply keeps_modify. intros w. by rewrite Hh, Hr, Hs. Qed.

(** Splits a computation at its binds and case distinctions down to the
    primitives. *)
Ltac keeps_steps :=
  repeat first
    [ progress cbv beta iota zeta
    | solve [auto with keeps]
    | apply keeps_bind; [|intros ?]
    | apply keeps_untouched; intros ?; reflexivity
    | match goal with
      | |- keeps _ (match ?x with _ => _ end) => destruct x
      | |- forall _, _ => intros ?
      end ].

Lemma keeps_emit (w0 : World) (t : Target) (ev : ServerEvent) : keeps w0 (emit t ev).
Proof. unfold emit. keeps_steps. Qed.

#[local] Hint Resolve keeps_emit : keeps.

Lemma keeps_handleLeaveRoom (w0 : World) (sid : string) : keeps w0 (handleLeaveRoom sid).
Proof.
  unfold handleLeaveRoom, get_socket_roomId, get_socket_username,
    socket_to_emit, io_to_emit, socket_leave.
  apply keeps_bind; [keeps_steps|]. intros [roomId|]; [|keeps_steps].
  destruct (truthy roomId); [|keeps_steps].
  apply keeps_rooms_get_bind. intros [room|] Hobj; [|keeps_steps].
  apply keeps_bind; [|keeps_steps]. cbv beta iota zeta.
  apply keeps_bind; [by apply (keeps_rooms_put _ _ room)|]. keeps_steps.
Qed.

Lemma keeps_handle (w0 : World) (sid : string) (e : ClientEvent) :
  keeps w0 (handle sid e).
Proof.
  destruct e; cbn [handle].
  - unfold on_joinAdmin, socket_join. keeps_steps.
  - unfold on_joinRoom, socket_join, set_socket_roomId, set_socket_username,
      new_Date, socket_emit, socket_to_emit, io_to_emit.
    apply keeps_rooms_get_bind. intros [room|] Hobj; [|keeps_steps].
    do 4 (cbv beta iota zeta; apply keeps_bind; [keeps_steps|intros ?]).
    cbv beta iota zeta.
    apply keeps_bind; [by apply (keeps_rooms_put _ _ room)|]. keeps_steps.
  - apply keeps_handleLeaveRoom.
  - unfold on_play, socket_to_emit.
    apply keeps_rooms_get_bind. intros [room|] Hobj; keeps_steps.
  - unfold on_pause, socket_to_emit.
    apply keeps_rooms_get_bind. intros [room|] Hobj; keeps_steps.
  - unfold on_seek, socket_to_emit.
    apply keeps_rooms_get_bind. intros [room|] Hobj; keeps_steps.
  - unfold on_requestSync, socket_emit.
    apply keeps_rooms_get_bind. intros [room|] Hobj; keeps_steps.
  - unfold on_chatMessage, get_socket_username, new_Date, io_to_emit.
    apply keeps_rooms_get_bind. intros [room|] Hobj; [|keeps_steps].
    do 4 (apply keeps_bind; [keeps_steps|intros ?]). cbv beta iota zeta.
    apply keeps_bind; [|keeps_steps].
    apply (keeps_rooms_put _ _ room); [done|]. by case_decide.
  - unfold on_reaction, get_socket_username, io_to_emit.
    apply keeps_rooms_get_bind. intros [room|] Hobj; keeps_steps.
  - unfold on_disconnect, socket_leaveAll.
    apply keeps_bind; [keeps_steps|]. intros _. apply keeps_handleLeaveRoom.
Qed.

Lemma frame_wf (w0 w : World) : wf_world w0 -> frame w0 w -> wf_world w.
Proof.
  intros (Hnd & Hheap & Hlink) (Hs & Hh & Hr). unfold wf_world. rewrite Hs.
  split_and!; [done | |].
  - intros roomId sr Hget. apply Hh. by apply (Hheap roomId).
  - intros roomId room' Hroom. destruct (Hr _ _ Hroom) as (room & Hroom0 & Hps).
    destruct (Hlink _ _ Hroom0) as (sr & Hget & Hloc). exists sr.
    split; [done | congruence].
Qed.

Lemma keeps_heartbeat (w0 : World) : keeps w0 SyncService.heartbeat.
Proof.
  unfold SyncService.heartbeat. apply keeps_bind; [auto with keeps|]. intros w.
  induction (sync_rooms w) as [|[roomId room] rest IH]; cbn [SyncService.forEach].
  - auto with keeps.
  - apply keeps_bind; [|intros _; exact IH].
    unfold SyncService.heartbeat_callback, SyncService.getPlaybackState,
      SyncService.getCurrentTime, SyncService.rooms_get, io_to_emit.
    keeps_steps.
Qed.

Lemma wf_createRoom (env : Env) (w : World) (movieId : string) (name : option string) :
  wf_world w -> wf_world (api_createRoom movieId name env w).2.
Proof.
  intros (Hnd & Hheap & Hlink). unfold api_createRoom. rewrite bind_run. cbn.
  destruct (movies w !! movieId) as [movie|]; [|done].
  destruct (transcodeStatus movie); try done.
  unfold SyncService.createRoom. repeat (rewrite bind_run; cbn).
  set (roomId := substring 0 8 _). set (l := fresh (dom (heap w))).
  unfold wf_world. cbn. split_and!.
  - by apply jsmap_set_NoDup.
  - intros rid sr. destruct (decide (roomId = rid)) as [<-|Hne].
    + rewrite jsmap_get_set_eq. intros [= <-]. cbn. by rewrite lookup_insert_eq.
    + rewrite jsmap_get_set_ne by done. intros Hget.
      apply lookup_insert_is_Some. destruct (decide (l = sync_playbackState sr)); [by left|].
      right. split; [done|]. by apply (Hheap rid).
  - intros rid room. destruct (decide (roomId = rid)) as [<-|Hne].
    + rewrite lookup_insert_eq. intros [= <-]. eexists.
      split; [apply jsmap_get_set_eq | done].
    + rewrite lookup_insert_ne by done. rewrite jsmap_get_set_ne by done. apply Hlink.
Qed.

Lemma wf_deleteRoom (env : Env) (w : World) (roomId : string) :
  wf_world w -> wf_world (api_deleteRoom roomId env w).2.
Proof.
  intros (Hnd & Hheap & Hlink). unfold api_deleteRoom. rewrite bind_run. cbn.
  destruct (rooms w !! roomId) as [room|]; [|done].
  unfold SyncService.deleteRoom. repeat (rewrite bind_run; cbn).
  unfold wf_world. cbn. split_and!.
  - by apply jsmap_delete_NoDup.
  - intros rid sr. destruct (decide (roomId = rid)) as [<-|Hne].
    + by rewrite jsmap_get_delete_eq.
    + rewrite jsmap_get_delete_ne by done. apply Hheap.
  - intros rid room'. destruct (decide (roomId = rid)) as [<-|Hne].
    + by rewrite lookup_delete_eq.
    + rewrite lookup_delete_ne by done. rewrite jsmap_get_delete_ne by done.
      apply Hlink.
Qed.

(** Every operation of the server takes a well-formed world to a well-formed
    world, whatever the clock and the uuid generator answer. *)
Lemma wf_perform (o : Operation) (env : Env) (w : World) :
  wf_world w -> wf_world (perform o env w).
Proof.
  intros Hwf. destruct o as [sid e|movieId name|roomId|]; cbn [perform].
  - apply (frame_wf w); [done|]. apply keeps_handle, frame_refl.
  - by apply wf_createRoom.
  - by apply wf_deleteRoom.
  - apply (frame_wf w); [done|]. apply keeps_heartbeat, frame_refl.
Qed.

Lemma wf_movie_world : wf_world movie_world.
Proof.
  split_and!; [apply NoDup_nil_2 | done | done].
Qed.

Lemma wf_fold_perform (env : Env) (ops : list Operation) (w : World) :
  wf_world w -> wf_world (fold_left (fun w o => perform o env w) ops w).
Proof.
  revert w. induction ops as [|o ops IH]; intros w Hwf; [done|].
  cbn. by apply IH, wf_perform.
Qed.

Lemma wf_playing_world : wf_world playing_world.
Proof. apply wf_fold_perform, wf_movie_world. Qed.

(* ================================================================= *)
(** * Further properties of the handlers *)

(** ** Transport controls, continued *)

(** X1. On an existing room, [pause] returns normally, leaves the playback
    state equal to [{isPlaying: false, currentTime: position, lastUpdate: t0}]
    with [t0] the first clock reading, and emits one [syncPause] carrying the
    position and the second clock reading to the Socket.IO room without the
    originator. From then on the extrapolated position is [position] at every
    clock reading. *)
Theorem pause_sets_anchor_and_broadcasts (env : Env) (w : World) (sid roomId : string)
    (position : Q) (room : Room) (old : PlaybackState) :
  rooms w !! roomId = Some room ->
  heap w !! playbackState room = Some old ->
  let t0 := now_at env (clock_reads w) in
  let t1 := now_at env (S (clock_reads w)) in
  exists w',
    on_pause sid roomId position env w = (Returned tt, w') /\
    heap w' !! playbackState room = Some (mkPlaybackState false position t0) /\
    rooms w' = rooms w /\ sync_rooms w' = sync_rooms w /\ adapter w' = adapter w /\
    emitted_by (on_pause sid roomId position) env w
      = [(to_room_except roomId sid, syncPause position t1)] /\
    (sid ∉ recipients (adapter w') (to_room_except roomId sid)) /\
    (forall later : Z, position_at (mkPlaybackState false position t0) later = position).
Proof.
  intros Hr Ha t0 t1. eexists. split; [apply (on_pause_run _ _ _ _ _ _ _ Hr Ha)|].
  split_and!; try reflexivity.
  - apply lookup_insert_eq.
  - unfold emitted_by. rewrite (on_pause_run _ _ _ _ _ _ _ Hr Ha). cbn.
    by rewrite drop_app_length.
  - cbn. rewrite elem_of_difference, elem_of_singleton. tauto.
Qed.

Lemma pause_sets_anchor_and_broadcasts_witness :
  exists w',
    on_pause "s1" "abcdefgh" 42 (frozen_env 9000 "u") playing_world = (Returned tt, w') /\
    heap w' !! 0%nat = Some (mkPlaybackState false 42 9000) /\
    emitted_by (on_pause "s1" "abcdefgh" 42) (frozen_env 9000 "u") playing_world
      = [(to_room_except "abcdefgh" "s1", syncPause 42 9000)].
Proof.
  destruct (pause_sets_anchor_and_broadcasts (frozen_env 9000 "u") playing_world
              "s1" "abcdefgh" 42 playing_room (mkPlaybackState true 10 2000)
              eq_refl eq_refl)
    as (w' & Hrun & Hheap & _ & _ & _ & Hout & _).
  exists w'. split_and!; [exact Hrun | exact Hheap | exact Hout].
Defined.

(** X2. On an existing room, [seek] replaces the position and the time stamp
    of the playback state and keeps its [isPlaying] flag: a playing room
    keeps playing from the new position, a paused room stays paused there.
    One [syncSeek] goes to the Socket.IO room without the originator. *)
Theorem seek_keeps_playing_flag (env : Env) (w : World) (sid roomId : string)
    (position : Q) (room : Room) (old : PlaybackState) :
  rooms w !! roomId = Some room ->
  heap w !! playbackState room = Some old ->
  let t0 := now_at env (clock_reads w) in
  let t1 := now_at env (S (clock_reads w)) in
  exists (w' : World) (new : PlaybackState),
    on_seek sid roomId position env w = (Returned tt, w') /\
    heap w' !! playbackState room = Some new /\
    isPlaying new = isPlaying old /\ currentTime new = position /\
    lastUpdate new = t0 /\
    rooms w' = rooms w /\ sync_rooms w' = sync_rooms w /\ adapter w' = adapter w /\
    emitted_by (on_seek sid roomId position) env w
      = [(to_room_except roomId sid, syncSeek position t1)] /\
    (forall later : Z,
        position_at new later
        = if isPlaying old
          then (position + inject_Z (later - t0) / 1000)%Q else position).
Proof.
  intros Hr Ha t0 t1.
  eexists _, (mkPlaybackState (isPlaying old) position t0).
  split; [apply (on_seek_run _ _ _ _ _ _ _ Hr Ha)|].
  split_and!; try reflexivity.
  - apply lookup_insert_eq.
  - unfold emitted_by. rewrite (on_seek_run _ _ _ _ _ _ _ Hr Ha). cbn.
    by rewrite drop_app_length.
Qed.

Lemma seek_keeps_playing_flag_witness :
  exists w',
    on_seek "s2" "abcdefgh" 300 (frozen_env 9000 "u") playing_world = (Returned tt, w') /\
    heap w' !! 0%nat = Some (mkPlaybackState true 300 9000).
Proof.
  destruct (seek_keeps_playing_flag (frozen_env 9000 "u") playing_world
              "s2" "abcdefgh" 300 playing_room (mkPlaybackState true 10 2000)
              eq_refl eq_refl)
    as (w' & new & Hrun & Hheap & Hp & Hc & Hl & _).
  exists w'. split; [exact Hrun|]. transitivity (Some new); [exact Hheap|].
  f_equal. destruct new as [b q z]. cbn in Hp, Hc, Hl. by subst.
Defined.

(** X3. [play] followed by [requestSync] on the same room: the requester
    alone is told that the room is playing, at the played position plus the
    time that passed between the clock reading [play] stored and the one
    [requestSync] took, in seconds. *)
Theorem play_then_requestSync (env : Env) (w : World) (s1 s2 roomId : string)
    (position : Q) (room : Room) (old : PlaybackState) :
  rooms w !! roomId = Some room ->
  heap w !! playbackState room = Some old ->
  let t (k : nat) := now_at env (k + clock_reads w) in
  exists w',
    handle_all [(s1, play roomId position); (s2, requestSync roomId)] env w
      = (Returned tt, w') /\
    outbox w' = (outbox w ++
      [(to_room_except roomId s1, syncPlay position (t 1%nat));
       (to_socket s2,
        syncState true (position + inject_Z (t 2%nat - t 0%nat) / 1000)%Q (t 3%nat))])%list.
Proof.
  intros Hr Ha t. unfold handle_all, handle.
  rewrite bind_run, (on_play_run _ _ _ _ _ _ _ Hr Ha).
  rewrite bind_run.
  erewrite on_requestSync_run by (cbn; first [exact Hr | apply lookup_insert_eq]).
  cbn. eexists. split; [reflexivity|]. cbn. by rewrite <- app_assoc.
Qed.

Lemma play_then_requestSync_witness :
  exists w',
    handle_all [("s1", play "r" 30); ("s2", requestSync "r")]
               (linear_env 0 2000 "u") watch_world = (Returned tt, w') /\
    outbox w' = (outbox watch_world ++
      [(to_room_except "r" "s1", syncPlay 30 6000);
       (to_socket "s2",
        syncState true (30 + inject_Z (8000 - 4000) / 1000)%Q 10000)])%list.
Proof.
  exact (play_then_requestSync (linear_env 0 2000 "u") watch_world "s1" "s2" "r" 30
           watch_room (mkPlaybackState false 0 0) eq_refl eq_refl).
Defined.

(** ** The two registries *)

(** X4. In a well-formed world the state written by the [play] and [pause]
    handlers of server.js is the state [SyncService] reads: right after
    [play], [getPlaybackState] reports the room playing at the played
    position plus the time elapsed since, and right after [pause] it reports
    the room paused at the paused position. *)
Theorem transport_visible_to_sync_registry (env : Env) (w : World)
    (sid roomId : string) (position : Q) (room : Room) :
  wf_world w ->
  rooms w !! roomId = Some room ->
  let t (k : nat) := now_at env (k + clock_reads w) in
  (SyncService.getPlaybackState roomId env (on_play sid roomId position env w).2).1
    = Returned (Some (mkPlaybackReport true
                        (position + inject_Z (t 2%nat - t 0%nat) / 1000)%Q (t 3%nat))) /\
  (SyncService.getPlaybackState roomId env (on_pause sid roomId position env w).2).1
    = Returned (Some (mkPlaybackReport false position (t 2%nat))).
Proof.
  intros (Hnd & Hheap & Hlink) Hr t.
  destruct (Hlink _ _ Hr) as (sr & Hget & Hloc).
  destruct (Hheap _ _ Hget) as [old Ha]. rewrite Hloc in Ha.
  split.
  - rewrite (on_play_run _ _ sid _ position _ _ Hr Ha). cbn [snd].
    erewrite getPlaybackState_run;
      [ | cbn; exact Hget | cbn; rewrite Hloc; apply lookup_insert_eq ].
    reflexivity.
  - rewrite (on_pause_run _ _ sid _ position _ _ Hr Ha). cbn [snd].
    erewrite getPlaybackState_run;
      [ | cbn; exact Hget | cbn; rewrite Hloc; apply lookup_insert_eq ].
    reflexivity.
Qed.

Lemma transport_visible_to_sync_registry_witness :
  let env := linear_env 0 1000 "u" in
  (SyncService.getPlaybackState "abcdefgh" env
     (on_play "s1" "abcdefgh" 30 env playing_world).2).1
    = Returned (Some (mkPlaybackReport true (30 + inject_Z (9000 - 7000) / 1000)%Q 10000)) /\
  (SyncService.getPlaybackState "abcdefgh" env
     (on_pause "s1" "abcdefgh" 30 env playing_world).2).1
    = Returned (Some (mkPlaybackReport false 30 9000)).
Proof.
  exact (transport_visible_to_sync_registry (linear_env 0 1000 "u") playing_world
           "s1" "abcdefgh" 30 playing_room wf_playing_world eq_refl).
Defined.

(** X5. [SyncService.updatePlaybackState] gives the sync registry a new
    playback-state object and leaves the one server.js uses as it was, so it
    does not change what [requestSync] answers; and a [play] handled
    afterwards is written to the room's own object only: the sync registry
    keeps reporting the merged state of the update. *)
Theorem updatePlaybackState_detaches (env : Env) (w : World) (sid roomId : string)
    (state : PlaybackPatch) (position : Q) (room : Room) (old : PlaybackState) :
  wf_world w ->
  rooms w !! roomId = Some room ->
  heap w !! playbackState room = Some old ->
  let t (k : nat) := now_at env (k + clock_reads w) in
  let w1 := (SyncService.updatePlaybackState roomId state env w).2 in
  let w2 := (on_play sid roomId position env w1).2 in
  let merged := mkPlaybackState (default (isPlaying old) (patch_isPlaying state))
                                (default (currentTime old) (patch_currentTime state))
                                (t 0%nat) in
  rooms w1 = rooms w /\
  heap w1 !! playbackState room = Some old /\
  heap w2 !! playbackState room = Some (mkPlaybackState true position (t 1%nat)) /\
  exists sr',
    JsMap.get roomId (sync_rooms w2) = Some sr' /\
    sync_playbackState sr' ≠ playbackState room /\
    heap w1 !! sync_playbackState sr' = Some merged /\
    heap w2 !! sync_playbackState sr' = Some merged.
Proof.
  intros (Hnd & Hheap & Hlink) Hr Ha t w1 w2 merged.
  destruct (Hlink _ _ Hr) as (sr & Hget & Hloc).
  assert (Ha' : heap w !! sync_playbackState sr = Some old) by by rewrite Hloc.
  assert (Hfresh : fresh (dom (heap w)) ≠ playbackState room).
  { intros Heq. apply (is_fresh (dom (heap w))). rewrite Heq.
    apply elem_of_dom. eauto. }
  pose proof (updatePlaybackState_run env w roomId state sr old Hget Ha') as Hrun.
  cbv zeta in Hrun. unfold w2, w1. rewrite Hrun. cbn [snd].
  set (l := fresh (dom (heap w))) in *.
  erewrite on_play_run;
    [ | cbn; exact Hr | cbn; rewrite lookup_insert_ne by done; exact Ha ].
  cbn. split_and!.
  - reflexivity.
  - by rewrite lookup_insert_ne.
  - apply lookup_insert_eq.
  - eexists. split; [apply jsmap_get_set_eq|]. cbn. split_and!.
    + done.
    + apply lookup_insert_eq.
    + rewrite lookup_insert_ne by done. apply lookup_insert_eq.
Qed.

Lemma updatePlaybackState_detaches_witness :
  let env := frozen_env 9000 "u" in
  let w1 := (SyncService.updatePlaybackState "abcdefgh"
               (mkPlaybackPatch (Some false) None) env playing_world).2 in
  let w2 := (on_play "s1" "abcdefgh" 77 env w1).2 in
  heap w1 !! 0%nat = Some (mkPlaybackState true 10 2000) /\
  heap w2 !! 0%nat = Some (mkPlaybackState true 77 9000) /\
  exists sr',
    JsMap.get "abcdefgh" (sync_rooms w2) = Some sr' /\
    heap w2 !! sync_playbackState sr' = Some (mkPlaybackState false 10 9000).
Proof.
  intros env w1 w2.
  destruct (updatePlaybackState_detaches env playing_world "s1" "abcdefgh"
              (mkPlaybackPatch (Some false) None) 77 playing_room
              (mkPlaybackState true 10 2000) wf_playing_world eq_refl eq_refl)
    as (_ & H1 & H2 & sr' & Hget & _ & _ & Hs).
  split_and!; [exact H1 | exact H2 |]. exists sr'. split; [exact Hget | exact Hs].
Defined.

(** ** Rosters *)

Lemma world_ext (w1 w2 : World) :
  heap w1 = heap w2 -> rooms w1 = rooms w2 -> movies w1 = movies w2 ->
  sync_rooms w1 = sync_rooms w2 -> sockets w1 = sockets w2 ->
  adapter w1 = adapter w2 -> outbox w1 = outbox w2 ->
  clock_reads w1 = clock_reads w2 -> uuid_reads w1 = uuid_reads w2 -> w1 = w2.
Proof. destruct w1, w2. cbn. by intros -> -> -> -> -> -> -> -> ->. Qed.

Lemma members_insert_eq (a : gmap string (gset string)) (r : string) (S : gset string) :
  members (<[r := S]> a) r = S.
Proof. unfold members. by rewrite lookup_insert_eq. Qed.

Lemma members_insert_ne (a : gmap string (gset string)) (r r' : string)
    (S : gset string) :
  r ≠ r' -> members (<[r := S]> a) r' = members a r'.
Proof. intros H. unfold members. by rewrite lookup_insert_ne. Qed.

Lemma not_elem_of_without (S : gset string) (sid : string) : sid ∉ S ∖ {[sid]}.
Proof. rewrite elem_of_difference, elem_of_singleton. tauto. Qed.

Lemma elem_of_with (S : gset string) (sid : string) : sid ∈ {[sid]} ∪ S.
Proof. rewrite elem_of_union, elem_of_singleton. by left. Qed.

(** Reduces the fields of a world built by the field updates, and nothing
    else. *)
Tactic Notation "world_fields" :=
  cbn [heap rooms movies sync_rooms sockets adapter outbox clock_reads uuid_reads
       with_heap with_rooms with_sync_rooms with_sockets with_adapter with_outbox
       tick_clock tick_uuid fst snd].
Tactic Notation "world_fields" "in" hyp(H) :=
  cbn [heap rooms movies sync_rooms sockets adapter outbox clock_reads uuid_reads
       with_heap with_rooms with_sync_rooms with_sockets with_adapter with_outbox
       tick_clock tick_uuid fst snd] in H.

Lemma on_joinRoom_world (env : Env) (w : World) (sid roomId : string)
    (username : option string) (room : Room) (ps : PlaybackState) :
  rooms w !! roomId = Some room ->
  heap w !! playbackState room = Some ps ->
  let uname := js_or username ("Viewer " ++ substring 0 4 sid) in
  let viewer := mkViewer sid uname (now_at env (clock_reads w)) in
  let room' := with_viewers (viewers room ++ [viewer])%list room in
  on_joinRoom sid roomId username env w =
    (Returned tt,
     mkWorld (heap w) (<[roomId := room']> (rooms w)) (movies w) (sync_rooms w)
       (<[sid := mkSocketProps (Some roomId) (Some uname)]> (sockets w))
       (<[roomId := {[sid]} ∪ members (adapter w) roomId]> (adapter w))
       (outbox w ++
          [(to_socket sid, roomState (snapshot room' ps) ps
                                     (slice_last 50 (chat room)) (viewers room'));
           (to_room_except roomId sid, viewerJoined viewer);
           (to_room roomId, viewerCount (length (viewers room')))])%list
       (S (clock_reads w)) (uuid_reads w)).
Proof.
  intros Hr Ha uname viewer room'. unfold on_joinRoom, rooms_get.
  rewrite !bind_run. cbn. rewrite Hr. repeat (rewrite bind_run; cbn).
  erewrite load_run by (cbn; exact Ha). repeat (rewrite bind_run; cbn).
  unfold io_to_emit, emit, modify. f_equal.
  apply world_ext; world_fields; try reflexivity.
  - unfold props_of. world_fields. rewrite lookup_insert_eq.
    cbn [default socket_roomId]. by rewrite insert_insert_eq.
  - by rewrite <- !app_assoc.
Qed.

Lemma handleLeaveRoom_world (env : Env) (w : World) (sid roomId : string) (room : Room) :
  socket_roomId (props_of w sid) = Some roomId ->
  truthy roomId = true ->
  rooms w !! roomId = Some room ->
  let room' := with_viewers (filter (fun v => viewer_id v ≠ sid) (viewers room)) room in
  handleLeaveRoom sid env w =
    (Returned tt,
     mkWorld (heap w) (<[roomId := room']> (rooms w)) (movies w) (sync_rooms w)
       (sockets w)
       (<[roomId := members (adapter w) roomId ∖ {[sid]}]> (adapter w))
       (outbox w ++
          [(to_room_except roomId sid,
            viewerLeft sid (socket_username (props_of w sid)));
           (to_room roomId, viewerCount (length (viewers room')))])%list
       (clock_reads w) (uuid_reads w)).
Proof.
  intros Hs Ht Hr room'.
  unfold handleLeaveRoom, get_socket_roomId, get_socket_username, rooms_get.
  rewrite !bind_run. cbn. rewrite Hs. cbn. rewrite Ht.
  repeat (rewrite bind_run; cbn). rewrite Hr. repeat (rewrite bind_run; cbn).
  unfold socket_leave, modify. f_equal.
  apply world_ext; world_fields; try reflexivity.
  by rewrite <- !app_assoc.
Qed.

Lemma filter_all {A : Type} (P : A -> Prop) `{!forall x, Decision (P x)} (l : list A) :
  Forall P l -> filter P l = l.
Proof.
  induction 1 as [|x l Hx Hl IH]; [done|].
  by rewrite filter_cons_True, IH.
Qed.

Lemma filter_none {A : Type} (P : A -> Prop) `{!forall x, Decision (P x)} (l : list A) :
  Forall (fun x => ~ P x) l -> filter P l = [].
Proof.
  induction 1 as [|x l Hx Hl IH]; [done|].
  by rewrite filter_cons_False, IH.
Qed.

(** X6. [joinRoom] on an existing room appends one viewer to the roster,
    carrying the socket's id and the supplied name, or "Viewer " and the
    first four characters of the socket id when the name is missing or
    empty, so never an empty name. The socket enters the Socket.IO room and
    remembers room and name. The joiner gets [roomState] with the roster that
    already contains it, the others get [viewerJoined], and the whole room
    gets [viewerCount] with the old count plus one. No playback state is
    touched. *)
Theorem joinRoom_adds_viewer (env : Env) (w : World) (sid roomId : string)
    (username : option string) (room : Room) (ps : PlaybackState) :
  rooms w !! roomId = Some room ->
  heap w !! playbackState room = Some ps ->
  exists (w' : World) (viewer : Viewer) (snap : RoomSnapshot),
    on_joinRoom sid roomId username env w = (Returned tt, w') /\
    viewers <$> rooms w' !! roomId = Some (viewers room ++ [viewer])%list /\
    viewer_id viewer = sid /\
    viewer_username viewer = js_or username ("Viewer " ++ substring 0 4 sid) /\
    truthy (viewer_username viewer) = true /\
    (forall u, username = Some u -> truthy u = true -> viewer_username viewer = u) /\
    sid ∈ members (adapter w') roomId /\
    props_of w' sid = mkSocketProps (Some roomId) (Some (viewer_username viewer)) /\
    emitted_by (on_joinRoom sid roomId username) env w
      = [(to_socket sid, roomState snap ps (slice_last 50 (chat room))
                                   (viewers room ++ [viewer])%list);
         (to_room_except roomId sid, viewerJoined viewer);
         (to_room roomId, viewerCount (S (length (viewers room))))] /\
    snap_viewerCount snap = S (length (viewers room)) /\
    heap w' = heap w /\ sync_rooms w' = sync_rooms w.
Proof.
  intros Hr Ha.
  pose proof (on_joinRoom_world env w sid roomId username room ps Hr Ha) as Hrun.
  cbv zeta in Hrun. eexists _, _, _. split; [exact Hrun|].
  assert (Hlen : forall v : Viewer,
             length (viewers room ++ [v]) = S (length (viewers room))).
  { intros v. rewrite length_app. cbn. lia. }
  split_and!; world_fields.
  - by rewrite lookup_insert_eq.
  - reflexivity.
  - reflexivity.
  - destruct username as [[|c u]|]; reflexivity.
  - intros u -> Hu. cbn [js_or viewer_username]. by rewrite Hu.
  - rewrite members_insert_eq. apply elem_of_with.
  - unfold props_of. world_fields. by rewrite lookup_insert_eq.
  - unfold emitted_by. rewrite Hrun. world_fields.
    rewrite drop_app_length. cbn [viewers with_viewers]. by rewrite Hlen.
  - cbn [snap_viewerCount snapshot viewers with_viewers]. apply Hlen.
  - reflexivity.
  - reflexivity.
Qed.

Lemma joinRoom_adds_viewer_witness :
  exists (w' : World) (viewer : Viewer),
    on_joinRoom "s3abcdef" "r" (Some "") (frozen_env 50 "u") watch_world
      = (Returned tt, w') /\
    viewers <$> rooms w' !! "r" = Some (viewers watch_room ++ [viewer])%list /\
    viewer_username viewer = "Viewer s3ab" /\
    "s3abcdef" ∈ members (adapter w') "r".
Proof.
  destruct (joinRoom_adds_viewer (frozen_env 50 "u") watch_world "s3abcdef" "r"
              (Some "") watch_room (mkPlaybackState false 0 0) eq_refl eq_refl)
    as (w' & viewer & snap & Hrun & Hroster & _ & Hname & _ & _ & Hmem & _).
  exists w', viewer. split_and!; [exact Hrun | exact Hroster | exact Hname | exact Hmem].
Defined.

Lemma with_viewers_with_viewers (vs vs1 : list Viewer) (room : Room) :
  with_viewers vs (with_viewers vs1 room) = with_viewers vs room.
Proof. reflexivity. Qed.

Lemma with_viewers_same (room : Room) : with_viewers (viewers room) room = room.
Proof. by destruct room. Qed.

Lemma filter_joined (sid : string) (vs : list Viewer) (v : Viewer) :
  viewer_id v = sid ->
  filter (fun v => viewer_id v ≠ sid) (vs ++ [v])%list
  = filter (fun v => viewer_id v ≠ sid) vs.
Proof.
  intros Hv. rewrite filter_app, filter_cons_False by (intros H; by apply H).
  by rewrite filter_nil, app_nil_r.
Qed.

(** X7. A socket that has no entry in the roster of an existing room joins it
    and then leaves: the handlers return normally, the registry of rooms is
    exactly what it was before the join (same roster, same chat), the socket
    is no longer in the Socket.IO room, and the last [viewerCount] the room
    is sent is the count from before the join. *)
Theorem join_then_leave_restores_roster (env : Env) (w : World) (sid roomId : string)
    (username : option string) (room : Room) (ps : PlaybackState) :
  rooms w !! roomId = Some room ->
  heap w !! playbackState room = Some ps ->
  truthy roomId = true ->
  Forall (fun v => viewer_id v ≠ sid) (viewers room) ->
  exists w',
    handle_all [(sid, joinRoom roomId username); (sid, leaveRoom)] env w
      = (Returned tt, w') /\
    rooms w' = rooms w /\ heap w' = heap w /\ sync_rooms w' = sync_rooms w /\
    (sid ∉ members (adapter w') roomId) /\
    drop 3 (emitted_by (handle_all [(sid, joinRoom roomId username); (sid, leaveRoom)])
                       env w)
    = [(to_room_except roomId sid,
        viewerLeft sid (Some (js_or username ("Viewer " ++ substring 0 4 sid))));
       (to_room roomId, viewerCount (length (viewers room)))].
Proof.
  intros Hr Ha Ht Hnew.
  pose proof (on_joinRoom_world env w sid roomId username room ps Hr Ha) as Hjoin.
  cbv zeta in Hjoin.
  assert (Hrun : handle_all [(sid, joinRoom roomId username); (sid, leaveRoom)] env w
                 = (handleLeaveRoom sid env (on_joinRoom sid roomId username env w).2)).
  { unfold handle_all, handle. rewrite bind_run, Hjoin. cbn [snd].
    rewrite bind_run. by destruct (handleLeaveRoom _ _ _) as [[[]|] ?]. }
  rewrite Hjoin in Hrun. cbn [snd] in Hrun.
  erewrite handleLeaveRoom_world in Hrun;
    [ | unfold props_of; cbn; by rewrite lookup_insert_eq | exact Ht
      | cbn; apply lookup_insert_eq ].
  cbv zeta in Hrun. rewrite with_viewers_with_viewers in Hrun.
  cbn [viewers with_viewers] in Hrun.
  rewrite filter_joined, (filter_all _ _ Hnew), with_viewers_same in Hrun by done.
  world_fields in Hrun. eexists. split; [exact Hrun|]. world_fields. split_and!.
  - rewrite insert_insert_eq. by apply insert_id.
  - reflexivity.
  - reflexivity.
  - rewrite members_insert_eq. apply not_elem_of_without.
  - unfold emitted_by. rewrite Hrun. world_fields.
    rewrite <- app_assoc, drop_app_length. cbn [drop app].
    unfold props_of. world_fields. by rewrite lookup_insert_eq.
Qed.

Lemma join_then_leave_restores_roster_witness :
  exists w',
    handle_all [("s3", joinRoom "r" (Some "cy")); ("s3", leaveRoom)]
               (frozen_env 50 "u") watch_world = (Returned tt, w') /\
    rooms w' = rooms watch_world /\
    ("s3" ∉ members (adapter w') "r").
Proof.
  destruct (join_then_leave_restores_roster (frozen_env 50 "u") watch_world "s3" "r"
              (Some "cy") watch_room (mkPlaybackState false 0 0) eq_refl eq_refl eq_refl)
    as (w' & Hrun & Hrooms & _ & _ & Hmem & _).
  { repeat constructor; discriminate. }
  exists w'. split_and!; [exact Hrun | exact Hrooms | exact Hmem].
Defined.

(** X8. A socket that sends [joinRoom] twice for the same room gets two
    roster entries, and the room is told a count that includes both, although
    the socket sits in the Socket.IO room once. One [leaveRoom] afterwards
    removes every roster entry of the socket. *)
Theorem double_join_duplicates_roster_entry (env : Env) (w : World)
    (sid roomId : string) (name1 name2 : option string) (room : Room)
    (ps : PlaybackState) :
  rooms w !! roomId = Some room ->
  heap w !! playbackState room = Some ps ->
  truthy roomId = true ->
  exists (w2 w3 : World) (v1 v2 : Viewer),
    handle_all [(sid, joinRoom roomId name1); (sid, joinRoom roomId name2)] env w
      = (Returned tt, w2) /\
    viewers <$> rooms w2 !! roomId = Some (viewers room ++ [v1; v2])%list /\
    viewer_id v1 = sid /\ viewer_id v2 = sid /\
    last (outbox w2) = Some (to_room roomId, viewerCount (2 + length (viewers room))) /\
    members (adapter w2) roomId = {[sid]} ∪ members (adapter w) roomId /\
    handleLeaveRoom sid env w2 = (Returned tt, w3) /\
    viewers <$> rooms w3 !! roomId
      = Some (filter (fun v => viewer_id v ≠ sid) (viewers room)).
Proof.
  intros Hr Ha Ht.
  pose proof (on_joinRoom_world env w sid roomId name1 room ps Hr Ha) as Hjoin1.
  cbv zeta in Hjoin1.
  set (v1 := mkViewer sid (js_or name1 ("Viewer " ++ substring 0 4 sid))
                      (now_at env (clock_reads w))) in *.
  set (w1 := mkWorld _ _ _ _ _ _ _ _ _) in Hjoin1.
  pose proof (on_joinRoom_world env w1 sid roomId name2
                (with_viewers (viewers room ++ [v1])%list room) ps) as Hjoin2.
  cbv zeta in Hjoin2.
  set (v2 := mkViewer sid (js_or name2 ("Viewer " ++ substring 0 4 sid))
                      (now_at env (clock_reads w1))) in *.
  set (w2 := mkWorld _ _ _ _ _ _ _ _ _) in Hjoin2.
  specialize (Hjoin2 (lookup_insert_eq _ _ _) Ha).
  pose proof (handleLeaveRoom_world env w2 sid roomId
     (with_viewers ((viewers room ++ [v1]) ++ [v2])%list room)) as Hleave.
  cbv zeta in Hleave.
  eexists w2, _, v1, v2. split_and!.
  - unfold handle_all, handle. rewrite bind_run, Hjoin1, bind_run, Hjoin2. reflexivity.
  - unfold w2. world_fields. rewrite lookup_insert_eq. cbn [fmap option_fmap option_map].
    cbn [viewers with_viewers]. by rewrite <- app_assoc.
  - reflexivity.
  - reflexivity.
  - unfold w2. world_fields. rewrite last_app. cbn [last viewers with_viewers].
    do 3 f_equal. rewrite !length_app. cbn [length]. lia.
  - unfold w2. world_fields. rewrite members_insert_eq. unfold w1. world_fields.
    rewrite members_insert_eq. apply set_eq. intros x. rewrite !elem_of_union. tauto.
  - apply Hleave.
    + unfold props_of, w2. world_fields. by rewrite lookup_insert_eq.
    + exact Ht.
    + unfold w2. world_fields. apply lookup_insert_eq.
  - world_fields. rewrite lookup_insert_eq. cbn [fmap option_fmap option_map].
    cbn [viewers with_viewers]. by rewrite !filter_joined.
Qed.

Lemma double_join_duplicates_roster_entry_witness :
  exists (w2 w3 : World),
    handle_all [("s1", joinRoom "r" None); ("s1", joinRoom "r" None)]
               (frozen_env 50 "u") watch_world = (Returned tt, w2) /\
    length <$> (viewers <$> rooms w2 !! "r") = Some 4%nat /\
    last (outbox w2) = Some (to_room "r", viewerCount 4) /\
    handleLeaveRoom "s1" (frozen_env 50 "u") w2 = (Returned tt, w3) /\
    viewers <$> rooms w3 !! "r" = Some [mkViewer "s2" "bob" 0].
Proof.
  destruct (double_join_duplicates_roster_entry (frozen_env 50 "u") watch_world
              "s1" "r" None None watch_room (mkPlaybackState false 0 0)
              eq_refl eq_refl eq_refl)
    as (w2 & w3 & v1 & v2 & Hrun & Hroster & _ & _ & Hlast & _ & Hleave & Hafter).
  exists w2, w3. split_and!; [exact Hrun | | exact Hlast | exact Hleave | exact Hafter].
  rewrite Hroster. reflexivity.
Defined.

(** X9. [leaveRoom] only clears the room the socket joined last. A socket
    that joins room A and then room B without leaving, and then leaves,
    is removed from B's roster and Socket.IO room, but keeps its roster entry
    in A and stays in A's Socket.IO room, where it goes on receiving A's
    broadcasts. *)
Theorem leave_only_clears_last_joined_room (env : Env) (w : World)
    (sid roomA roomB : string) (nameA nameB : option string)
    (rA rB : Room) (psA psB : PlaybackState) :
  roomA ≠ roomB ->
  rooms w !! roomA = Some rA -> heap w !! playbackState rA = Some psA ->
  rooms w !! roomB = Some rB -> heap w !! playbackState rB = Some psB ->
  truthy roomB = true ->
  exists (w' : World) (v : Viewer),
    handle_all [(sid, joinRoom roomA nameA); (sid, joinRoom roomB nameB);
                (sid, leaveRoom)] env w = (Returned tt, w') /\
    viewers <$> rooms w' !! roomA = Some (viewers rA ++ [v])%list /\
    viewer_id v = sid /\
    sid ∈ members (adapter w') roomA /\
    sid ∈ recipients (adapter w') (to_room roomA) /\
    viewers <$> rooms w' !! roomB
      = Some (filter (fun v => viewer_id v ≠ sid) (viewers rB)) /\
    (sid ∉ members (adapter w') roomB) /\
    socket_roomId (props_of w' sid) = Some roomB.
Proof.
  intros Hne HrA HaA HrB HaB Ht.
  pose proof (on_joinRoom_world env w sid roomA nameA rA psA HrA HaA) as Hjoin1.
  cbv zeta in Hjoin1.
  set (v := mkViewer sid (js_or nameA ("Viewer " ++ substring 0 4 sid))
                     (now_at env (clock_reads w))) in *.
  set (w1 := mkWorld _ _ _ _ _ _ _ _ _) in Hjoin1.
  assert (HrB1 : rooms w1 !! roomB = Some rB).
  { unfold w1. cbn. by rewrite lookup_insert_ne. }
  pose proof (on_joinRoom_world env w1 sid roomB nameB rB psB HrB1 HaB) as Hjoin2.
  cbv zeta in Hjoin2.
  set (v2 := mkViewer sid (js_or nameB ("Viewer " ++ substring 0 4 sid))
                      (now_at env (clock_reads w1))) in *.
  set (w2 := mkWorld _ _ _ _ _ _ _ _ _) in Hjoin2.
  pose proof (handleLeaveRoom_world env w2 sid roomB
                (with_viewers (viewers rB ++ [v2])%list rB)) as Hleave.
  cbv zeta in Hleave.
  eexists _, v. split_and!.
  - unfold handle_all, handle. rewrite bind_run, Hjoin1, bind_run, Hjoin2, bind_run.
    rewrite Hleave; [reflexivity | | exact Ht |].
    + unfold props_of, w2. world_fields. by rewrite lookup_insert_eq.
    + unfold w2. world_fields. apply lookup_insert_eq.
  - world_fields. rewrite lookup_insert_ne by done. unfold w2. world_fields.
    rewrite lookup_insert_ne by done. unfold w1. world_fields.
    by rewrite lookup_insert_eq.
  - reflexivity.
  - world_fields. rewrite members_insert_ne by done. unfold w2. world_fields.
    rewrite members_insert_ne by done. unfold w1. world_fields.
    rewrite members_insert_eq. apply elem_of_with.
  - cbn [recipients]. world_fields. rewrite members_insert_ne by done.
    unfold w2. world_fields. rewrite members_insert_ne by done.
    unfold w1. world_fields. rewrite members_insert_eq. apply elem_of_with.
  - world_fields. rewrite lookup_insert_eq. cbn [fmap option_fmap option_map].
    cbn [viewers with_viewers]. by rewrite filter_joined.
  - world_fields. rewrite members_insert_eq. apply not_elem_of_without.
  - unfold props_of. world_fields. unfold w2. world_fields.
    by rewrite lookup_insert_eq.
Qed.

Lemma leave_only_clears_last_joined_room_witness :
  exists (w' : World) (v : Viewer),
    handle_all [("s1", joinRoom "roomid-0" None); ("s1", joinRoom "roomid-1" None);
                ("s1", leaveRoom)] (frozen_env 100 "u") two_room_world
      = (Returned tt, w') /\
    viewers <$> rooms w' !! "roomid-0" = Some [v] /\
    viewer_id v = "s1" /\
    "s1" ∈ members (adapter w') "roomid-0" /\
    viewers <$> rooms w' !! "roomid-1" = Some [].
Proof.
  edestruct (leave_only_clears_last_joined_room (frozen_env 100 "u") two_room_world
               "s1" "roomid-0" "roomid-1" None None)
    as (w' & v & Hrun & HA & Hid & Hmem & _ & HB & _);
    [discriminate | vm_compute; reflexivity .. |].
  exists w', v. split_and!; [exact Hrun | exact HA | exact Hid | exact Hmem | exact HB].
Defined.

(** X10. [disconnect] always returns normally. Afterwards the socket is in no
    Socket.IO room at all, the roster of the room it joined last holds no
    entry of it, and no playback state has changed. *)
Theorem disconnect_clears_socket (env : Env) (w : World) (sid : string) :
  exists w',
    on_disconnect sid env w = (Returned tt, w') /\
    (forall r : string, sid ∉ members (adapter w') r) /\
    (forall (roomId : string) (room : Room),
        socket_roomId (props_of w sid) = Some roomId -> truthy roomId = true ->
        rooms w !! roomId = Some room ->
        viewers <$> rooms w' !! roomId
        = Some (filter (fun v => viewer_id v ≠ sid) (viewers room))) /\
    (socket_roomId (props_of w sid) = None -> rooms w' = rooms w /\ outbox w' = outbox w) /\
    heap w' = heap w /\ sync_rooms w' = sync_rooms w.
Proof.
  unfold on_disconnect, socket_leaveAll. rewrite bind_run. cbn.
  set (w0 := with_adapter _ w).
  assert (Hgone : forall r, sid ∉ members (adapter w0) r).
  { intros r. unfold members, w0. cbn. rewrite lookup_fmap.
    destruct (adapter w !! r) as [s|]; cbn.
    - rewrite elem_of_difference, elem_of_singleton. tauto.
    - apply not_elem_of_empty. }
  destruct (socket_roomId (props_of w sid)) as [roomId|] eqn:Hs.
  - destruct (truthy roomId) eqn:Ht.
    + destruct (rooms w !! roomId) as [room|] eqn:Hr.
      * rewrite (handleLeaveRoom_world env w0 sid roomId room Hs Ht Hr).
        eexists. split; [reflexivity|]. cbn. split_and!; try done.
        -- intros r. unfold members. destruct (decide (roomId = r)) as [<-|Hne].
           ++ rewrite lookup_insert_eq. cbn.
              rewrite elem_of_difference, elem_of_singleton. tauto.
           ++ rewrite lookup_insert_ne by done. apply Hgone.
        -- intros r room' [= <-] _ Hroom'. rewrite lookup_insert_eq. cbn. congruence.
      * unfold handleLeaveRoom, get_socket_roomId, rooms_get, socket_leave.
        repeat (rewrite bind_run; cbn).
        change (props_of w0 sid) with (props_of w sid). rewrite Hs. cbn. rewrite Ht.
        repeat (rewrite bind_run; cbn). rewrite Hr. repeat (rewrite bind_run; cbn).
        eexists. split; [reflexivity|]. cbn. split_and!; try done.
        -- intros r. unfold members. destruct (decide (roomId = r)) as [<-|Hne].
           ++ rewrite lookup_insert_eq. cbn.
              rewrite elem_of_difference, elem_of_singleton. tauto.
           ++ rewrite lookup_insert_ne by done. apply Hgone.
        -- intros r room' [= <-] _ Hroom'. congruence.
    + unfold handleLeaveRoom, get_socket_roomId. repeat (rewrite bind_run; cbn).
      change (props_of w0 sid) with (props_of w sid). rewrite Hs. cbn. rewrite Ht.
      eexists. split; [reflexivity|]. split_and!; try done.
      intros r room' [= <-]. congruence.
  - unfold handleLeaveRoom, get_socket_roomId. repeat (rewrite bind_run; cbn).
    change (props_of w0 sid) with (props_of w sid). rewrite Hs.
    eexists. split; [reflexivity|]. by split_and!.
Qed.

Lemma disconnect_clears_socket_witness :
  exists w',
    on_disconnect "s1" (frozen_env 9000 "u") playing_world = (Returned tt, w') /\
    ("s1" ∉ members (adapter w') "abcdefgh") /\
    viewers <$> rooms w' !! "abcdefgh" = Some [mkViewer "s2" "bob" 2000].
Proof.
  destruct (disconnect_clears_socket (frozen_env 9000 "u") playing_world "s1")
    as (w' & Hrun & Hgone & Hroster & _).
  exists w'. split_and!; [exact Hrun | apply Hgone |].
  exact (Hroster "abcdefgh" playing_room eq_refl eq_refl eq_refl).
Defined.

(** ** Chat and reactions *)

Lemma substring_0_length (n : nat) (s : string) :
  String.length (substring 0 n s) = (n `min` String.length s)%nat.
Proof.
  revert n. induction s as [|c s IH]; intros [|n]; cbn; [done..|].
  by rewrite IH.
Qed.

Lemma substring_0_prefix (n : nat) (s : string) :
  String.prefix (substring 0 n s) s = true.
Proof.
  revert n. induction s as [|c s IH]; intros [|n]; cbn; [done..|].
  destruct (Ascii.ascii_dec c c); [apply IH | done].
Qed.

Lemma substring_0_all (n : nat) (s : string) :
  (String.length s <= n)%nat -> substring 0 n s = s.
Proof.
  revert n. induction s as [|c s IH]; intros [|n] H; cbn in *; [done | done | lia |].
  f_equal. apply IH. lia.
Qed.

Lemma last_slice_last_snoc {A : Type} (n : nat) (l : list A) (x : A) :
  (0 < n)%nat -> last (slice_last n (l ++ [x])) = Some x.
Proof.
  intros Hn. unfold slice_last. rewrite length_app. cbn [length].
  rewrite drop_app_le by lia. apply last_snoc.
Qed.

(** X11. [chatMessage] with a text, on an existing room, returns normally.
    The record it stores last in the room's chat is the record it sends to
    the whole Socket.IO room, the sender included when it is in the room. Its
    text is the first 500 characters of the payload (the payload itself when
    it has at most 500), its author is the name the socket got when it
    joined, undefined for a socket that never joined. Playback states,
    rosters and Socket.IO rooms are untouched. *)
Theorem chat_message_truncated_and_broadcast (env : Env) (w : World)
    (sid roomId text : string) (room : Room) :
  rooms w !! roomId = Some room ->
  exists (w' : World) (m : ChatMessage) (room' : Room),
    on_chatMessage sid roomId (Some text) env w = (Returned tt, w') /\
    emitted_by (on_chatMessage sid roomId (Some text)) env w
      = [(to_room roomId, newMessage m)] /\
    rooms w' !! roomId = Some room' /\
    last (chat room') = Some m /\
    viewers room' = viewers room /\ playbackState room' = playbackState room /\
    msg_message m = substring 0 500 text /\
    String.length (msg_message m) = (500 `min` String.length text)%nat /\
    String.prefix (msg_message m) text = true /\
    ((String.length text <= 500)%nat -> msg_message m = text) /\
    msg_username m = socket_username (props_of w sid) /\
    msg_id m = uuid_at env (uuid_reads w) /\
    msg_timestamp m = now_at env (clock_reads w) /\
    heap w' = heap w /\ adapter w' = adapter w /\ sockets w' = sockets w /\
    (sid ∈ members (adapter w) roomId ->
     sid ∈ recipients (adapter w') (to_room roomId)).
Proof.
  intros Hr. pose proof (on_chatMessage_run env w sid roomId text room Hr) as Hrun.
  cbv zeta in Hrun.
  set (m := mkChatMessage (uuid_at env (uuid_reads w)) (socket_username (props_of w sid))
                          (substring 0 500 text) (now_at env (clock_reads w))) in *.
  exists (on_chatMessage sid roomId (Some text) env w).2, m,
         (with_chat (slice_last 200 (chat room ++ [m])) room).
  rewrite Hrun. split; [reflexivity|]. world_fields.
  split_and!; try reflexivity.
  - unfold emitted_by. rewrite Hrun. world_fields. by rewrite drop_app_length.
  - apply lookup_insert_eq.
  - cbn [chat with_chat]. apply last_slice_last_snoc. lia.
  - apply substring_0_length.
  - apply substring_0_prefix.
  - apply substring_0_all.
  - done.
Qed.

Lemma chat_message_truncated_and_broadcast_witness :
  exists (w' : World) (m : ChatMessage),
    on_chatMessage "s2" "r" (Some "hello") (frozen_env 70 "id") watch_world
      = (Returned tt, w') /\
    emitted_by (on_chatMessage "s2" "r" (Some "hello")) (frozen_env 70 "id") watch_world
      = [(to_room "r", newMessage m)] /\
    msg_message m = "hello" /\ msg_username m = Some "bob".
Proof.
  destruct (chat_message_truncated_and_broadcast (frozen_env 70 "id") watch_world
              "s2" "r" "hello" watch_room eq_refl)
    as (w' & m & room' & Hrun & Hout & _ & _ & _ & _ & Htext & _ & _ & _ & Huser & _).
  exists w', m. split_and!; [exact Hrun | exact Hout | exact Htext | exact Huser].
Defined.

(** X12. A [chatMessage] payload without a message string: for a room that
    does not exist the handler returns at its room check, and for a room that
    exists it throws a TypeError at [message.substring], after it has drawn a
    uuid. In both cases no chat record is stored and nothing is emitted. *)
Theorem chat_message_without_text (env : Env) (w : World) (sid roomId : string) :
  (rooms w !! roomId = None ->
   on_chatMessage sid roomId None env w = (Returned tt, w)) /\
  (forall room : Room,
      rooms w !! roomId = Some room ->
      exists w',
        on_chatMessage sid roomId None env w = (Thrown "TypeError", w') /\
        rooms w' = rooms w /\ outbox w' = outbox w /\ heap w' = heap w /\
        uuid_reads w' = S (uuid_reads w) /\ clock_reads w' = clock_reads w).
Proof.
  split.
  - intros Hr. unfold on_chatMessage, rooms_get. rewrite !bind_run. cbn.
    by rewrite Hr.
  - intros room Hr. unfold on_chatMessage, rooms_get, get_socket_username.
    rewrite !bind_run. cbn. rewrite Hr. repeat (rewrite bind_run; cbn).
    eexists. split; [reflexivity|]. by split_and!.
Qed.

Lemma chat_message_without_text_witness :
  on_chatMessage "s1" "nope" None (frozen_env 70 "id") watch_world
    = (Returned tt, watch_world) /\
  exists w',
    on_chatMessage "s1" "r" None (frozen_env 70 "id") watch_world
      = (Thrown "TypeError", w') /\
    rooms w' = rooms watch_world /\ outbox w' = outbox watch_world.
Proof.
  destruct (chat_message_without_text (frozen_env 70 "id") watch_world "s1" "nope")
    as [Hnone _].
  destruct (chat_message_without_text (frozen_env 70 "id") watch_world "s1" "r")
    as [_ Hsome].
  split; [exact (Hnone eq_refl)|].
  destruct (Hsome watch_room eq_refl) as (w' & Hrun & Hrooms & Hout & _).
  exists w'. split_and!; [exact Hrun | exact Hrooms | exact Hout].
Defined.

(** X13. [reaction] on an existing room stores nothing: it returns normally,
    leaves rooms, playback states, sockets and Socket.IO rooms as they were,
    and sends one [newReaction] to the whole Socket.IO room, carrying the
    emoji string as received, the socket's name (undefined for a socket that
    never joined), a fresh uuid and the clock reading. *)
Theorem reaction_is_broadcast_only (env : Env) (w : World)
    (sid roomId emoji : string) (room : Room) :
  rooms w !! roomId = Some room ->
  exists w',
    on_reaction sid roomId emoji env w = (Returned tt, w') /\
    rooms w' = rooms w /\ heap w' = heap w /\ sync_rooms w' = sync_rooms w /\
    sockets w' = sockets w /\ adapter w' = adapter w /\
    emitted_by (on_reaction sid roomId emoji) env w
      = [(to_room roomId,
          newReaction (mkReaction (uuid_at env (uuid_reads w))
                                  (socket_username (props_of w sid)) emoji
                                  (now_at env (clock_reads w))))].
Proof.
  intros Hr.
  assert (Hrun : on_reaction sid roomId emoji env w =
    (Returned tt,
     with_outbox (fun o => (o ++ [(to_room roomId,
        newReaction (mkReaction (uuid_at env (uuid_reads w))
                       (socket_username (props_of w sid)) emoji
                       (now_at env (clock_reads w))))])%list)
       (tick_clock (tick_uuid w)))).
  { unfold on_reaction, rooms_get, get_socket_username.
    rewrite !bind_run. cbn. rewrite Hr. repeat (rewrite bind_run; cbn).
    reflexivity. }
  eexists. split; [exact Hrun|]. world_fields. split_and!; try reflexivity.
  unfold emitted_by. rewrite Hrun. world_fields. by rewrite drop_app_length.
Qed.

Lemma reaction_is_broadcast_only_witness :
  exists w',
    on_reaction "s9" "r" "+1" (frozen_env 70 "id") watch_world = (Returned tt, w') /\
    rooms w' = rooms watch_world /\
    emitted_by (on_reaction "s9" "r" "+1") (frozen_env 70 "id") watch_world
      = [(to_room "r", newReaction (mkReaction "id0" None "+1" 70))].
Proof.
  destruct (reaction_is_broadcast_only (frozen_env 70 "id") watch_world
              "s9" "r" "+1" watch_room eq_refl)
    as (w' & Hrun & Hrooms & _ & _ & _ & _ & Hout).
  exists w'. split_and!; [exact Hrun | exact Hrooms | exact Hout].
Defined.

(** ** Creating and deleting rooms *)

Lemma api_deleteRoom_run (env : Env) (w : World) (roomId : string) (room : Room) :
  rooms w !! roomId = Some room ->
  api_deleteRoom roomId env w =
    (Returned json_success,
     with_rooms (delete roomId) (with_sync_rooms (JsMap.delete roomId) w)).
Proof.
  intros Hr. unfold api_deleteRoom, SyncService.deleteRoom.
  rewrite bind_run. cbn. rewrite Hr. repeat (rewrite bind_run; cbn). reflexivity.
Qed.

Lemma api_createRoom_run (env : Env) (w : World) (movieId : string)
    (name : option string) (movie : Movie) :
  movies w !! movieId = Some movie ->
  transcodeStatus movie = completed ->
  let roomId := substring 0 8 (uuid_at env (uuid_reads w)) in
  let l := fresh (dom (heap w)) in
  let t (k : nat) := now_at env (k + clock_reads w) in
  let room := mkRoom roomId (js_or name ("Room " ++ roomId)) movieId (t 0%nat)
                     [] l [] [] in
  api_createRoom movieId name env w =
    (Returned json_success,
     mkWorld (<[l := mkPlaybackState false 0 (t 1%nat)]> (heap w))
             (<[roomId := room]> (rooms w)) (movies w)
             (JsMap.set roomId (mkSyncRoom roomId l 2%Q (t 2%nat)) (sync_rooms w))
             (sockets w) (adapter w) (outbox w)
             (3 + clock_reads w) (S (uuid_reads w))).
Proof.
  intros Hm Hs roomId l t room. unfold api_createRoom, SyncService.createRoom.
  rewrite bind_run. cbn. rewrite Hm, Hs. repeat (rewrite bind_run; cbn).
  unfold modify. f_equal.
Qed.

(** X15. [POST /api/rooms] refuses a movie that is unknown (404) or whose
    transcoding has not completed (400); a refused request changes nothing:
    no room, no playback state, and no uuid or clock reading is used. *)
Theorem createRoom_requires_completed_movie (env : Env) (w : World)
    (movieId : string) (name : option string) :
  (movies w !! movieId = None ->
   api_createRoom movieId name env w
     = (Returned (status_error 404 "Movie not found"), w)) /\
  (forall movie : Movie,
      movies w !! movieId = Some movie ->
      transcodeStatus movie ≠ completed ->
      api_createRoom movieId name env w
        = (Returned (status_error 400 "Movie transcoding not completed"), w)).
Proof.
  split.
  - intros Hm. unfold api_createRoom. rewrite bind_run. cbn. by rewrite Hm.
  - intros movie Hm Hs. unfold api_createRoom. rewrite bind_run. cbn. rewrite Hm.
    by destruct (transcodeStatus movie).
Qed.

Lemma createRoom_requires_completed_movie_witness :
  let w := mkWorld ∅ ∅ {[ "m2" := mkMovie "m2" processing ]} [] ∅ ∅ [] 0 0 in
  api_createRoom "m1" None (frozen_env 0 "u") w
    = (Returned (status_error 404 "Movie not found"), w) /\
  api_createRoom "m2" None (frozen_env 0 "u") w
    = (Returned (status_error 400 "Movie transcoding not completed"), w).
Proof.
  intros w.
  destruct (createRoom_requires_completed_movie (frozen_env 0 "u") w "m1" None)
    as [H404 _].
  destruct (createRoom_requires_completed_movie (frozen_env 0 "u") w "m2" None)
    as [_ H400].
  split; [exact (H404 eq_refl)|].
  apply (H400 (mkMovie "m2" processing)); [reflexivity | discriminate].
Defined.

(** X16. [POST /api/rooms] for a movie whose transcoding completed answers
    success and registers a room under the first 8 characters of the uuid,
    replacing any room already under that id. The room is named as asked, or
    "Room " and its id; its roster and chat are empty; its playback state is
    a new object, paused at 0, which [SyncService] receives by reference. No
    other room and no other playback state changes, and nothing is emitted. *)
Theorem createRoom_starts_paused (env : Env) (w : World) (movieKey : string)
    (name : option string) (movie : Movie) :
  movies w !! movieKey = Some movie ->
  transcodeStatus movie = completed ->
  let roomId := substring 0 8 (uuid_at env (uuid_reads w)) in
  exists (w' : World) (room : Room) (sr : SyncRoom),
    api_createRoom movieKey name env w = (Returned json_success, w') /\
    rooms w' !! roomId = Some room /\
    JsMap.get roomId (sync_rooms w') = Some sr /\
    sync_playbackState sr = playbackState room /\
    heap w !! playbackState room = None /\
    heap w' !! playbackState room
      = Some (mkPlaybackState false 0 (now_at env (1 + clock_reads w))) /\
    (forall l : loc, l ≠ playbackState room -> heap w' !! l = heap w !! l) /\
    room_id room = roomId /\ room_name room = js_or name ("Room " ++ roomId) /\
    movieId room = movieKey /\ viewers room = [] /\ chat room = [] /\
    (String.length roomId <= 8)%nat /\
    (forall r : string, r ≠ roomId ->
       rooms w' !! r = rooms w !! r /\
       JsMap.get r (sync_rooms w') = JsMap.get r (sync_rooms w)) /\
    outbox w' = outbox w /\ sockets w' = sockets w /\ adapter w' = adapter w.
Proof.
  intros Hm Hs roomId.
  pose proof (api_createRoom_run env w movieKey name movie Hm Hs) as Hrun.
  cbv zeta in Hrun. fold roomId in Hrun.
  eexists _, _, _. split; [exact Hrun|]. world_fields.
  split_and!.
  - apply lookup_insert_eq.
  - apply jsmap_get_set_eq.
  - reflexivity.
  - cbn [playbackState]. apply not_elem_of_dom, is_fresh.
  - cbn [playbackState]. apply lookup_insert_eq.
  - cbn [playbackState]. intros l Hne. by apply lookup_insert_ne.
  - reflexivity.
  - reflexivity.
  - reflexivity.
  - reflexivity.
  - reflexivity.
  - unfold roomId. rewrite substring_0_length. lia.
  - intros r Hne. split.
    + by apply lookup_insert_ne.
    + by apply jsmap_get_set_ne.
  - reflexivity.
  - reflexivity.
  - reflexivity.
Qed.

Lemma createRoom_starts_paused_witness :
  exists (w' : World) (room : Room),
    api_createRoom "m1" None (frozen_env 100 "0123456789") movie_world
      = (Returned json_success, w') /\
    rooms w' !! "01234567" = Some room /\
    room_name room = "Room 01234567" /\
    heap w' !! playbackState room = Some (mkPlaybackState false 0 100).
Proof.
  destruct (createRoom_starts_paused (frozen_env 100 "0123456789") movie_world "m1"
              None (mkMovie "m1" completed) eq_refl eq_refl)
    as (w' & room & sr & Hrun & Hroom & _ & _ & _ & Hheap & _ & _ & Hname & _).
  exists w', room. split_and!; [exact Hrun | exact Hroom | exact Hname | exact Hheap].
Defined.

(** ** The heartbeat under a running clock *)

Lemma playing_ids_cons (h : gmap loc PlaybackState) (roomId : string) (sr : SyncRoom)
    (rest : list (string * SyncRoom)) :
  playing_ids h ((roomId, sr) :: rest)
  = if is_playing_entry h (roomId, sr)
    then roomId :: playing_ids h rest else playing_ids h rest.
Proof.
  unfold playing_ids. rewrite filter_cons.
  destruct (is_playing_entry h (roomId, sr)) eqn:E.
  - by rewrite decide_True.
  - by rewrite decide_False.
Qed.

Lemma forEach_heartbeat_general (env : Env) (entries : list (string * SyncRoom)) :
  forall w : World,
    (forall (roomId : string) (sr : SyncRoom),
        (roomId, sr) ∈ entries ->
        JsMap.get roomId (sync_rooms w) = Some sr /\
        is_Some (heap w !! sync_playbackState sr)) ->
    exists w',
      SyncService.forEach SyncService.heartbeat_callback entries env w
        = (Returned tt, w') /\
      heap w' = heap w /\ rooms w' = rooms w /\ sync_rooms w' = sync_rooms w /\
      sockets w' = sockets w /\ adapter w' = adapter w /\
      uuid_reads w' = uuid_reads w /\
      outbox w' = (outbox w ++ heartbeats_from env (heap w) (clock_reads w) entries)%list /\
      clock_reads w' = (clock_reads w + 2 * length (playing_ids (heap w) entries))%nat.
Proof.
  induction entries as [|[roomId sr] rest IH]; intros w Hent.
  - exists w. split; [reflexivity|]. cbn. rewrite app_nil_r.
    split_and!; first [done | lia].
  - destruct (Hent roomId sr) as [Hget [a Ha]]; [left|].
    assert (Hrest : forall r s, (r, s) ∈ rest ->
              JsMap.get r (sync_rooms w) = Some s /\
              is_Some (heap w !! sync_playbackState s)).
    { intros r s Hin. apply Hent. by right. }
    cbn [SyncService.forEach heartbeats_from]. rewrite Ha.
    rewrite playing_ids_cons. unfold is_playing_entry. cbn [snd]. rewrite Ha.
    rewrite bind_run. unfold SyncService.heartbeat_callback at 1.
    rewrite bind_run, (load_run _ _ _ _ Ha).
    destruct (isPlaying a) eqn:Hp.
    + rewrite bind_run, (getPlaybackState_run _ _ _ _ _ Hget Ha), Hp.
      cbn [clock_reads tick_clock]. unfold io_to_emit, emit, modify.
      set (w1 := with_outbox _ _).
      destruct (IH w1 Hrest)
        as (w' & Hrun & Hh & Hr & Hs & Hso & Had & Hu & Hout & Hclk).
      exists w'. split; [exact Hrun|]. rewrite Hh, Hr, Hs, Hso, Had, Hu, Hout, Hclk.
      split_and!; try reflexivity.
      * unfold w1. world_fields. by rewrite <- app_assoc.
      * unfold w1. world_fields. cbn [length]. lia.
    + destruct (IH w Hrest) as (w' & Hrun & Hfacts).
      exists w'. split; [exact Hrun | exact Hfacts].
Qed.

Lemma heartbeats_from_targets (env : Env) (h : gmap loc PlaybackState)
    (entries : list (string * SyncRoom)) :
  forall k : nat,
    (heartbeats_from env h k entries).*1 = to_room <$> playing_ids h entries.
Proof.
  induction entries as [|[roomId sr] rest IH]; intros k; [done|].
  cbn [heartbeats_from]. rewrite playing_ids_cons. unfold is_playing_entry. cbn [snd].
  destruct (h !! sync_playbackState sr) as [a|]; [|apply IH].
  destruct (isPlaying a); [|apply IH].
  rewrite !fmap_cons. cbn [fst]. by rewrite IH.
Qed.

Lemma heartbeats_from_shape (env : Env) (w : World)
    (entries : list (string * SyncRoom)) :
  (forall (roomId : string) (sr : SyncRoom),
      (roomId, sr) ∈ entries -> JsMap.get roomId (sync_rooms w) = Some sr) ->
  forall k0 k : nat, (k0 <= k)%nat ->
    Forall (fun m => exists (roomId : string) (sr : SyncRoom) (a : PlaybackState) (i : nat),
              m = (to_room roomId,
                   syncHeartbeat (Some (mkPlaybackReport true
                                          (position_at a (now_at env i))
                                          (now_at env (S i))))) /\
              JsMap.get roomId (sync_rooms w) = Some sr /\
              heap w !! sync_playbackState sr = Some a /\
              isPlaying a = true /\ (k0 <= i)%nat)
           (heartbeats_from env (heap w) k entries).
Proof.
  intros Hent k0. induction entries as [|[roomId sr] rest IH]; intros k Hk.
  - constructor.
  - assert (Hrest : forall r s, (r, s) ∈ rest -> JsMap.get r (sync_rooms w) = Some s).
    { intros r s Hin. apply Hent. by right. }
    cbn [heartbeats_from].
    destruct (heap w !! sync_playbackState sr) as [a|] eqn:Ha; [|by apply IH].
    destruct (isPlaying a) eqn:Hp; [|by apply IH].
    constructor; [|apply IH; [done | lia]].
    exists roomId, sr, a, k. split_and!; try done. apply Hent. left.
Qed.

Lemma jsmap_get_Some_elem {V : Type} (k : string) (v : V) (m : list (string * V)) :
  JsMap.get k m = Some v -> (k, v) ∈ m.
Proof.
  induction m as [|[k' v'] m IH]; cbn [JsMap.get]; [done|].
  destruct (decide (k = k')) as [->|Hne].
  - intros [= ->]. left.
  - intros H. right. by apply IH.
Qed.

Lemma playing_ids_elem (h : gmap loc PlaybackState) (roomId : string)
    (entries : list (string * SyncRoom)) :
  NoDup (JsMap.keys entries) ->
  roomId ∈ playing_ids h entries
  <-> exists sr, JsMap.get roomId entries = Some sr
                 /\ is_playing_entry h (roomId, sr) = true.
Proof.
  intros Hnd. unfold playing_ids. rewrite list_elem_of_fmap. split.
  - intros ([r sr] & -> & Hin). apply list_elem_of_filter in Hin as [Hp Hin].
    exists sr. split; [by apply jsmap_get_elem_of | done].
  - intros (sr & Hget & Hp). exists (roomId, sr). split; [done|].
    apply list_elem_of_filter. split; [done | by apply jsmap_get_Some_elem].
Qed.

(** Among the heartbeats of a tick, those addressed to one room: one for a
    playing room, carrying two successive clock readings of the tick, none
    otherwise. *)
Lemma heartbeats_from_for (env : Env) (h : gmap loc PlaybackState) (roomId : string)
    (entries : list (string * SyncRoom)) :
  NoDup (JsMap.keys entries) ->
  forall k : nat, exists i : nat,
    (k <= i)%nat /\
    (roomId ∈ playing_ids h entries ->
     (S i < k + 2 * length (playing_ids h entries))%nat) /\
    filter (fun m => addressed_to roomId m.1 = true) (heartbeats_from env h k entries)
    = match JsMap.get roomId entries with
      | Some sr =>
          match h !! sync_playbackState sr with
          | Some a =>
              if isPlaying a
              then [(to_room roomId,
                     syncHeartbeat (Some (mkPlaybackReport true
                                            (position_at a (now_at env i))
                                            (now_at env (S i)))))]
              else []
          | None => []
          end
      | None => []
      end.
Proof.
  induction entries as [|[r sr] rest IH]; intros Hnd k.
  - exists k. split_and!; [lia | intros H; by apply elem_of_nil in H | done].
  - unfold JsMap.keys in Hnd. rewrite fmap_cons in Hnd.
    apply NoDup_cons in Hnd as [Hr Hnd]. cbn [fst] in Hr.
    apply (proj2 (jsmap_get_None r rest)) in Hr.
    cbn [heartbeats_from JsMap.get]. rewrite playing_ids_cons.
    unfold is_playing_entry. cbn [snd].
    destruct (h !! sync_playbackState sr) as [a|] eqn:Ha;
      [destruct (isPlaying a) eqn:Hp|].
    + destruct (IH Hnd (S (S k))) as (i & Hi & Hb & Hf).
      destruct (decide (roomId = r)) as [->|Hne].
      * exists k. split_and!; [lia | intros _; cbn [length]; lia |].
        rewrite filter_cons_True by (cbn; by rewrite bool_decide_eq_true).
        by rewrite Hf, Hr, Ha, Hp.
      * exists i. split_and!; [lia | |].
        -- intros Hin. apply elem_of_cons in Hin as [?|Hin]; [done|].
           specialize (Hb Hin). cbn [length]. lia.
        -- rewrite filter_cons_False; [exact Hf|].
           cbn. rewrite bool_decide_eq_true. congruence.
    + destruct (IH Hnd k) as (i & Hi & Hb & Hf). exists i.
      split_and!; [done..|]. rewrite Hf.
      destruct (decide (roomId = r)) as [->|Hne]; [|done]. by rewrite Hr, Ha, Hp.
    + destruct (IH Hnd k) as (i & Hi & Hb & Hf). exists i.
      split_and!; [done..|]. rewrite Hf.
      destruct (decide (roomId = r)) as [->|Hne]; [|done]. by rewrite Hr, Ha.
Qed.

Lemma targets_elsewhere (roomId : string) (l : list (Target * ServerEvent))
    (ids : list string) :
  l.*1 = to_room <$> ids -> roomId ∉ ids ->
  Forall (fun m => exists r, m.1 = to_room r /\ r ≠ roomId) l.
Proof.
  revert ids. induction l as [|[t ev] l IH]; intros [|r ids] Ht Hnot;
    try discriminate; constructor.
  - injection Ht as -> Ht. exists r. split; [done|]. intros ->. apply Hnot. left.
  - injection Ht as _ Ht. apply (IH ids Ht). intros H. apply Hnot. by right.
Qed.

(** A tick in a well-formed world returns, and what it emits is
    [heartbeats_from] the clock reading it starts at. *)
Lemma heartbeat_emitted (env : Env) (w : World) :
  wf_world w ->
  exists w',
    SyncService.heartbeat env w = (Returned tt, w') /\
    emitted_by SyncService.heartbeat env w
      = heartbeats_from env (heap w) (clock_reads w) (sync_rooms w) /\
    heap w' = heap w /\ rooms w' = rooms w /\ sync_rooms w' = sync_rooms w /\
    sockets w' = sockets w /\ adapter w' = adapter w /\
    clock_reads w'
      = (clock_reads w + 2 * length (playing_ids (heap w) (sync_rooms w)))%nat.
Proof.
  intros (Hnd & Hheap & _).
  assert (Hent : forall roomId sr, (roomId, sr) ∈ sync_rooms w ->
            JsMap.get roomId (sync_rooms w) = Some sr /\
            is_Some (heap w !! sync_playbackState sr)).
  { intros roomId sr Hin. pose proof (jsmap_get_elem_of _ _ _ Hnd Hin) as Hget.
    split; [exact Hget | by apply (Hheap roomId)]. }
  destruct (forEach_heartbeat_general env (sync_rooms w) w Hent)
    as (w' & Hrun & Hh & Hr & Hs & Hso & Had & Hu & Hout & Hclk).
  assert (Hrun' : SyncService.heartbeat env w = (Returned tt, w')).
  { unfold SyncService.heartbeat. rewrite bind_run. exact Hrun. }
  exists w'. split_and!; try done.
  unfold emitted_by. rewrite Hrun'. cbn [snd]. by rewrite Hout, drop_app_length.
Qed.

(** A tick addresses nothing to an id that is not registered with
    [SyncService]. *)
Lemma heartbeat_skips_unregistered (env : Env) (w : World) (roomId : string) :
  wf_world w ->
  JsMap.get roomId (sync_rooms w) = None ->
  Forall (fun m => exists r, m.1 = to_room r /\ r ≠ roomId)
         (emitted_by SyncService.heartbeat env w).
Proof.
  intros Hwf Hnone. destruct (heartbeat_emitted env w Hwf) as (w' & _ & Hem & _).
  rewrite Hem. eapply targets_elsewhere; [apply heartbeats_from_targets|].
  destruct Hwf as (Hnd & _). rewrite (playing_ids_elem _ _ _ Hnd).
  intros (sr & Hget & _). congruence.
Qed.

(** C5. In a well-formed world a heartbeat tick, whatever the clock reads,
    returns normally and changes neither rooms nor playback states, and every
    message it emits goes to the whole Socket.IO room of a playing room of the
    registry. For a room of server.js: when its playback state is playing,
    exactly one message of the tick is addressed to its Socket.IO room,
    [syncHeartbeat] with [isPlaying: true], the position extrapolated at a
    clock reading the tick took and the next reading as [serverTime]; when it
    is paused, no message is addressed to it, every message of the tick being
    for another room. A state [{isPlaying: true, currentTime: 10,
    lastUpdate: T}] read at [T + 5000] ms gives position 15. *)
Theorem heartbeat_reaches_playing_rooms (env : Env) (w : World)
    (roomId : string) (room : Room) (a : PlaybackState) :
  wf_world w ->
  rooms w !! roomId = Some room ->
  heap w !! playbackState room = Some a ->
  exists w',
    SyncService.heartbeat env w = (Returned tt, w') /\
    heap w' = heap w /\ rooms w' = rooms w /\ adapter w' = adapter w /\
    (emitted_by SyncService.heartbeat env w).*1
      = to_room <$> playing_ids (heap w) (sync_rooms w) /\
    (roomId ∈ playing_ids (heap w) (sync_rooms w) <-> isPlaying a = true) /\
    (isPlaying a = true ->
     exists i : nat,
       (clock_reads w <= i)%nat /\ (S i < clock_reads w')%nat /\
       filter (fun m => addressed_to roomId m.1 = true)
              (emitted_by SyncService.heartbeat env w)
       = [(to_room roomId,
           syncHeartbeat (Some (mkPlaybackReport true
                                  (position_at a (now_at env i))
                                  (now_at env (S i)))))] /\
       recipients (adapter w') (to_room roomId) = members (adapter w) roomId /\
       (forall T : Z, a = mkPlaybackState true 10 T -> now_at env i = T + 5000 ->
                      (position_at a (now_at env i) == 15)%Q)) /\
    (isPlaying a = false ->
     filter (fun m => addressed_to roomId m.1 = true)
            (emitted_by SyncService.heartbeat env w) = [] /\
     Forall (fun m => exists r, m.1 = to_room r /\ r ≠ roomId)
            (emitted_by SyncService.heartbeat env w)).
Proof.
  intros Hwf Hr Ha. pose proof Hwf as (Hnd & Hheap & Hlink).
  destruct (heartbeat_emitted env w Hwf)
    as (w' & Hrun & Hem & Hh & Hrooms & _ & _ & Had & Hclk).
  destruct (Hlink roomId room Hr) as (sr & Hget & Hloc).
  assert (Hin : roomId ∈ playing_ids (heap w) (sync_rooms w) <-> isPlaying a = true).
  { rewrite (playing_ids_elem _ _ _ Hnd). unfold is_playing_entry. cbn [snd]. split.
    - intros (sr' & Hget' & Hp). rewrite Hget in Hget'. injection Hget' as <-.
      by rewrite Hloc, Ha in Hp.
    - intros Hp. exists sr. split; [done|]. by rewrite Hloc, Ha. }
  destruct (heartbeats_from_for env (heap w) roomId (sync_rooms w) Hnd (clock_reads w))
    as (i & Hi & Hb & Hf).
  rewrite Hget, Hloc, Ha in Hf.
  exists w'. rewrite Hem. split_and!; try done.
  - apply heartbeats_from_targets.
  - intros Hp. rewrite Hp in Hf. exists i.
    split_and!; [done | rewrite Hclk; apply Hb, Hin, Hp | exact Hf | by rewrite Had |].
    intros T -> HT. rewrite HT. unfold position_at. cbn.
    replace (T + 5000 - T) with 5000 by lia. reflexivity.
  - intros Hp. rewrite Hp in Hf. split; [exact Hf|].
    eapply targets_elsewhere; [apply heartbeats_from_targets|].
    rewrite Hin, Hp. done.
Qed.

Lemma heartbeat_reaches_playing_rooms_witness :
  let env := linear_env 6993 1 "u" in
  exists w',
    SyncService.heartbeat env playing_world = (Returned tt, w') /\
    rooms w' = rooms playing_world /\
    (emitted_by SyncService.heartbeat env playing_world).*1 = [to_room "abcdefgh"] /\
    (exists i : nat,
       filter (fun m => addressed_to "abcdefgh" m.1 = true)
              (emitted_by SyncService.heartbeat env playing_world)
       = [(to_room "abcdefgh",
           syncHeartbeat (Some (mkPlaybackReport true
                                  (position_at (mkPlaybackState true 10 2000)
                                               (now_at env i))
                                  (now_at env (S i)))))]) /\
    (position_at (mkPlaybackState true 10 2000) (now_at env 7) == 15)%Q.
Proof.
  intros env.
  destruct (heartbeat_reaches_playing_rooms env playing_world
               "abcdefgh" playing_room (mkPlaybackState true 10 2000) wf_playing_world)
    as (w' & Hrun & _ & Hrooms & _ & Hto & _ & Hbeat & _);
    [reflexivity | reflexivity |].
  destruct (Hbeat eq_refl) as (i & _ & _ & Hone & _).
  exists w'. split_and!; [exact Hrun | exact Hrooms | exact Hto | by exists i |].
  reflexivity.
Defined.

(** X17. A heartbeat tick in a well-formed world, whatever the clock reads:
    it returns normally and changes nothing but the outbox and the number of
    clock readings. It emits one message per playing room of
    [SyncService.rooms], in the order the rooms were registered, and takes
    two clock readings for each. Every message is a [syncHeartbeat] with
    [isPlaying: true] for a playing room, whose position is extrapolated at
    one reading and whose [serverTime] is the next reading. *)
Theorem heartbeat_in_registry_order (env : Env) (w : World) :
  wf_world w ->
  exists w',
    SyncService.heartbeat env w = (Returned tt, w') /\
    (emitted_by SyncService.heartbeat env w).*1
      = to_room <$> playing_ids (heap w) (sync_rooms w) /\
    Forall (fun m => exists (roomId : string) (sr : SyncRoom) (a : PlaybackState) (i : nat),
              m = (to_room roomId,
                   syncHeartbeat (Some (mkPlaybackReport true
                                          (position_at a (now_at env i))
                                          (now_at env (S i))))) /\
              JsMap.get roomId (sync_rooms w) = Some sr /\
              heap w !! sync_playbackState sr = Some a /\
              isPlaying a = true /\ (clock_reads w <= i)%nat)
           (emitted_by SyncService.heartbeat env w) /\
    clock_reads w'
      = (clock_reads w + 2 * length (playing_ids (heap w) (sync_rooms w)))%nat /\
    heap w' = heap w /\ rooms w' = rooms w /\ sync_rooms w' = sync_rooms w /\
    sockets w' = sockets w /\ adapter w' = adapter w /\ uuid_reads w' = uuid_reads w.
Proof.
  intros (Hnd & Hheap & _).
  assert (Hent : forall roomId sr, (roomId, sr) ∈ sync_rooms w ->
            JsMap.get roomId (sync_rooms w) = Some sr /\
            is_Some (heap w !! sync_playbackState sr)).
  { intros roomId sr Hin. pose proof (jsmap_get_elem_of _ _ _ Hnd Hin) as Hget.
    split; [exact Hget | by apply (Hheap roomId)]. }
  destruct (forEach_heartbeat_general env (sync_rooms w) w Hent)
    as (w' & Hrun & Hh & Hr & Hs & Hso & Had & Hu & Hout & Hclk).
  assert (Hrun' : SyncService.heartbeat env w = (Returned tt, w')).
  { unfold SyncService.heartbeat. rewrite bind_run. exact Hrun. }
  assert (Hem : emitted_by SyncService.heartbeat env w
                = heartbeats_from env (heap w) (clock_reads w) (sync_rooms w)).
  { unfold emitted_by. rewrite Hrun'. cbn [snd]. by rewrite Hout, drop_app_length. }
  exists w'. rewrite Hem. split_and!; try done.
  - apply heartbeats_from_targets.
  - apply heartbeats_from_shape; [|done]. intros roomId sr Hin. by apply Hent.
Qed.

Lemma heartbeat_in_registry_order_witness :
  let env := linear_env 0 1000 "u" in
  let w := (on_play "s1" "roomid-1" 5 env two_room_world).2 in
  exists w',
    SyncService.heartbeat env w = (Returned tt, w') /\
    (emitted_by SyncService.heartbeat env w).*1 = [to_room "roomid-1"] /\
    clock_reads w' = (clock_reads w + 2)%nat.
Proof.
  intros env w.
  assert (Hwf : wf_world w).
  { apply (wf_perform (op_event "s1" (play "roomid-1" 5)) env).
    apply wf_fold_perform, wf_movie_world. }
  destruct (heartbeat_in_registry_order env w Hwf)
    as (w' & Hrun & Hto & _ & Hclk & _).
  exists w'. split_and!; [exact Hrun | exact Hto | exact Hclk].
Defined.

(** X14. [DELETE /api/rooms/:roomId]: for an unknown id the answer is 404 and
    nothing changes. For a known id the room leaves both registries, the
    other rooms stay, and nobody is told: nothing is emitted and the viewers'
    sockets keep their [roomId] and stay in the Socket.IO room. A heartbeat
    tick in the world after the deletion, whatever the clock reads and
    whatever the room's playback state was, addresses no message to that
    room; the same holds in every well-formed world whose [SyncService]
    registry has no entry for the id. *)
Theorem deleteRoom_forgets_room (env : Env) (w : World) (roomId : string) :
  (rooms w !! roomId = None ->
   api_deleteRoom roomId env w = (Returned (status_error 404 "Room not found"), w)) /\
  (forall room : Room,
      rooms w !! roomId = Some room ->
      exists w',
        api_deleteRoom roomId env w = (Returned json_success, w') /\
        rooms w' !! roomId = None /\
        JsMap.get roomId (sync_rooms w') = None /\
        (forall r : string, r ≠ roomId ->
           rooms w' !! r = rooms w !! r /\
           JsMap.get r (sync_rooms w') = JsMap.get r (sync_rooms w)) /\
        heap w' = heap w /\ sockets w' = sockets w /\ adapter w' = adapter w /\
        outbox w' = outbox w /\
        (wf_world w ->
         wf_world w' /\
         forall env' : Env,
           Forall (fun m => exists r, m.1 = to_room r /\ r ≠ roomId)
                  (emitted_by SyncService.heartbeat env' w'))) /\
  (forall (env' : Env) (w'' : World),
      wf_world w'' -> JsMap.get roomId (sync_rooms w'') = None ->
      Forall (fun m => exists r, m.1 = to_room r /\ r ≠ roomId)
             (emitted_by SyncService.heartbeat env' w'')).
Proof.
  split_and!.
  - intros Hr. unfold api_deleteRoom. rewrite bind_run. cbn. by rewrite Hr.
  - intros room Hr. rewrite (api_deleteRoom_run env w roomId room Hr).
    eexists. split; [reflexivity|]. world_fields. split_and!; try reflexivity.
    + apply lookup_delete_eq.
    + apply jsmap_get_delete_eq.
    + intros r Hne. split.
      * by apply lookup_delete_ne.
      * by apply jsmap_get_delete_ne.
    + intros Hwf.
      pose proof (wf_deleteRoom env w roomId Hwf) as Hwf'.
      rewrite (api_deleteRoom_run env w roomId room Hr) in Hwf'. cbn [snd] in Hwf'.
      split; [exact Hwf'|]. intros env'.
      apply heartbeat_skips_unregistered; [exact Hwf'|].
      world_fields. apply jsmap_get_delete_eq.
  - intros env' w'' Hwf Hnone. by apply heartbeat_skips_unregistered.
Qed.

Lemma deleteRoom_forgets_room_witness :
  api_deleteRoom "nope" (frozen_env 9000 "u") playing_world
    = (Returned (status_error 404 "Room not found"), playing_world) /\
  exists w',
    api_deleteRoom "abcdefgh" (frozen_env 9000 "u") playing_world
      = (Returned json_success, w') /\
    rooms w' !! "abcdefgh" = None /\
    adapter w' = adapter playing_world /\
    Forall (fun m => exists r, m.1 = to_room r /\ r ≠ "abcdefgh")
           (emitted_by SyncService.heartbeat (linear_env 9000 1 "u") w').
Proof.
  destruct (deleteRoom_forgets_room (frozen_env 9000 "u") playing_world "nope")
    as (Hnone & _ & _).
  destruct (deleteRoom_forgets_room (frozen_env 9000 "u") playing_world "abcdefgh")
    as (_ & Hsome & _).
  split; [exact (Hnone eq_refl)|].
  destruct (Hsome playing_room eq_refl)
    as (w' & Hrun & Hgone & _ & _ & _ & _ & Had & _ & Hbeat).
  exists w'. split_and!; [exact Hrun | exact Hgone | exact Had |].
  apply (Hbeat wf_playing_world).
Defined.

(** ** Reachable worlds *)

(** X18. Whatever movies the process holds at start, whatever operations it
    then performs (client events on any sockets, room creation and deletion,
    heartbeat ticks) and whatever the clock and the uuid generator answer,
    the world stays well-formed: [SyncService.rooms] has one entry per id,
    and every room of server.js has an entry there that holds the very same
    playback-state object, which is allocated. *)
Theorem reachable_worlds_well_formed (mv : gmap string Movie) (env : Env)
    (ops : list Operation) :
  wf_world (run_ops env ops (boot_world mv)).
Proof.
  apply wf_fold_perform. split_and!; [apply NoDup_nil_2 | done | done].
Qed.

Lemma sync_lookups_unknown (env : Env) (w : World) (roomId : string) :
  JsMap.get roomId (sync_rooms w) = None ->
  SyncService.getCurrentTime roomId env w = (Returned 0%Q, w) /\
  SyncService.getPlaybackState roomId env w = (Returned None, w).
Proof.
  intros Hget.
  unfold SyncService.getCurrentTime, SyncService.getPlaybackState, SyncService.rooms_get.
  rewrite !bind_run. cbn. by rewrite Hget.
Qed.

(** X21. The registry of [SyncService] on its own. A room created without a
    playback state gets a new one, paused at 0, which [getPlaybackState]
    reports; creating it again under the same id keeps one entry for the id;
    once deleted, [getCurrentTime] answers 0 and [getPlaybackState] answers
    null, as for any id that was never registered. *)
Theorem sync_registry_create_delete (env : Env) (w : World) (roomId : string) :
  let t (k : nat) := now_at env (k + clock_reads w) in
  let w1 := (SyncService.createRoom roomId None env w).2 in
  let w2 := (SyncService.deleteRoom roomId env w1).2 in
  (SyncService.getPlaybackState roomId env w1).1
    = Returned (Some (mkPlaybackReport false 0 (t 2%nat))) /\
  (SyncService.getCurrentTime roomId env w1).1 = Returned 0%Q /\
  (NoDup (JsMap.keys (sync_rooms w)) ->
   NoDup (JsMap.keys (sync_rooms w1)) /\
   NoDup (JsMap.keys (sync_rooms (SyncService.createRoom roomId None env w1).2))) /\
  JsMap.get roomId (sync_rooms w2) = None /\
  (SyncService.getCurrentTime roomId env w2).1 = Returned 0%Q /\
  (SyncService.getPlaybackState roomId env w2).1 = Returned None /\
  (forall r : string, r ≠ roomId ->
     JsMap.get r (sync_rooms w2) = JsMap.get r (sync_rooms w)) /\
  rooms w2 = rooms w.
Proof.
  intros t w1 w2.
  assert (Hw1 : w1 = with_sync_rooms
            (JsMap.set roomId (mkSyncRoom roomId (fresh (dom (heap w))) 2%Q (t 1%nat)))
            (tick_clock (with_heap (insert (fresh (dom (heap w)))
                                           (mkPlaybackState false 0 (t 0%nat)))
                                   (tick_clock w)))).
  { unfold w1, SyncService.createRoom. repeat (rewrite bind_run; cbn). reflexivity. }
  assert (Hget1 : JsMap.get roomId (sync_rooms w1)
                  = Some (mkSyncRoom roomId (fresh (dom (heap w))) 2%Q (t 1%nat))).
  { rewrite Hw1. world_fields. apply jsmap_get_set_eq. }
  assert (Hheap1 : heap w1 !! fresh (dom (heap w))
                   = Some (mkPlaybackState false 0 (t 0%nat))).
  { rewrite Hw1. world_fields. apply lookup_insert_eq. }
  assert (Hget2 : JsMap.get roomId (sync_rooms w2) = None).
  { unfold w2, SyncService.deleteRoom, modify. world_fields.
    apply jsmap_get_delete_eq. }
  split_and!.
  - rewrite (getPlaybackState_run env w1 roomId _ _ Hget1 Hheap1).
    cbn [fst isPlaying]. rewrite position_at_paused by done.
    rewrite Hw1. world_fields. reflexivity.
  - rewrite (getCurrentTime_run env w1 roomId _ _ Hget1 Hheap1).
    cbn [fst]. by rewrite position_at_paused.
  - intros Hnd. split.
    + rewrite Hw1. world_fields. by apply jsmap_set_NoDup.
    + unfold SyncService.createRoom. repeat (rewrite bind_run; cbn).
      apply jsmap_set_NoDup. rewrite Hw1. world_fields. by apply jsmap_set_NoDup.
  - exact Hget2.
  - by rewrite (proj1 (sync_lookups_unknown env w2 roomId Hget2)).
  - by rewrite (proj2 (sync_lookups_unknown env w2 roomId Hget2)).
  - intros r Hne. unfold w2, SyncService.deleteRoom, modify. world_fields.
    rewrite jsmap_get_delete_ne by done. rewrite Hw1. world_fields.
    by rewrite jsmap_get_set_ne.
  - unfold w2, SyncService.deleteRoom, modify. world_fields. rewrite Hw1. reflexivity.
Qed.

Lemma sync_registry_create_delete_witness :
  let env := linear_env 0 10 "u" in
  let w1 := (SyncService.createRoom "k" None env empty_world).2 in
  (SyncService.getPlaybackState "k" env w1).1
    = Returned (Some (mkPlaybackReport false 0 20)) /\
  NoDup (JsMap.keys (sync_rooms w1)) /\
  (SyncService.getPlaybackState "k" env (SyncService.deleteRoom "k" env w1).2).1
    = Returned None.
Proof.
  intros env w1.
  destruct (sync_registry_create_delete env empty_world "k")
    as (Hstate & _ & Hnd & _ & _ & Hnull & _).
  split_and!; [exact Hstate | | exact Hnull].
  apply Hnd. apply NoDup_nil_2.
Defined.

(** ** Room invariants *)

Section Preserves.
Context (I : World -> Prop).

Lemma preserves_ret {A : Type} (a : A) : preserves I (mret a).
Proof. by intros env w H. Qed.

Lemma preserves_throw {A : Type} (e : string) : preserves I (@throw A e).
Proof. by intros env w H. Qed.

Lemma preserves_bind {A B : Type} (m : M A) (f : A -> M B) :
  preserves I m -> (forall a, preserves I (f a)) -> preserves I (m ≫= f).
Proof.
  intros Hm Hf env w H. rewrite bind_run. specialize (Hm env w H).
  destruct (m env w) as [[a|e] w']; [by apply Hf | exact Hm].
Qed.

Lemma preserves_get_world : preserves I get_world.
Proof. by intros env w H. Qed.

Lemma preserves_modify (f : World -> World) :
  (forall w, I w -> I (f w)) -> preserves I (modify f).
Proof. intros Hf env w H. by apply Hf. Qed.
End Preserves.

Lemma ok_untouched (f : World -> World) :
  (forall w, rooms (f w) = rooms w) -> preserves rooms_ok (modify f).
Proof.
  intros Hf. apply preserves_modify. intros w H roomId room. rewrite Hf. apply H.
Qed.

Lemma ok_Date_now : preserves rooms_ok Date_now.
Proof. by intros env w H. Qed.

Lemma ok_uuidv4 : preserves rooms_ok uuidv4.
Proof. by intros env w H. Qed.

Lemma ok_load (l : loc) : preserves rooms_ok (load l).
Proof. intros env w H. unfold load. by destruct (heap w !! l). Qed.

Lemma ok_assign (l : loc) (f : PlaybackState -> PlaybackState) :
  preserves rooms_ok (assign l f).
Proof.
  intros env w H. unfold assign, load. rewrite bind_run.
  by destruct (heap w !! l).
Qed.

Lemma ok_alloc (ps : PlaybackState) : preserves rooms_ok (alloc ps).
Proof. by intros env w H. Qed.

Lemma ok_rooms_get_bind {B : Type} (roomId : string) (f : option Room -> M B) :
  (forall o, (forall room, o = Some room -> room_ok room) -> preserves rooms_ok (f o)) ->
  preserves rooms_ok (rooms_get roomId ≫= f).
Proof.
  intros Hf env w H. unfold rooms_get. rewrite !bind_run. cbn.
  apply Hf; [|exact H]. intros room Hroom. by apply (H roomId).
Qed.

Lemma ok_rooms_put (roomId : string) (room : Room) :
  room_ok room -> preserves rooms_ok (rooms_put roomId room).
Proof.
  intros Hok env w H. unfold rooms_put, modify, rooms_ok. world_fields.
  intros rid r. destruct (decide (roomId = rid)) as [<-|Hne].
  - rewrite lookup_insert_eq. by intros [= <-].
  - rewrite lookup_insert_ne by done. apply H.
Qed.

Lemma preserves_ret_bind {A B : Type} (I : World -> Prop) (a : A) (f : A -> M B) :
  preserves I (f a) -> preserves I (mret a ≫= f).
Proof. intros Hf env w H. rewrite bind_run. by apply Hf. Qed.

Create HintDb rooms_ok.

#[local] Hint Resolve preserves_ret preserves_throw preserves_get_world
  ok_Date_now ok_uuidv4 ok_load ok_assign ok_alloc : rooms_ok.

Ltac ok_steps :=
  repeat first
    [ progress cbv beta iota zeta
    | solve [auto with rooms_ok]
    | apply preserves_bind; [|intros ?]
    | apply ok_untouched; intros ?; reflexivity
    | match goal with
      | |- preserves _ (match ?x with _ => _ end) => destruct x
      | |- forall _, _ => intros ?
      end ].

Lemma ok_emit (t : Target) (ev : ServerEvent) : preserves rooms_ok (emit t ev).
Proof. unfold emit. ok_steps. Qed.

#[local] Hint Resolve ok_emit : rooms_ok.

Lemma js_or_truthy (x : option string) (d : string) :
  truthy d = true -> truthy (js_or x d) = true.
Proof.
  intros Hd. destruct x as [s|]; cbn; [|done]. by destruct (truthy s) eqn:E.
Qed.

Lemma room_ok_join (room : Room) (v : Viewer) :
  room_ok room -> truthy (viewer_username v) = true ->
  room_ok (with_viewers (viewers room ++ [v])%list room).
Proof.
  intros (Hlen & Htext & Hre & Hnames) Hv. unfold room_ok. cbn.
  split_and!; try done. apply Forall_app. split; [done|]. by constructor.
Qed.

Lemma room_ok_leave (room : Room) (sid : string) :
  room_ok room ->
  room_ok (with_viewers (filter (fun v => viewer_id v ≠ sid) (viewers room)) room).
Proof.
  intros (Hlen & Htext & Hre & Hnames). unfold room_ok. cbn.
  split_and!; try done. rewrite Forall_forall in *. intros v Hv.
  apply list_elem_of_filter in Hv as [_ Hv]. by apply Hnames.
Qed.

Lemma room_ok_chat (room : Room) (m : ChatMessage) :
  room_ok room -> (String.length (msg_message m) <= 500)%nat ->
  room_ok (if decide (200 < length (chat room ++ [m]))%nat
           then with_chat (slice_last 200 (chat room ++ [m])) room
           else with_chat (chat room ++ [m])%list room).
Proof.
  intros (Hlen & Htext & Hre & Hnames) Hm.
  assert (Hall : Forall (fun m => (String.length (msg_message m) <= 500)%nat)
                        (chat room ++ [m])).
  { apply Forall_app. split; [done|]. by constructor. }
  case_decide as Hlong; unfold room_ok; cbn; split_and!; try done.
  - rewrite slice_last_length. lia.
  - unfold slice_last. by apply Forall_drop.
  - lia.
Qed.

Lemma ok_handleLeaveRoom (sid : string) : preserves rooms_ok (handleLeaveRoom sid).
Proof.
  unfold handleLeaveRoom, get_socket_roomId, get_socket_username,
    socket_to_emit, io_to_emit, socket_leave.
  apply preserves_bind; [ok_steps|]. intros [roomId|]; [|ok_steps].
  destruct (truthy roomId); [|ok_steps].
  apply ok_rooms_get_bind. intros [room|] Hok; [|ok_steps].
  apply preserves_bind; [|ok_steps]. cbv beta iota zeta.
  apply preserves_bind; [apply ok_rooms_put, room_ok_leave; by apply Hok|]. ok_steps.
Qed.

Lemma ok_handle (sid : string) (e : ClientEvent) : preserves rooms_ok (handle sid e).
Proof.
  destruct e; cbn [handle].
  - unfold on_joinAdmin, socket_join. ok_steps.
  - unfold on_joinRoom, socket_join, set_socket_roomId, set_socket_username,
      new_Date, socket_emit, socket_to_emit, io_to_emit.
    apply ok_rooms_get_bind. intros [room|] Hok; [|ok_steps].
    do 4 (cbv beta iota zeta; apply preserves_bind; [ok_steps|intros ?]).
    cbv beta iota zeta.
    apply preserves_bind; [|ok_steps].
    apply ok_rooms_put, room_ok_join; [by apply Hok|]. by apply js_or_truthy.
  - apply ok_handleLeaveRoom.
  - unfold on_play, socket_to_emit.
    apply ok_rooms_get_bind. intros [room|] Hok; ok_steps.
  - unfold on_pause, socket_to_emit.
    apply ok_rooms_get_bind. intros [room|] Hok; ok_steps.
  - unfold on_seek, socket_to_emit.
    apply ok_rooms_get_bind. intros [room|] Hok; ok_steps.
  - unfold on_requestSync, socket_emit.
    apply ok_rooms_get_bind. intros [room|] Hok; ok_steps.
  - unfold on_chatMessage, get_socket_username, new_Date, io_to_emit.
    apply ok_rooms_get_bind. intros [room|] Hok; [|ok_steps].
    apply preserves_bind; [ok_steps|intros id].
    apply preserves_bind; [ok_steps|intros username].
    destruct message as [text|].
    + apply preserves_ret_bind.
      apply preserves_bind; [ok_steps|intros timestamp]. cbv beta iota zeta.
      apply preserves_bind; [|ok_steps].
      apply ok_rooms_put, room_ok_chat; [by apply Hok|].
      cbn [msg_message]. rewrite substring_0_length. lia.
    + ok_steps.
  - unfold on_reaction, get_socket_username, io_to_emit.
    apply ok_rooms_get_bind. intros [room|] Hok; ok_steps.
  - unfold on_disconnect, socket_leaveAll.
    apply preserves_bind; [ok_steps|]. intros _. apply ok_handleLeaveRoom.
Qed.

Lemma ok_heartbeat : preserves rooms_ok SyncService.heartbeat.
Proof.
  unfold SyncService.heartbeat. apply preserves_bind; [auto with rooms_ok|]. intros w.
  induction (sync_rooms w) as [|[roomId room] rest IH]; cbn [SyncService.forEach].
  - auto with rooms_ok.
  - apply preserves_bind; [|intros _; exact IH].
    unfold SyncService.heartbeat_callback, SyncService.getPlaybackState,
      SyncService.getCurrentTime, SyncService.rooms_get, io_to_emit.
    ok_steps.
Qed.

Lemma ok_createRoom (movieKey : string) (name : option string) :
  preserves rooms_ok (api_createRoom movieKey name).
Proof.
  intros env w H.
  destruct (movies w !! movieKey) as [movie|] eqn:Hm.
  - destruct (transcodeStatus movie) eqn:Hs.
    3: {
      rewrite (api_createRoom_run env w movieKey name movie Hm Hs). cbn [snd].
      unfold rooms_ok. world_fields. intros rid r.
      destruct (decide (substring 0 8 (uuid_at env (uuid_reads w)) = rid)) as [<-|Hne].
      * rewrite lookup_insert_eq. intros [= <-]. unfold room_ok. cbn.
        split_and!; [lia | constructor | done | constructor].
      * rewrite lookup_insert_ne by done. apply H. }
    all: unfold api_createRoom; rewrite bind_run; cbn; by rewrite Hm, Hs.
  - unfold api_createRoom. rewrite bind_run. cbn. by rewrite Hm.
Qed.

Lemma ok_deleteRoom (roomId : string) : preserves rooms_ok (api_deleteRoom roomId).
Proof.
  intros env w H. destruct (rooms w !! roomId) as [room|] eqn:Hr.
  - rewrite (api_deleteRoom_run env w roomId room Hr). cbn [snd].
    unfold rooms_ok. world_fields. intros rid r Hrid.
    apply lookup_delete_Some in Hrid as [_ Hrid]. by apply (H rid).
  - unfold api_deleteRoom. rewrite bind_run. cbn. by rewrite Hr.
Qed.

Lemma ok_perform (o : Operation) (env : Env) (w : World) :
  rooms_ok w -> rooms_ok (perform o env w).
Proof.
  destruct o as [sid e|movieKey name|roomId|]; cbn [perform].
  - apply ok_handle.
  - apply ok_createRoom.
  - apply ok_deleteRoom.
  - apply ok_heartbeat.
Qed.

Lemma ok_run_ops (mv : gmap string Movie) (env : Env) (ops : list Operation) :
  rooms_ok (run_ops env ops (boot_world mv)).
Proof.
  unfold run_ops.
  assert (H0 : rooms_ok (boot_world mv)).
  { intros rid room. unfold boot_world. world_fields. by rewrite lookup_empty. }
  revert H0. generalize (boot_world mv). induction ops as [|o ops IH]; intros w Hw.
  - exact Hw.
  - cbn [fold_left]. by apply IH, ok_perform.
Qed.

(** X19. In every world the process can reach from its start, by any
    operations and under any clock and uuid generator, every room holds at
    most 200 chat records, each with a text of at most 500 characters, and
    its [reactions] array is empty: no handler ever stores a reaction. *)
Theorem reachable_chat_bounded (mv : gmap string Movie) (env : Env)
    (ops : list Operation) (roomId : string) (room : Room) :
  rooms (run_ops env ops (boot_world mv)) !! roomId = Some room ->
  (length (chat room) <= 200)%nat /\
  Forall (fun m => (String.length (msg_message m) <= 500)%nat) (chat room) /\
  reactions room = [].
Proof.
  intros Hr. destruct (ok_run_ops mv env ops roomId room Hr) as (H1 & H2 & H3 & _).
  by split_and!.
Qed.

(** X20. As long as every [joinRoom] payload carries a string as [username]
    or none, which is what the events of [run_ops] carry: in every world the
    process reaches from its start, every viewer in every roster has a truthy
    name, that is a string that is not empty, because [joinRoom] replaces a
    missing or empty [username]. *)
Theorem reachable_viewers_named (mv : gmap string Movie) (env : Env)
    (ops : list Operation) (roomId : string) (room : Room) :
  rooms (run_ops env ops (boot_world mv)) !! roomId = Some room ->
  Forall (fun v => truthy (viewer_username v) = true /\ viewer_username v ≠ "")
         (viewers room).
Proof.
  intros Hr. destruct (ok_run_ops mv env ops roomId room Hr) as (_ & _ & _ & H).
  eapply Forall_impl; [exact H|]. intros v Hv. cbv beta in Hv.
  split; [exact Hv|]. intros Heq. rewrite Heq in Hv. discriminate.
Qed.

Lemma reachable_chat_bounded_witness :
  let env := linear_env 0 1 "0123456789" in
  let ops := [op_createRoom "m1" None;
              op_event "s1" (joinRoom "01234567" (Some ""));
              op_event "s1" (chatMessage "01234567" (Some "hello"));
              op_event "s1" (reaction "01234567" "+1")] in
  exists room : Room,
    rooms (run_ops env ops (boot_world {[ "m1" := mkMovie "m1" completed ]}))
      !! "01234567" = Some room /\
    (length (chat room) <= 200)%nat /\ reactions room = [].
Proof.
  intros env ops. eexists. split; [vm_compute; reflexivity|].
  edestruct (reachable_chat_bounded {[ "m1" := mkMovie "m1" completed ]} env ops
               "01234567") as (Hlen & _ & Hre); [vm_compute; reflexivity|].
  split; [exact Hlen | exact Hre].
Defined.

Lemma reachable_viewers_named_witness :
  let env := linear_env 0 1 "0123456789" in
  let ops := [op_createRoom "m1" None;
              op_event "s1" (joinRoom "01234567" (Some ""));
              op_event "s2" (joinRoom "01234567" None)] in
  exists room : Room,
    rooms (run_ops env ops (boot_world {[ "m1" := mkMovie "m1" completed ]}))
      !! "01234567" = Some room /\
    length (viewers room) = 2%nat /\
    Forall (fun v => truthy (viewer_username v) = true /\ viewer_username v ≠ "")
           (viewers room).
Proof.
  intros env ops. eexists. split; [vm_compute; reflexivity|].
  split; [reflexivity|].
  apply (reachable_viewers_named {[ "m1" := mkMovie "m1" completed ]} env ops
           "01234567"). vm_compute. reflexivity.
Defined.

(** * Properties of the htpasswd tool *)

Section AddUserFacts.
Import AddUser.

Lemma append_nil (b : string) : "" ++ b = b.
Proof. reflexivity. Qed.

Lemma append_cons (c : Ascii.ascii) (a b : string) :
  String c a ++ b = String c (a ++ b).
Proof. reflexivity. Qed.

Lemma ToInt32_small (v : Z) : 0 <= v < 2 ^ 31 -> ToInt32 v = v.
Proof. intros H. unfold ToInt32. rewrite Z.mod_small; lia. Qed.

Lemma land_63_range (x : Z) : 0 <= Z.land x 63 < 64.
Proof.
  change 63 with (Z.ones 6). rewrite Z.land_ones by lia.
  apply Z.mod_pos_bound. lia.
Qed.

Lemma ITOA64_char (i : Z) :
  0 <= i < 64 ->
  exists c, char_at ITOA64 i = String c "" /\ contains c ITOA64 = true.
Proof.
  intros Hi.
  assert (Hall : forallb (fun n =>
            match char_at ITOA64 (Z.of_nat n) with
            | String c EmptyString => contains c ITOA64
            | _ => false
            end) (seq 0 64) = true) by (vm_compute; reflexivity).
  rewrite forallb_forall in Hall.
  specialize (Hall (Z.to_nat i)). rewrite Z2Nat.id in Hall by lia.
  assert (Hin : In (Z.to_nat i) (seq 0 64)) by (apply in_seq; lia).
  specialize (Hall Hin).
  destruct (char_at ITOA64 i) as [|c [|]]; try discriminate.
  by exists c.
Qed.

Lemma ITOA64_char_inj (i j : Z) :
  0 <= i < 64 -> 0 <= j < 64 -> char_at ITOA64 i = char_at ITOA64 j -> i = j.
Proof.
  intros Hi Hj Heq.
  assert (Hall : forallb (fun n => forallb (fun m =>
            implb (String.eqb (char_at ITOA64 (Z.of_nat n)) (char_at ITOA64 (Z.of_nat m)))
                  (Nat.eqb n m)) (seq 0 64)) (seq 0 64) = true)
    by (vm_compute; reflexivity).
  rewrite forallb_forall in Hall.
  assert (Hin : forall k, 0 <= k < 64 -> In (Z.to_nat k) (seq 0 64))
    by (intros; apply in_seq; lia).
  specialize (Hall _ (Hin i Hi)). rewrite forallb_forall in Hall.
  specialize (Hall _ (Hin j Hj)). rewrite !Z2Nat.id in Hall by lia.
  rewrite Heq, String.eqb_refl in Hall. simpl in Hall.
  apply Nat.eqb_eq in Hall. lia.
Qed.

Lemma all_chars_app (P : Ascii.ascii -> bool) (a b : string) :
  all_chars P (a ++ b) = all_chars P a && all_chars P b.
Proof.
  induction a as [|c a IH]; [done|]. rewrite append_cons. cbn [all_chars].
  rewrite IH. by destruct (P c).
Qed.

Lemma all_chars_impl (P Q : Ascii.ascii -> bool) (s : string) :
  (forall c, P c = true -> Q c = true) -> all_chars P s = true -> all_chars Q s = true.
Proof.
  intros HPQ. induction s as [|c s IH]; simpl; [done|].
  intros [Hc Hs]%andb_true_iff. rewrite (HPQ _ Hc). by apply IH.
Qed.

Lemma length_append (a b : string) :
  String.length (a ++ b) = (String.length a + String.length b)%nat.
Proof.
  induction a as [|c a IH]; [done|]. rewrite append_cons. cbn [String.length].
  by rewrite IH.
Qed.

Lemma append_assoc (a b c : string) : (a ++ b) ++ c = a ++ (b ++ c).
Proof. induction a as [|x a IH]; [done|]. rewrite !append_cons. by f_equal. Qed.

Lemma append_inj (a a' b b' : string) :
  String.length a = String.length a' -> a ++ b = a' ++ b' -> a = a' /\ b = b'.
Proof.
  revert a'. induction a as [|c a IH]; intros [|c' a']; try discriminate.
  - done.
  - rewrite !append_cons. intros [= Hlen] [= -> Happ].
    destruct (IH _ Hlen Happ) as [-> ->]. done.
Qed.

Lemma to64_shape (v : Z) (n : nat) :
  String.length (to64 v n) = n /\ crypt_text (to64 v n) = true.
Proof.
  revert v. induction n as [|n IH]; intros v; [done|].
  cbn [to64].
  destruct (ITOA64_char (Z.land (ToInt32 v) 63) (land_63_range _)) as (c & -> & Hc).
  destruct (IH (Z.shiftr (ToInt32 v) 6)) as [Hlen Htext].
  split.
  - rewrite append_cons, append_nil. cbn [String.length]. by rewrite Hlen.
  - unfold crypt_text in *. rewrite append_cons, append_nil. cbn [all_chars].
    by rewrite Hc, Htext.
Qed.

Lemma to64_inj (n : nat) (v v' : Z) :
  (n <= 5)%nat -> 0 <= v < 64 ^ Z.of_nat n -> 0 <= v' < 64 ^ Z.of_nat n ->
  to64 v n = to64 v' n -> v = v'.
Proof.
  revert v v'. induction n as [|n IH]; intros v v' Hn Hv Hv'.
  - intros _. change (64 ^ Z.of_nat 0) with 1 in *. lia.
  - assert (Hpow : 64 ^ Z.of_nat (S n) = 64 * 64 ^ Z.of_nat n).
    { rewrite Nat2Z.inj_succ, Z.pow_succ_r; lia. }
    assert (Hle : 64 ^ Z.of_nat (S n) <= 2 ^ 31).
    { change (2 ^ 31) with (2 * 64 ^ 5).
      transitivity (64 ^ 5); [apply Z.pow_le_mono_r|]; lia. }
    cbn [to64]. rewrite !ToInt32_small by lia.
    destruct (ITOA64_char (Z.land v 63) (land_63_range _)) as (c & Hc & _).
    destruct (ITOA64_char (Z.land v' 63) (land_63_range _)) as (c' & Hc' & _).
    pose proof (ITOA64_char_inj _ _ (land_63_range v) (land_63_range v')) as Hinj.
    rewrite Hc, Hc' in *. rewrite !append_cons, !append_nil.
    intros [= -> Htail]. specialize (Hinj eq_refl).
    change 63 with (Z.ones 6) in Hinj. rewrite !Z.land_ones in Hinj by lia.
    rewrite !Z.shiftr_div_pow2 in Htail by lia.
    change (2 ^ 6) with 64 in *.
    assert (Hdiv : v / 64 = v' / 64).
    { apply IH; [lia | | | exact Htail].
      - split; [apply Z.div_pos; lia | apply Z.div_lt_upper_bound; lia].
      - split; [apply Z.div_pos; lia | apply Z.div_lt_upper_bound; lia]. }
    rewrite (Z.div_mod v 64), (Z.div_mod v' 64) by lia. lia.
Qed.

(** Three bytes packed into 24 bits. *)
Lemma pack_sum (a b c : Z) :
  0 <= a < 256 -> 0 <= b < 256 -> 0 <= c < 256 ->
  Z.lor (Z.lor (Z.shiftl a 16) (Z.shiftl b 8)) c = a * 65536 + b * 256 + c.
Proof.
  intros Ha Hb Hc.
  assert (Hsmall : forall x i, 0 <= x < 256 -> 8 <= i -> Z.testbit x i = false).
  { intros x i Hx Hi. destruct (decide (x = 0)) as [->|Hne]; [apply Z.bits_0|].
    apply Z.bits_above_log2; [lia|].
    assert (Z.log2 x < 8); [|lia]. apply Z.log2_lt_pow2; lia. }
  rewrite <- Z.lxor_lor, <- Z.add_nocarry_lxor.
  - rewrite <- Z.lxor_lor, <- Z.add_nocarry_lxor.
    + rewrite !Z.shiftl_mul_pow2 by lia. lia.
    + apply Z.bits_inj'. intros i Hi. rewrite Z.land_spec, Z.bits_0.
      destruct (Z.ltb_spec i 16).
      * rewrite (Z.shiftl_spec_low a) by lia. done.
      * rewrite (Z.shiftl_spec b) by lia. rewrite (Hsmall b) by lia.
        apply andb_false_r.
    + apply Z.bits_inj'. intros i Hi. rewrite Z.land_spec, Z.bits_0.
      destruct (Z.ltb_spec i 16).
      * rewrite (Z.shiftl_spec_low a) by lia. done.
      * rewrite (Z.shiftl_spec b) by lia. rewrite (Hsmall b) by lia.
        apply andb_false_r.
  - apply Z.bits_inj'. intros i Hi. rewrite Z.land_spec, Z.lor_spec, Z.bits_0.
    destruct (Z.ltb_spec i 8).
    + rewrite !Z.shiftl_spec_low by lia. done.
    + rewrite (Hsmall c) by lia. apply andb_false_r.
  - apply Z.bits_inj'. intros i Hi. rewrite Z.land_spec, Z.lor_spec, Z.bits_0.
    destruct (Z.ltb_spec i 8).
    + rewrite !Z.shiftl_spec_low by lia. done.
    + rewrite (Hsmall c) by lia. apply andb_false_r.
Qed.

Lemma pack_range (a b c : Z) :
  0 <= a < 256 -> 0 <= b < 256 -> 0 <= c < 256 ->
  0 <= Z.lor (Z.lor (Z.shiftl a 16) (Z.shiftl b 8)) c < 64 ^ Z.of_nat 4.
Proof.
  intros Ha Hb Hc. rewrite pack_sum by done. change (64 ^ Z.of_nat 4) with 16777216. lia.
Qed.

Lemma pack_inj (a b c a' b' c' : Z) :
  0 <= a < 256 -> 0 <= b < 256 -> 0 <= c < 256 ->
  0 <= a' < 256 -> 0 <= b' < 256 -> 0 <= c' < 256 ->
  to64 (Z.lor (Z.lor (Z.shiftl a 16) (Z.shiftl b 8)) c) 4
  = to64 (Z.lor (Z.lor (Z.shiftl a' 16) (Z.shiftl b' 8)) c') 4 ->
  a = a' /\ b = b' /\ c = c'.
Proof.
  intros Ha Hb Hc Ha' Hb' Hc' Heq.
  apply to64_inj in Heq; [| lia | by apply pack_range ..].
  rewrite !pack_sum in Heq by done. lia.
Qed.

Lemma encode_final_shape (final : list Z) :
  String.length (encode_final final) = 22%nat /\ crypt_text (encode_final final) = true.
Proof.
  unfold encode_final, crypt_text. split.
  - rewrite !length_append. by rewrite !(proj1 (to64_shape _ _)).
  - rewrite !all_chars_app.
    repeat (rewrite (proj2 (to64_shape _ _)) || (unfold crypt_text in *)). done.
Qed.

Lemma encode_final_inj (final final' : list Z) :
  digest final -> digest final' ->
  encode_final final = encode_final final' -> final = final'.
Proof.
  intros [Hlen Hb] [Hlen' Hb'].
  do 17 (destruct final as [|? final]; try discriminate Hlen).
  do 17 (destruct final' as [|? final']; try discriminate Hlen').
  clear Hlen Hlen'.
  repeat match goal with
         | H : Forall _ (_ :: _) |- _ => apply Forall_cons in H as [? H]
         end.
  unfold encode_final, byte_at. cbn [nth]. intros Heq.
  repeat match type of Heq with
         | to64 ?x 4 ++ _ = to64 ?y 4 ++ _ =>
             let H1 := fresh "Hg" in
             apply append_inj in Heq as [H1 Heq];
             [apply pack_inj in H1; [|done ..]
             | by rewrite !(proj1 (to64_shape _ _))]
         end.
  apply to64_inj in Heq; [| lia | change (64 ^ Z.of_nat 2) with 4096; lia ..].
  repeat match goal with H : _ /\ _ |- _ => destruct H end.
  subst. reflexivity.
Qed.

Lemma feed_final_fuel (fuel k : nat) (pl : Z) (final ctx : list Z) :
  pl <= Z.of_nat fuel ->
  feed_final (fuel + k) pl final ctx = feed_final fuel pl final ctx.
Proof.
  revert pl ctx. induction fuel as [|fuel IH]; intros pl ctx Hpl.
  - destruct k; [done|]. cbn [Nat.add feed_final].
    destruct (Z.ltb_spec 0 pl); [lia | done].
  - cbn [Nat.add feed_final]. destruct (Z.ltb_spec 0 pl); [|done].
    apply IH. lia.
Qed.

Lemma feed_bits_fuel (fuel k : nat) (i : Z) (password : string) (ctx : list Z) :
  0 <= i <= Z.of_nat fuel -> i < 2 ^ 31 ->
  feed_bits (fuel + k) i password ctx = feed_bits fuel i password ctx.
Proof.
  revert i ctx. induction fuel as [|fuel IH]; intros i ctx Hi Hlt.
  - assert (i = 0) as -> by lia. by destruct k.
  - cbn [Nat.add feed_bits]. destruct (Z.eqb_spec i 0); [done|].
    rewrite ToInt32_small by lia.
    assert (0 <= Z.shiftr i 1 <= Z.of_nat fuel /\ Z.shiftr i 1 < 2 ^ 31) as [? ?].
    { rewrite Z.shiftr_div_pow2 by lia. change (2 ^ 1) with 2.
      assert (0 <= i / 2) by (apply Z.div_pos; lia).
      assert (i / 2 < i) by (apply Z.div_lt; lia). lia. }
    by apply IH.
Qed.

Section Salt.
Variable random : nat -> Q.
Hypothesis random_range : forall k, (0 <= random k)%Q /\ (random k < 1)%Q.

Lemma random_index (k : nat) :
  0 <= Qfloor (random k * inject_Z (Z.of_nat (String.length ITOA64))) < 64.
Proof.
  change (inject_Z (Z.of_nat (String.length ITOA64))) with (inject_Z 64).
  destruct (random_range k) as [H0 H1]. split.
  - change 0 with (Qfloor (inject_Z 0)). apply Qfloor_resp_le.
    change (inject_Z 0) with (0 * inject_Z 64)%Q.
    apply Qmult_le_compat_r; [done | by vm_compute].
  - rewrite Zlt_Qlt. eapply Qle_lt_trans; [apply Qfloor_le|].
    change (inject_Z 64) with (1 * inject_Z 64)%Q at 2.
    apply Qmult_lt_compat_r; [by vm_compute | done].
Qed.

Lemma generateSalt_from_shape (k n : nat) :
  String.length (generateSalt_from random k n) = n
  /\ crypt_text (generateSalt_from random k n) = true.
Proof.
  revert k. induction n as [|n IH]; intros k; [done|].
  cbn [generateSalt_from].
  destruct (ITOA64_char _ (random_index k)) as (c & -> & Hc).
  destruct (IH (S k)) as [Hlen Htext].
  rewrite append_cons, append_nil. split.
  - cbn [String.length]. by rewrite Hlen.
  - unfold crypt_text in *. cbn [all_chars]. by rewrite Hc, Htext.
Qed.
End Salt.

(** Nothing in the alphabet or the dollar sign is white space, a colon or a
    line feed. *)
Lemma crypt_char_plain (c : Ascii.ascii) :
  contains c ITOA64 || Ascii.eqb c dollar = true ->
  is_space c = false /\ Ascii.eqb colon c = false /\ Ascii.eqb newline c = false.
Proof.
  destruct c as [[] [] [] [] [] [] [] []]; vm_compute; intros H;
    (discriminate H || done).
Qed.

Lemma contains_app (c : Ascii.ascii) (a b : string) :
  contains c (a ++ b) = contains c a || contains c b.
Proof.
  induction a as [|x a IH]; [done|]. rewrite append_cons. cbn [contains].
  rewrite IH. by destruct (Ascii.eqb c x).
Qed.

Lemma all_chars_contains (P : Ascii.ascii -> bool) (s : string) (c : Ascii.ascii) :
  all_chars P s = true -> contains c s = true -> P c = true.
Proof.
  induction s as [|x s IH]; cbn [all_chars contains]; [done|].
  intros [Hx Hs]%andb_true_iff [Hc|Hc]%orb_true_iff.
  - apply Ascii.eqb_eq in Hc. by subst.
  - by apply IH.
Qed.

Lemma truthy_nonempty (s : string) : s ≠ "" -> truthy s = true.
Proof. by destruct s. Qed.

(** **** [split] *)

Lemma split_on_cons (sep : Ascii.ascii) (s : string) :
  exists p ps, split_on sep s = p :: ps.
Proof.
  induction s as [|c s IH]; cbn [split_on]; [by eexists _, _|].
  destruct (Ascii.eqb c sep); [by eexists _, _|].
  destruct IH as (p & ps & ->). by eexists _, _.
Qed.

Lemma split_on_none (sep : Ascii.ascii) (p : string) :
  contains sep p = false -> split_on sep p = [p].
Proof.
  induction p as [|c p IH]; cbn [contains split_on]; [done|].
  intros [Hc Hp]%orb_false_iff. rewrite Ascii.eqb_sym, Hc. by rewrite IH.
Qed.

Lemma split_on_app (sep : Ascii.ascii) (p rest : string) :
  contains sep p = false ->
  split_on sep (p ++ String sep rest) = p :: split_on sep rest.
Proof.
  induction p as [|c p IH]; cbn [contains].
  - intros _. rewrite append_nil. cbn [split_on]. by rewrite Ascii.eqb_refl.
  - intros [Hc Hp]%orb_false_iff. rewrite append_cons. cbn [split_on].
    rewrite Ascii.eqb_sym, Hc. by rewrite IH.
Qed.

Lemma split_on_elem (sep : Ascii.ascii) (s p : string) :
  p ∈ split_on sep s ->
  contains sep p = false /\ forall c, contains c p = true -> contains c s = true.
Proof.
  revert p. induction s as [|x s IH]; intros p; cbn [split_on].
  - intros ->%list_elem_of_singleton. done.
  - destruct (Ascii.eqb x sep) eqn:Hx.
    + intros [->|Hin]%elem_of_cons; [done|].
      destruct (IH _ Hin) as [Hsep Hsub]. split; [done|].
      intros c Hc. cbn [contains]. rewrite (Hsub _ Hc). apply orb_true_r.
    + destruct (split_on_cons sep s) as (q & qs & Hq). rewrite Hq in *.
      intros [->|Hin]%elem_of_cons.
      * destruct (IH q) as [Hsep Hsub]; [left|]. cbn [contains]. split.
        -- by rewrite Ascii.eqb_sym, Hx, Hsep.
        -- intros c [Hc|Hc]%orb_true_iff; [by rewrite Hc|].
           rewrite (Hsub _ Hc). apply orb_true_r.
      * destruct (IH p) as [Hsep Hsub]; [by right|]. split; [done|].
        intros c Hc. cbn [contains]. rewrite (Hsub _ Hc). apply orb_true_r.
Qed.

(** The text [saveHtpasswd] writes splits back into its lines, followed by
    the empty piece after the last line feed. *)
Lemma split_on_join (lines : list string) :
  Forall (fun l => contains newline l = false) lines ->
  split_on newline (join (String newline "") lines ++ String newline "")
  = match lines with [] => [""; ""] | _ => (lines ++ [""])%list end.
Proof.
  induction 1 as [|x lines Hx Hlines IH]; [by vm_compute|].
  destruct lines as [|y lines].
  - cbn [join]. by rewrite split_on_app.
  - change (join (String newline "") (x :: y :: lines))
      with (x ++ String newline "" ++ join (String newline "") (y :: lines)).
    rewrite !append_assoc, append_cons, append_nil.
    rewrite split_on_app by done. by rewrite IH.
Qed.

(** **** [trim] *)

Lemma trim_end_unfold (c : Ascii.ascii) (s : string) :
  trim_end (String c s)
  = match trim_end s with
    | EmptyString => if is_space c then "" else String c ""
    | String a b => String c (String a b)
    end.
Proof. reflexivity. Qed.

Lemma trim_end_cons (c : Ascii.ascii) (s : string) :
  is_space c = false -> trim_end (String c s) = String c (trim_end s).
Proof. intros Hc. rewrite trim_end_unfold, Hc. by destruct (trim_end s). Qed.

Lemma trim_end_idem (s : string) : trim_end (trim_end s) = trim_end s.
Proof.
  induction s as [|c s IH]; [done|]. rewrite trim_end_unfold.
  destruct (trim_end s) as [|a b] eqn:Hr.
  - destruct (is_space c) eqn:Hc; [done|]. by rewrite trim_end_unfold, Hc.
  - rewrite trim_end_unfold, IH. done.
Qed.

Lemma trim_start_head (s : string) :
  trim_start s = "" \/ exists c r, trim_start s = String c r /\ is_space c = false.
Proof.
  induction s as [|c s IH]; cbn [trim_start]; [by left|].
  destruct (is_space c) eqn:Hc; [done|]. right. by eexists _, _.
Qed.

Lemma trim_idem (s : string) : trim (trim s) = trim s.
Proof.
  unfold trim. destruct (trim_start_head s) as [->|(c & r & -> & Hc)]; [done|].
  rewrite (trim_end_cons c r Hc). cbn [trim_start]. rewrite Hc.
  rewrite (trim_end_cons _ _ Hc). by rewrite trim_end_idem.
Qed.

Lemma trim_start_length (s : string) :
  (String.length (trim_start s) <= String.length s)%nat.
Proof.
  induction s as [|c s IH]; cbn [trim_start]; [done|].
  destruct (is_space c); cbn [String.length]; lia.
Qed.

Lemma trim_end_length (s : string) :
  (String.length (trim_end s) <= String.length s)%nat.
Proof.
  induction s as [|c s IH]; [done|]. rewrite trim_end_unfold.
  destruct (trim_end s); [destruct (is_space c)|]; cbn [String.length] in *; lia.
Qed.

Lemma contains_trim_start (c : Ascii.ascii) (s : string) :
  contains c (trim_start s) = true -> contains c s = true.
Proof.
  induction s as [|x s IH]; cbn [trim_start]; [done|].
  destruct (is_space x); [|done]. intros H. cbn [contains].
  rewrite (IH H). apply orb_true_r.
Qed.

Lemma contains_trim_end (c : Ascii.ascii) (s : string) :
  contains c (trim_end s) = true -> contains c s = true.
Proof.
  induction s as [|x s IH]; [done|]. rewrite trim_end_unfold.
  destruct (trim_end s) as [|a b].
  - destruct (is_space x); [done|]. cbn [contains].
    rewrite orb_false_r. by intros ->.
  - cbn [contains] in *. intros [->|H]%orb_true_iff; [done|].
    rewrite (IH H). apply orb_true_r.
Qed.

Lemma contains_trim (c : Ascii.ascii) (s : string) :
  contains c (trim s) = true -> contains c s = true.
Proof. intros H. by apply contains_trim_start, contains_trim_end. Qed.

Lemma contains_trim_false (c : Ascii.ascii) (s : string) :
  contains c s = false -> contains c (trim s) = false.
Proof.
  intros H. destruct (contains c (trim s)) eqn:Ht; [|done].
  apply contains_trim in Ht. congruence.
Qed.

Lemma trim_plain (s : string) :
  all_chars (fun c => negb (is_space c)) s = true -> trim s = s.
Proof.
  intros H. unfold trim.
  assert (Hstart : trim_start s = s).
  { destruct s as [|c s]; [done|]. cbn [all_chars trim_start] in *.
    apply andb_true_iff in H as [Hc _]. by destruct (is_space c). }
  rewrite Hstart. induction s as [|c s IH]; [done|].
  cbn [all_chars] in H. apply andb_true_iff in H as [Hc Hs].
  rewrite trim_end_cons by (by destruct (is_space c)).
  f_equal. apply IH; [done|].
  destruct s as [|x s]; [done|]. cbn [all_chars trim_start] in *.
  apply andb_true_iff in Hs as [Hx _]. by destruct (is_space x).
Qed.

Lemma trim_fixed_head (s : string) :
  s ≠ "" -> trim s = s -> exists c r, s = String c r /\ is_space c = false.
Proof.
  destruct s as [|c r]; [done|]. intros _ Ht. exists c, r. split; [done|].
  destruct (is_space c) eqn:Hc; [|done]. exfalso.
  unfold trim in Ht. cbn [trim_start] in Ht. rewrite Hc in Ht.
  pose proof (trim_end_length (trim_start r)) as H1.
  pose proof (trim_start_length r) as H2.
  rewrite Ht in H1. cbn [String.length] in H1. lia.
Qed.

Lemma trim_kept (s t : string) :
  s ≠ "" -> trim s = s -> truthy (trim (s ++ t)) = true.
Proof.
  intros Hne Ht. destruct (trim_fixed_head s Hne Ht) as (c & r & -> & Hc).
  rewrite append_cons. unfold trim. cbn [trim_start]. rewrite Hc.
  by rewrite trim_end_cons.
Qed.

(** **** The file *)

Lemma clean_stored (s : string) : clean s -> stored s.
Proof. by intros (_ & ? & ? & ?). Qed.

Lemma stored_trim (s : string) :
  contains colon s = false -> contains newline s = false -> stored (trim s).
Proof.
  intros Hc Hn. split_and!; [apply trim_idem | by apply contains_trim_false ..].
Qed.

Lemma parse_line_clean (acc : list (string * string)) (u h : string) :
  clean u -> clean h -> parse_line acc (u ++ ":" ++ h) = JsMap.set u h acc.
Proof.
  intros (Hu & Htu & Hcu & _) (Hh & Hth & Hch & _). unfold parse_line.
  change (u ++ ":" ++ h) with (u ++ String colon h).
  rewrite split_on_app, split_on_none by done.
  rewrite !truthy_nonempty by done. cbn [andb]. by rewrite Htu, Hth.
Qed.

Lemma jsmap_set_fresh {V : Type} (k : string) (v : V) (m : list (string * V)) :
  k ∉ JsMap.keys m -> JsMap.set k v m = (m ++ [(k, v)])%list.
Proof.
  unfold JsMap.keys. induction m as [|[k' v'] m IH]; [done|].
  rewrite fmap_cons, not_elem_of_cons. cbn [fst JsMap.set]. intros [Hne Hnin].
  rewrite decide_False by done. by rewrite IH.
Qed.

Lemma jsmap_fold_set (users acc : list (string * string)) :
  NoDup (JsMap.keys (acc ++ users)) ->
  fold_left (fun m e => JsMap.set e.1 e.2 m) users acc = (acc ++ users)%list.
Proof.
  revert acc. induction users as [|[k v] users IH]; intros acc Hnd.
  - by rewrite app_nil_r.
  - cbn [fold_left fst snd]. rewrite jsmap_set_fresh.
    + rewrite IH; rewrite <- app_assoc; done.
    + unfold JsMap.keys in *. rewrite fmap_app, fmap_cons in Hnd.
      apply NoDup_app in Hnd as (_ & Hdisj & _). intros Hin.
      apply (Hdisj _ Hin). left.
Qed.

Lemma jsmap_set_Forall {V : Type} (P : string * V -> Prop) (k : string) (v : V)
    (m : list (string * V)) :
  Forall P m -> P (k, v) -> Forall P (JsMap.set k v m).
Proof.
  intros Hm Hkv. induction Hm as [|[k' v'] m Hx Hm IH]; cbn [JsMap.set].
  - by constructor.
  - destruct (decide (k = k')); by constructor.
Qed.

Lemma jsmap_delete_Forall {V : Type} (P : string * V -> Prop) (k : string)
    (m : list (string * V)) :
  Forall P m -> Forall P (JsMap.delete k m).
Proof.
  intros Hm. induction Hm as [|[k' v'] m Hx Hm IH]; cbn [JsMap.delete]; [done|].
  destruct (decide (k = k')); [done | by constructor].
Qed.

Lemma jsmap_delete_absent {V : Type} (k : string) (m : list (string * V)) :
  k ∉ JsMap.keys m -> JsMap.delete k m = m.
Proof.
  unfold JsMap.keys. induction m as [|[k' v'] m IH]; [done|].
  rewrite fmap_cons, not_elem_of_cons. cbn [fst JsMap.delete]. intros [Hne Hnin].
  rewrite decide_False by done. by rewrite IH.
Qed.

Lemma jsmap_has {V : Type} (k : string) (m : list (string * V)) :
  is_Some (JsMap.get k m) <-> k ∈ JsMap.keys m.
Proof.
  rewrite <- not_eq_None_Some, jsmap_get_None.
  split; [apply dec_stable | by intros ? ?].
Qed.

Lemma fold_parse_lines (users acc : list (string * string)) :
  Forall (fun e => clean e.1 /\ clean e.2) users ->
  fold_left parse_line ((fun e => e.1 ++ ":" ++ e.2) <$> users) acc
  = fold_left (fun m e => JsMap.set e.1 e.2 m) users acc.
Proof.
  intros H. revert acc. induction H as [|[u h] users [Hu Hh] _ IH]; intros acc; [done|].
  rewrite fmap_cons. cbn [fold_left fst snd] in *.
  rewrite parse_line_clean by done. apply IH.
Qed.

Lemma filter_saved_lines (lines : list string) :
  Forall (fun line => truthy (trim line) = true) lines ->
  filter (fun line => truthy (trim line) = true)
         match lines with [] => [""; ""] | _ => (lines ++ [""])%list end
  = lines.
Proof.
  intros H. destruct lines as [|l lines]; [done|].
  rewrite filter_app, filter_all by done.
  change (filter (fun line => truthy (trim line) = true) [""]) with (@nil string).
  apply app_nil_r.
Qed.

(** What is written is read back: the text of [saveHtpasswd] parses to the
    same entries, in the same order. *)
Lemma save_parse (users : list (string * string)) :
  NoDup (JsMap.keys users) ->
  Forall (fun e => clean e.1 /\ clean e.2) users ->
  parseHtpasswd (Some (saveHtpasswd users)) = users.
Proof.
  intros Hnd Hclean. unfold parseHtpasswd, saveHtpasswd.
  rewrite split_on_join.
  2:{ apply Forall_fmap. eapply Forall_impl; [exact Hclean|].
      intros [u h] [(_ & _ & _ & Hu) (_ & _ & _ & Hh)]. cbn [fst snd] in *.
      unfold compose. cbn [fst snd].
      rewrite !contains_app, Hu, Hh. done. }
  rewrite filter_saved_lines.
  2:{ apply Forall_fmap. eapply Forall_impl; [exact Hclean|].
      intros [u h] [(Hne & Ht & _) _]. unfold compose. cbn [fst snd].
      by apply trim_kept. }
  rewrite fold_parse_lines by done. by rewrite jsmap_fold_set.
Qed.

(** Whatever the file holds, the parsed entries have distinct names, and
    names and hashes are trimmed and free of colons and line feeds. *)
Lemma parse_line_stored (acc : list (string * string)) (line : string) :
  contains newline line = false ->
  NoDup (JsMap.keys acc) /\ Forall (fun e => stored e.1 /\ stored e.2) acc ->
  NoDup (JsMap.keys (parse_line acc line))
  /\ Forall (fun e => stored e.1 /\ stored e.2) (parse_line acc line).
Proof.
  intros Hnl [Hnd Hst]. unfold parse_line.
  destruct (split_on colon line) as [|username [|hash rest]] eqn:Hsplit; [done..|].
  destruct (truthy username && truthy hash); [|done].
  destruct (split_on_elem colon line username) as [Hcu Hsu]; [rewrite Hsplit; left|].
  destruct (split_on_elem colon line hash) as [Hch Hsh];
    [rewrite Hsplit; right; left|].
  assert (Hfree : forall p, (forall c, contains c p = true -> contains c line = true) ->
            contains newline p = false).
  { intros p Hsub. destruct (contains newline p) eqn:Hp; [|done].
    apply Hsub in Hp. congruence. }
  split; [by apply jsmap_set_NoDup|].
  apply jsmap_set_Forall; [done|]. cbn [fst snd].
  split; apply stored_trim; auto.
Qed.

Lemma parse_stored (file : option string) :
  NoDup (JsMap.keys (parseHtpasswd file))
  /\ Forall (fun e => stored e.1 /\ stored e.2) (parseHtpasswd file).
Proof.
  destruct file as [content|]; cbn [parseHtpasswd]; [|split; constructor].
  set (lines := filter _ _).
  assert (Hlines : Forall (fun l => contains newline l = false) lines).
  { apply Forall_forall. intros l Hl. subst lines.
    apply list_elem_of_filter in Hl as [_ Hl].
    by apply split_on_elem in Hl as [? _]. }
  assert (Hgen : forall acc,
             NoDup (JsMap.keys acc) /\ Forall (fun e => stored e.1 /\ stored e.2) acc ->
             NoDup (JsMap.keys (fold_left parse_line lines acc))
             /\ Forall (fun e => stored e.1 /\ stored e.2) (fold_left parse_line lines acc)).
  { induction Hlines as [|l lines Hl _ IH]; intros acc Hacc; [done|].
    cbn [fold_left]. apply IH. by apply parse_line_stored. }
  apply Hgen. split; constructor.
Qed.

(** With no empty name or hash among them, the parsed entries survive being
    written and read again. *)
Lemma parse_clean (file : option string) :
  Forall (fun e => e.1 ≠ "" /\ e.2 ≠ "") (parseHtpasswd file) ->
  Forall (fun e => clean e.1 /\ clean e.2) (parseHtpasswd file).
Proof.
  intros Hne. destruct (parse_stored file) as [_ Hst].
  rewrite Forall_forall in *. intros e He.
  destruct (Hne e He) as [? ?], (Hst e He) as [(? & ? & ?) (? & ? & ?)].
  by split; split_and!.
Qed.

End AddUserFacts.

Lemma sample_random_range (k : nat) :
  (0 <= AddUser.sample_random k)%Q /\ (AddUser.sample_random k < 1)%Q.
Proof.
  unfold AddUser.sample_random, Qle, Qlt. cbn [Qnum Qden].
  pose proof (Nat.mod_upper_bound k 8). lia.
Qed.

Lemma apr1Crypt_clean (md5 : list Z -> list Z) (random : nat -> Q) (password : string) :
  (forall k, (0 <= random k)%Q /\ (random k < 1)%Q) ->
  String.length (AddUser.apr1Crypt md5 random password None) = 37%nat
  /\ AddUser.clean (AddUser.apr1Crypt md5 random password None).
Proof.
  intros Hrandom. unfold AddUser.apr1Crypt. cbn [js_or].
  set (salt := AddUser.generateSalt random).
  set (tail := AddUser.encode_final _).
  destruct (generateSalt_from_shape random Hrandom 0 8) as [Hslen Hstext].
  destruct (encode_final_shape (AddUser.apr1_digest md5 password salt))
    as [Htlen Httext].
  change (AddUser.generateSalt_from random 0 8) with salt in Hslen, Hstext.
  fold tail in Htlen, Httext.
  set (plain := fun c => AddUser.contains c AddUser.ITOA64 || Ascii.eqb c AddUser.dollar).
  assert (Hplain : AddUser.all_chars plain ("$apr1$" ++ salt ++ "$" ++ tail) = true).
  { rewrite !all_chars_app.
    assert (Hup : forall s, AddUser.crypt_text s = true -> AddUser.all_chars plain s = true).
    { intros s. apply all_chars_impl. intros c Hc. unfold plain. by rewrite Hc. }
    rewrite (Hup salt), (Hup tail) by done. by vm_compute. }
  split.
  - rewrite !length_append, Hslen, Htlen. done.
  - split_and!.
    + by rewrite append_cons.
    + apply trim_plain. eapply all_chars_impl; [|exact Hplain].
      intros c Hc. by destruct (crypt_char_plain c Hc) as (-> & _).
    + destruct (AddUser.contains AddUser.colon _) eqn:Hc; [|done].
      apply (all_chars_contains _ _ _ Hplain) in Hc. by vm_compute in Hc.
    + destruct (AddUser.contains AddUser.newline _) eqn:Hc; [|done].
      apply (all_chars_contains _ _ _ Hplain) in Hc. by vm_compute in Hc.
Qed.

(** X22. [to64] loses nothing of a value that fits its width: for up to five
    characters, two values below 64^n with the same encoding are equal. *)
Theorem to64_injective (n : nat) (v v' : Z) :
  (n <= 5)%nat -> 0 <= v < 64 ^ Z.of_nat n -> 0 <= v' < 64 ^ Z.of_nat n ->
  AddUser.to64 v n = AddUser.to64 v' n -> v = v'.
Proof. apply to64_inj. Qed.

Lemma to64_injective_witness :
  AddUser.to64 4660 4 = "o6/." /\ AddUser.to64 4660 4 ≠ AddUser.to64 8756 4.
Proof.
  split; [by vm_compute|]. intros Heq.
  assert (H : 4660 = 8756); [|discriminate H].
  apply (to64_injective 4 4660 8756); [lia | by vm_compute | by vm_compute | exact Heq].
Defined.

(** X23. The final encoding of [apr1Crypt] turns a 16-byte digest into 22
    characters of the crypt alphabet, and different digests give different
    texts. *)
Theorem encode_final_injective (final final' : list Z) :
  AddUser.digest final -> AddUser.digest final' ->
  String.length (AddUser.encode_final final) = 22%nat
  /\ AddUser.crypt_text (AddUser.encode_final final) = true
  /\ (AddUser.encode_final final = AddUser.encode_final final' -> final = final').
Proof.
  intros Hd Hd'. destruct (encode_final_shape final) as [Hlen Htext].
  split_and!; [done..|]. by apply encode_final_inj.
Qed.

Lemma encode_final_injective_witness :
  AddUser.encode_final (replicate 16 0) ≠ AddUser.encode_final (replicate 16 255).
Proof.
  intros Heq.
  destruct (encode_final_injective (replicate 16 0) (replicate 16 255))
    as (_ & _ & Hinj).
  - split; [reflexivity | repeat constructor; lia].
  - split; [reflexivity | repeat constructor; lia].
  - specialize (Hinj Heq). discriminate Hinj.
Defined.

(** X24. Whatever the password, the salt and the digest function, the result
    of [apr1Crypt] is "$apr1$", the salt (the generated one when none or an
    empty one is given), "$" and 22 characters of the crypt alphabet. *)
Theorem apr1Crypt_shape (md5 : list Z -> list Z) (random : nat -> Q)
    (password : string) (salt : option string) :
  exists tail,
    AddUser.apr1Crypt md5 random password salt
    = "$apr1$" ++ js_or salt (AddUser.generateSalt random) ++ "$" ++ tail
    /\ String.length tail = 22%nat /\ AddUser.crypt_text tail = true.
Proof.
  eexists. split; [reflexivity|]. apply encode_final_shape.
Qed.

(** X25. With [Math.random] in [0, 1), a hash made without a given salt has
    37 characters, an 8-character salt among them, and can stand in a line of
    the htpasswd file: it is not empty, has no white space at its ends and
    contains no colon and no line feed. *)
Theorem apr1Crypt_generated_clean (md5 : list Z -> list Z) (random : nat -> Q)
    (password : string) :
  (forall k, (0 <= random k)%Q /\ (random k < 1)%Q) ->
  String.length (AddUser.generateSalt random) = 8%nat
  /\ AddUser.crypt_text (AddUser.generateSalt random) = true
  /\ String.length (AddUser.apr1Crypt md5 random password None) = 37%nat
  /\ AddUser.clean (AddUser.apr1Crypt md5 random password None).
Proof.
  intros Hrandom.
  destruct (generateSalt_from_shape random Hrandom 0 8) as [Hslen Hstext].
  destruct (apr1Crypt_clean md5 random password Hrandom) as [Hlen Hclean].
  by split_and!.
Qed.

Lemma apr1Crypt_generated_clean_witness :
  AddUser.generateSalt AddUser.sample_random = ".6EMUcks"
  /\ AddUser.clean
       (AddUser.apr1Crypt AddUser.sample_md5 AddUser.sample_random "secret" None).
Proof.
  split; [by vm_compute|].
  apply (apr1Crypt_generated_clean AddUser.sample_md5 AddUser.sample_random "secret").
  exact sample_random_range.
Defined.

(** X26. What [saveHtpasswd] writes, [parseHtpasswd] reads back: for entries
    with distinct names whose names and hashes are not empty, contain no colon
    and no line feed and have no white space at their ends, the parsed file is
    the same list of entries in the same order. *)
Theorem save_parse_round_trip (users : list (string * string)) :
  NoDup (JsMap.keys users) ->
  Forall (fun e => AddUser.clean e.1 /\ AddUser.clean e.2) users ->
  AddUser.parseHtpasswd (Some (AddUser.saveHtpasswd users)) = users.
Proof. apply save_parse. Qed.

Lemma save_parse_round_trip_witness :
  AddUser.saveHtpasswd [("alice", "$apr1$x$y"); ("bob", "{SHA}z")]
  = String.concat (String AddUser.newline "") ["alice:$apr1$x$y"; "bob:{SHA}z"; ""]
  /\ AddUser.parseHtpasswd
       (Some (AddUser.saveHtpasswd [("alice", "$apr1$x$y"); ("bob", "{SHA}z")]))
     = [("alice", "$apr1$x$y"); ("bob", "{SHA}z")].
Proof.
  split; [by vm_compute|]. apply save_parse_round_trip.
  - apply (bool_decide_unpack _). by vm_compute.
  - repeat constructor; by vm_compute.
Defined.

(** X27. Whatever the file holds, [parseHtpasswd] returns entries with
    distinct names, and every name and hash is trimmed and free of colons and
    line feeds. *)
Theorem parsed_entries_stored (file : option string) :
  NoDup (AddUser.listUsers file)
  /\ Forall (fun e => AddUser.stored e.1 /\ AddUser.stored e.2)
            (AddUser.parseHtpasswd file).
Proof. apply parse_stored. Qed.

(** X28. [addUser] answers whether the name was already listed, and afterwards
    the file parses to the old entries with the name set to the new hash: the
    name looks up to that hash, every other name is unchanged, and a new name
    comes last in the listing while an updated one keeps its place. This holds
    for a name that fits a line and a file whose entries have no empty name or
    hash. *)
Theorem addUser_stores_hash (md5 : list Z -> list Z) (random : nat -> Q)
    (file : option string) (username password : string) :
  (forall k, (0 <= random k)%Q /\ (random k < 1)%Q) ->
  AddUser.clean username ->
  Forall (fun e => e.1 ≠ "" /\ e.2 ≠ "") (AddUser.parseHtpasswd file) ->
  let result := AddUser.addUser md5 random file username password in
  let hash := AddUser.apr1Crypt md5 random password None in
  (result.1 = true <-> username ∈ AddUser.listUsers file)
  /\ AddUser.parseHtpasswd result.2
     = JsMap.set username hash (AddUser.parseHtpasswd file)
  /\ JsMap.get username (AddUser.parseHtpasswd result.2) = Some hash
  /\ (forall other, other ≠ username ->
        JsMap.get other (AddUser.parseHtpasswd result.2)
        = JsMap.get other (AddUser.parseHtpasswd file))
  /\ AddUser.listUsers result.2
     = if decide (username ∈ AddUser.listUsers file)
       then AddUser.listUsers file
       else (AddUser.listUsers file ++ [username])%list.
Proof.
  intros Hrandom Hname Hfile result hash.
  destruct (parse_stored file) as [Hnd _].
  pose proof (parse_clean file Hfile) as Hclean.
  destruct (apr1Crypt_clean md5 random password Hrandom) as [_ Hhash].
  assert (Hparse : AddUser.parseHtpasswd result.2
                   = JsMap.set username hash (AddUser.parseHtpasswd file)).
  { subst result. unfold AddUser.addUser. cbn [snd]. apply save_parse.
    - by apply jsmap_set_NoDup.
    - by apply jsmap_set_Forall. }
  split_and!.
  - subst result. unfold AddUser.addUser. cbn [fst].
    rewrite bool_decide_eq_true. apply jsmap_has.
  - exact Hparse.
  - rewrite Hparse. apply jsmap_get_set_eq.
  - intros other Hne. rewrite Hparse. by apply jsmap_get_set_ne.
  - unfold AddUser.listUsers at 1. rewrite Hparse. apply jsmap_keys_set.
Qed.

Lemma addUser_stores_hash_witness :
  let file := Some (String.concat (String AddUser.newline "") ["alice:{SHA}z"; ""]) in
  let result :=
    AddUser.addUser AddUser.sample_md5 AddUser.sample_random file "bob" "secret" in
  AddUser.listUsers file = ["alice"]
  /\ result.1 = false
  /\ AddUser.listUsers result.2 = ["alice"; "bob"].
Proof.
  intros file result.
  destruct (addUser_stores_hash AddUser.sample_md5 AddUser.sample_random file
              "bob" "secret") as (Hupd & _ & _ & _ & Hlist).
  - exact sample_random_range.
  - split_and!; by vm_compute.
  - vm_compute. repeat constructor; discriminate.
  - split_and!; [by vm_compute | by vm_compute | exact Hlist].
Defined.

(** X29. [deleteUser] answers whether the name was listed. A name that is not
    listed leaves the file as it was, not even creating it; a listed one is
    gone from the rewritten file, which keeps every other entry. This holds
    for a file whose entries have no empty name or hash. *)
Theorem deleteUser_removes (file : option string) (username : string) :
  Forall (fun e => e.1 ≠ "" /\ e.2 ≠ "") (AddUser.parseHtpasswd file) ->
  let result := AddUser.deleteUser file username in
  (result.1 = true <-> username ∈ AddUser.listUsers file)
  /\ (result.1 = false -> result.2 = file)
  /\ AddUser.parseHtpasswd result.2
     = JsMap.delete username (AddUser.parseHtpasswd file)
  /\ (username ∉ AddUser.listUsers result.2)
  /\ (forall other, other ≠ username ->
        JsMap.get other (AddUser.parseHtpasswd result.2)
        = JsMap.get other (AddUser.parseHtpasswd file)).
Proof.
  intros Hfile result.
  destruct (parse_stored file) as [Hnd _].
  pose proof (parse_clean file Hfile) as Hclean.
  assert (Hparse : AddUser.parseHtpasswd result.2
                   = JsMap.delete username (AddUser.parseHtpasswd file)).
  { subst result. unfold AddUser.deleteUser. case_bool_decide as Hin; cbn [snd].
    - apply save_parse; [by apply jsmap_delete_NoDup | by apply jsmap_delete_Forall].
    - rewrite jsmap_has in Hin. symmetry. apply jsmap_delete_absent. exact Hin. }
  split_and!.
  - subst result. unfold AddUser.deleteUser.
    case_bool_decide as Hin; cbn [fst]; rewrite jsmap_has in Hin; by split.
  - subst result. unfold AddUser.deleteUser. by case_bool_decide.
  - exact Hparse.
  - unfold AddUser.listUsers. rewrite Hparse, <- jsmap_get_None.
    apply jsmap_get_delete_eq.
  - intros other Hne. rewrite Hparse. by apply jsmap_get_delete_ne.
Qed.

Lemma deleteUser_removes_witness :
  let file :=
    Some (String.concat (String AddUser.newline "") ["alice:{SHA}z"; "bob:{SHA}y"; ""]) in
  AddUser.listUsers file = ["alice"; "bob"]
  /\ ("alice" ∉ AddUser.listUsers (AddUser.deleteUser file "alice").2)
  /\ (AddUser.deleteUser file "carol").2 = file.
Proof.
  intros file.
  assert (Hfile : Forall (fun e : string * string => e.1 ≠ "" /\ e.2 ≠ "")
                         (AddUser.parseHtpasswd file)).
  { vm_compute. repeat constructor; discriminate. }
  destruct (deleteUser_removes file "alice" Hfile) as (_ & _ & _ & Hgone & _).
  destruct (deleteUser_removes file "carol" Hfile) as (_ & Hsame & _).
  split_and!; [by vm_compute | exact Hgone | apply Hsame; by vm_compute].
Defined.
